(** * DHTsimple: the metadata session of [dht/meta.go]

    A shallow embedding of the [Meta] type of package [dht] and of its
    methods: the base handshake, the extension handshake, the piece
    requests, the piece-reply loop and the final SHA-1 check.

    Go values are modelled as follows.
    - [byte] is [Byte.byte], [[]byte] is [list byte]; where the code
      distinguishes a nil slice from a stored one (the slots of
      [Meta.pieces], the result of [bytes.Join], the first result of
      [Begin] and [ReadN]) the slice is an [option (list byte)] with
      [None] for nil.
    - [int], [int64] and [uint32] values are [Z]; conversions that wrap
      ([uint32(len(data))], [byte(utMetadata)]) are written with [mod].
    - [interface{}] values are the inductive type [any].
    - An [error] result is an [option error] with [None] for nil.
    - A method of [*Meta] is a function from the receiver to an [outcome]
      and the updated receiver; a run-time panic is the outcome [Panic],
      also when it is raised inside [bencode.Decode].
    - The connection is a record [Conn]: the bytes the peer still sends,
      the writes done so far, and the results of the writes to come.
    Deadlines and the lines printed on standard output are not modelled. *)

From Stdlib Require Import ZArith Lia.
From Stdlib Require Import Strings.Byte.
From Stdlib Require Import DecimalString.
From stdpp Require Import gmap strings list.

Set Warnings "-register-all".
Set Default Proof Using "Type".
Local Open Scope Z_scope.

(** ** Bytes *)

#[global] Instance byte_eq_decision : EqDecision byte := Byte.byte_eq_dec.

(** The byte that a Go conversion [byte(z)] yields: the low eight bits. *)
Definition byte_of_Z (z : Z) : byte :=
  default Byte.x00 (Byte.of_N (Z.to_N (z mod 256))).

Definition Z_of_byte (b : byte) : Z := Z.of_N (Byte.to_N b).

(** [[]byte(s)] and [string(b)]. *)
Definition bytes_of_string (s : string) : list byte := String.list_byte_of_string s.
Definition string_of_bytes (b : list byte) : string := String.string_of_list_byte b.

(** [len(x)] as a Go [int]. *)
Definition len {A} (l : list A) : Z := Z.of_nat (length l).

(** [binary.BigEndian.PutUint32] on a fresh four-byte slice. *)
Definition PutUint32 (v : Z) : list byte :=
  [byte_of_Z (Z.shiftr v 24); byte_of_Z (Z.shiftr v 16);
   byte_of_Z (Z.shiftr v 8); byte_of_Z v].

(** [binary.BigEndian.Uint32] on a four-byte slice. *)
Definition Uint32 (b : list byte) : Z :=
  match b with
  | [b0; b1; b2; b3] =>
      Z.lor (Z.lor (Z.lor (Z.shiftl (Z_of_byte b0) 24) (Z.shiftl (Z_of_byte b1) 16))
                   (Z.shiftl (Z_of_byte b2) 8)) (Z_of_byte b3)
  | _ => 0
  end.

(** [strconv.Itoa] and [strconv.FormatInt(v, 10)]. *)
Definition Itoa (z : Z) : list byte :=
  bytes_of_string (NilZero.string_of_int (Z.to_int z)).

(** [hex.EncodeToString]. *)
Definition hex_digit (n : Z) : Ascii.ascii :=
  Ascii.ascii_of_nat (Z.to_nat (if n <? 10 then 48 + n else 87 + n)).

Fixpoint EncodeToString (b : list byte) : string :=
  match b with
  | [] => EmptyString
  | x :: r =>
      String (hex_digit (Z_of_byte x / 16))
        (String (hex_digit (Z_of_byte x mod 16)) (EncodeToString r))
  end.

(** [bytes.HasPrefix]. *)
Fixpoint HasPrefix (s sep : list byte) : bool :=
  match sep, s with
  | [], _ => true
  | _ :: _, [] => false
  | c :: sep', x :: s' => bool_decide (x = c) && HasPrefix s' sep'
  end.

(** [bytes.Index]: the index of the first instance of [sep] in [s], or -1. *)
Fixpoint Index (s sep : list byte) : Z :=
  if HasPrefix s sep then 0
  else match s with
       | [] => -1
       | _ :: s' => let i := Index s' sep in if i <? 0 then -1 else i + 1
       end.

(** [bytes.Equal]; a nil slice and an empty one are equal. *)
Definition Equal (a b : list byte) : bool := bool_decide (a = b).

(** [bytes.Join(s, []byte(""))]; a nil element adds nothing.  The result
    is a slice that can be nil: no element gives [[]byte{}], one element
    gives [append([]byte(nil), s[0]...)], which is nil when the element
    has no byte, and two or more give a fresh slice of the total length. *)
Definition Join (s : list (option (list byte))) : option (list byte) :=
  match s with
  | [] => Some []
  | [x] => match default [] x with
           | [] => None
           | b :: r => Some (b :: r)
           end
  | _ :: _ :: _ => Some (concat (map (default []) s))
  end.

(** ** Errors and dynamic values *)

Inductive error : Type :=
  | io_EOF
  | io_ErrUnexpectedEOF
  | errors_New (msg : string)
  (** [fmt.Errorf("write message failed: %v", err)] *)
  | write_failed (err : error)
  (** an error made by the transport or by the bencode package *)
  | foreign (msg : string).

#[global] Instance error_eq_decision : EqDecision error.
Proof. solve_decision. Defined.

(** The dynamic types an [interface{}] holds in this program: what the
    code passes to [bencode.Encode] ([int], [[]byte], maps) and what
    [bencode.Decode] builds ([int64], [uint64], [string], lists, maps, and
    the nil interface for an integer that it cannot parse). *)
Inductive any : Type :=
  | Nil
  | Int (z : Z)
  | Int64 (z : Z)
  | Uint64 (z : Z)
  | Str (s : string)
  | Bytes (b : list byte)
  | List (l : list any)
  | Map (d : gmap string any).

(** [v, ok := x.(int64)] where [x] is a map entry; an absent key is the
    nil interface.  A failed assertion leaves the zero value in [v]. *)
Definition assert_int64 (x : option any) : Z * bool :=
  match x with
  | Some (Int64 z) => (z, true)
  | _ => (0, false)
  end.

(** [v, ok := x.(map[string]interface{})]; the zero value is the nil map,
    which reads as the empty one. *)
Definition assert_map (x : option any) : gmap string any * bool :=
  match x with
  | Some (Map d) => (d, true)
  | _ => (∅, false)
  end.

(** ** The connection *)

(** What the program can observe of its [net.Conn]: [incoming] are the
    bytes the peer sends before the stream ends, [closes_with] is the
    error a read meets once they are used up ([io_EOF] when the peer
    closes, a timeout otherwise), [sent] are the byte slices written so
    far, oldest first, and [write_results] are the results of the next
    calls of [Write] (every call after the listed ones succeeds). *)
Record Conn : Type := mkConn {
  incoming : list byte;
  closes_with : error;
  sent : list (list byte);
  write_results : list (option error);
  closed : bool
}.

(** [conn.Write(b)]; a failed write leaves nothing in [sent]. *)
Definition conn_Write (b : list byte) (c : Conn) : option error * Conn :=
  match write_results c with
  | Some e :: rest =>
      (Some e, mkConn (incoming c) (closes_with c) (sent c) rest (closed c))
  | None :: rest =>
      (None, mkConn (incoming c) (closes_with c) (sent c ++ [b]) rest (closed c))
  | [] =>
      (None, mkConn (incoming c) (closes_with c) (sent c ++ [b]) [] (closed c))
  end.

(** [io.ReadFull(conn, buf)] with [len(buf) = n]: the number of bytes read,
    the contents of [buf] and the error.  Nothing is read for [n = 0].  A
    stream that ends inside the buffer gives [io_ErrUnexpectedEOF] in place
    of [io_EOF]; any other error of the transport is passed on. *)
Definition ReadFull (n : Z) (c : Conn) : (Z * list byte * option error) * Conn :=
  if n <=? 0 then ((0, [], None), c)
  else if n <=? len (incoming c) then
    ((n, take (Z.to_nat n) (incoming c), None),
     mkConn (drop (Z.to_nat n) (incoming c)) (closes_with c) (sent c)
            (write_results c) (closed c))
  else
    let e := match incoming c, closes_with c with
             | _ :: _, io_EOF => io_ErrUnexpectedEOF
             | _, e => e
             end in
    ((len (incoming c), incoming c, Some e),
     mkConn [] (closes_with c) (sent c) (write_results c) (closed c)).

(** ** The session object *)

Definition perBlock : Z := 16384.
Definition maxMetadataSize : Z := perBlock * 1024.
Definition extended : Z := 20.
Definition extHandshake : Z := 0.

Record Meta : Type := mkMeta {
  addr : string;
  infoHash : list byte;
  infoHashHex : string;
  timeout : Z;
  conn : option Conn;
  peerId : string;
  preHeader : list byte;
  metadataSize : Z;
  utMetadata : Z;
  pieceCount : Z;
  pieces : list (option (list byte))
}.

Definition set_conn (c : option Conn) (m : Meta) : Meta :=
  mkMeta (addr m) (infoHash m) (infoHashHex m) (timeout m) c (peerId m)
         (preHeader m) (metadataSize m) (utMetadata m) (pieceCount m) (pieces m).

Definition set_pieces (p : list (option (list byte))) (m : Meta) : Meta :=
  mkMeta (addr m) (infoHash m) (infoHashHex m) (timeout m) (conn m) (peerId m)
         (preHeader m) (metadataSize m) (utMetadata m) (pieceCount m) p.

Definition set_params (size ut count : Z) (m : Meta) : Meta :=
  mkMeta (addr m) (infoHash m) (infoHashHex m) (timeout m) (conn m) (peerId m)
         (preHeader m) size ut count (pieces m).

(** ** Outcomes of a method call *)

Inductive outcome (A : Type) : Type :=
  | Return (a : A)
  | Panic (msg : string)
  (** the model of a loop ran out of fuel; never the outcome of [Begin] *)
  | OutOfFuel.
Arguments Return {A} a.
Arguments Panic {A} msg.
Arguments OutOfFuel {A}.

Definition go (A : Type) : Type := Meta → outcome A * Meta.

Definition ret {A} (a : A) : go A := λ m, (Return a, m).
Definition panic {A} (msg : string) : go A := λ m, (Panic msg, m).
Definition bind {A B} (c : go A) (k : A → go B) : go B :=
  λ m, match c m with
       | (Return a, m') => k a m'
       | (Panic msg, m') => (Panic msg, m')
       | (OutOfFuel, m') => (OutOfFuel, m')
       end.

#[global] Instance go_ret : MRet go := @ret.
#[global] Instance go_bind : MBind go := λ A B k c, bind c k.

Definition get : go Meta := λ m, (Return m, m).
Definition modify (f : Meta → Meta) : go unit := λ m, (Return tt, f m).

Definition nil_deref : string := "invalid memory address or nil pointer dereference".
Definition out_of_range : string := "index out of range".
Definition slice_out_of_range : string := "slice bounds out of range".
Definition makeslice : string := "makeslice: len out of range".

(** A call on [m.conn]; the field is nil until [Connect] has dialled. *)
Definition on_conn {A} (f : Conn → A * Conn) : go A :=
  λ m, match conn m with
       | None => (Panic nil_deref, m)
       | Some c => let '(a, c') := f c in (Return a, set_conn (Some c') m)
       end.

(** [s[i]] on a slice. *)
Definition index {A} (s : list A) (i : Z) : go A :=
  match (if i <? 0 then None else s !! Z.to_nat i) with
  | Some x => ret x
  | None => panic out_of_range
  end.

(** [s[:n]]; a slice whose capacity is its length. *)
Definition slice_to {A} (s : list A) (n : Z) : go (list A) :=
  if (n <? 0) || (len s <? n) then panic slice_out_of_range
  else ret (take (Z.to_nat n) s).

(** [s[n:]]. *)
Definition slice_from {A} (s : list A) (n : Z) : go (list A) :=
  if (n <? 0) || (len s <? n) then panic slice_out_of_range
  else ret (drop (Z.to_nat n) s).

(** [s[lo:hi]]. *)
Definition slice {A} (s : list A) (lo hi : Z) : go (list A) :=
  if (lo <? 0) || (hi <? lo) || (len s <? hi) then panic slice_out_of_range
  else mret (take (Z.to_nat (hi - lo)) (drop (Z.to_nat lo) s)).

(** [for i := 0; i < n; i++ { body(i) }], unrolled [k] times from [i]. *)
Fixpoint for_range (k : nat) (i : Z) (body : Z → go unit) : go unit :=
  match k with
  | O => mret tt
  | S k' => _ ← body i; for_range k' (i + 1) body
  end.

(** ** The packages the program imports

    [bencode.Decode] applied to a buffer over the given bytes,
    [bencode.Encode], and [sha1.Sum] (whose array result is read as a
    slice).  [bencode.Decode] returns a map and an error, or panics: it
    allocates the buffer of a byte string with [make([]byte, n)] for the
    length [n] that the input announces, before it reads the bytes;
    [bencode_Decode] is [None] on the inputs on which it panics.  The
    session is defined, and its properties are proved, for every
    implementation of the three; [Bencode] and [SHA1] below give the
    instance used on concrete inputs. *)
Class Packages : Type := {
  bencode_Decode : list byte → option (gmap string any * option error);
  bencode_Encode : any → list byte;
  sha1_Sum : list byte → list byte
}.

(** Modelled from the spec: [MakePreHeader] is defined in a file of package
    [dht] that is not among the sources.  Section 4.2 and section 6 give the
    header as the byte 19, the 19-byte protocol identifier and 8 reserved
    bytes with bit 0x10 of byte index 5 set. *)
Definition MakePreHeader : list byte :=
  [Byte.x13] ++ bytes_of_string "BitTorrent protocol"
  ++ [Byte.x00; Byte.x00; Byte.x00; Byte.x00; Byte.x00; Byte.x10; Byte.x00; Byte.x00].

Definition NewMeta (peerId addr : string) (hash : list byte) : Meta :=
  {| addr := addr;
     infoHash := hash;
     infoHashHex := EncodeToString hash;
     timeout := 3 * 1000000000;
     conn := None;
     peerId := peerId;
     preHeader := MakePreHeader;
     metadataSize := 0;
     utMetadata := 0;
     pieceCount := 0;
     pieces := [] |}.

Section methods.
Context `{Packages}.

Definition checkDone (mw : Meta) : bool :=
  forallb (λ b, bool_decide (b ≠ None)) (pieces mw).

Definition readOnePiece (payload : list byte) : go (option error) :=
  let trailerIndex := Index payload (bytes_of_string "ee") + 2 in
  if bool_decide (trailerIndex = 1) then mret (Some (errors_New "ee == 1")) else
  head ← slice_to payload trailerIndex;
  match bencode_Decode head with
  | None => panic makeslice
  | Some (dict, Some e) => mret (Some e)
  | Some (dict, None) =>
      m ← get;
      let '(pieceIndex, ok) := assert_int64 (dict !! "piece") in
      if negb ok || (pieceCount m <=? pieceIndex)
      then mret (Some (errors_New "piece num error")) else
      let '(msgType, ok) := assert_int64 (dict !! "msg_type") in
      if negb ok || bool_decide (msgType ≠ 1)
      then mret (Some (errors_New "piece type error")) else
      tail ← slice_from payload trailerIndex;
      _ ← index (pieces m) pieceIndex;
      _ ← modify (set_pieces (<[Z.to_nat pieceIndex := Some tail]> (pieces m)));
      mret None
  end.

(** [SetDeadLine] calls two methods of [m.conn]; only the call is kept. *)
Definition SetDeadLine (second : Z) : go unit :=
  on_conn (λ c, (tt, c)).

Definition WriteTo (data : list byte) : go (option error) :=
  let length := len data mod 2 ^ 32 in
  let lenByte := PutUint32 length in
  err ← on_conn (conn_Write (lenByte ++ data));
  match err with
  | Some e => mret (Some (write_failed e))
  | None => mret None
  end.

Definition ReadN : go (option (list byte) * option error) :=
  '(_, length, err) ← on_conn (ReadFull 4);
  match err with
  | Some e => mret (None, Some e)
  | None =>
      let size := Uint32 length in
      '(_, data, err) ← on_conn (ReadFull size);
      match err with
      | Some e => mret (None, Some e)
      | None => mret (Some data, None)
      end
  end.

Definition requestPiece (i : Z) : go unit :=
  mw ← get;
  let buf := [byte_of_Z extended] ++ [byte_of_Z (utMetadata mw)]
             ++ bencode_Encode (Map {[ "msg_type" := Int 0; "piece" := Int i ]}) in
  _ ← WriteTo buf;
  mret tt.

(** The body of the [for] loop of [Begin], in three parts.  Each returns
    [None] when the turn ends in [continue] and the pair that [Begin]
    returns otherwise.

    [Begin_check] is the end of the body, from the test of [checkDone]. *)
Definition Begin_check : go (option (option (list byte) * option error)) :=
  m ← get;
  if negb (checkDone m) then mret None else
  let pie := Join (pieces m) in
  let sum := sha1_Sum (default [] pie) in
  if Equal sum (infoHash m) then mret (Some (pie, None))
  else mret (Some (None, Some (errors_New "metadata checksum mismatch"))).

(** [Begin_frame] is the body once [ReadN] has returned [data]. *)
Definition Begin_frame (data : list byte)
    : go (option (option (list byte) * option error)) :=
  d0 ← index data 0;
  if bool_decide (Z_of_byte d0 ≠ extended) then mret None else
  d1 ← index data 1;
  if bool_decide (Z_of_byte d1 ≠ 1) then mret None else
  payload ← slice_from data 2;
  err ← readOnePiece payload;
  match err with
  | Some e => mret (Some (None, Some e))
  | None => Begin_check
  end.

Definition Begin_turn : go (option (option (list byte) * option error)) :=
  '(data, err) ← ReadN;
  match err with
  | Some e => mret (Some (None, Some e))
  | None => Begin_frame (default [] data)
  end.

Fixpoint Begin_loop (fuel : nat) : go (option (list byte) * option error) :=
  match fuel with
  | O => λ m, (OutOfFuel, m)
  | S fuel' =>
      r ← Begin_turn;
      match r with
      | Some v => mret v
      | None => Begin_loop fuel'
      end
  end.

(** A turn that does not return has read the four length bytes of a
    frame, so the loop makes at most one turn more than a quarter of the
    bytes still to come. *)
Definition Begin_fuel (m : Meta) : nat :=
  match conn m with
  | Some c => S (length (incoming c))
  | None => 1
  end.

Definition Begin : go (option (list byte) * option error) :=
  _ ← SetDeadLine 30;
  m ← get;
  _ ← for_range (Z.to_nat (pieceCount m)) 0 requestPiece;
  m ← get;
  Begin_loop (Begin_fuel m).

Definition onExtHandshake (payload : list byte) : go (option error) :=
  match bencode_Decode payload with
  | None => panic makeslice
  | Some (dict, Some e) => mret (Some e)
  | Some (dict, None) =>
      let '(metadataSize, ok) := assert_int64 (dict !! "metadata_size") in
      if negb ok then mret (Some (errors_New "invalid extension header response")) else
      if maxMetadataSize <? metadataSize
      then mret (Some (errors_New "metadata_size too long")) else
      if metadataSize <? 0 then mret (Some (errors_New "negative metadata_size")) else
      let '(m, ok) := assert_map (dict !! "m") in
      if negb ok then mret (Some (errors_New "negative metadata m")) else
      let '(utMetadata, ok) := assert_int64 (m !! "ut_metadata") in
      if negb ok then mret (Some (errors_New "negative metadata ut_metadata")) else
      let pieceCount := Z.quot metadataSize perBlock in
      let pieceCount :=
        if bool_decide (Z.rem metadataSize perBlock ≠ 0) then pieceCount + 1
        else pieceCount in
      _ ← modify (set_params metadataSize utMetadata pieceCount);
      _ ← modify (set_pieces (replicate (Z.to_nat pieceCount) None));
      mret None
  end.

Definition extHandShake : go (option error) :=
  let data := [byte_of_Z extended; byte_of_Z extHandshake]
              ++ bencode_Encode (Map {[ "m" := Map {[ "ut_metadata" := Int 1 ]} ]}) in
  err ← WriteTo (bencode_Encode (Bytes data));
  match err with
  | Some e => mret (Some e)
  | None =>
      '(data, err) ← ReadN;
      match err with
      | Some e => mret (Some e)
      | None =>
          let data := default [] data in
          d0 ← index data 0;
          if bool_decide (Z_of_byte d0 ≠ extended)
          then mret (Some (errors_New "data 0 err")) else
          d1 ← index data 1;
          if bool_decide (Z_of_byte d1 ≠ 0)
          then mret (Some (errors_New "data 1 err")) else
          payload ← slice_from data 2;
          onExtHandshake payload
      end
  end.

(** [HandShake_read] is [HandShake] from the allocation of [res] on: the
    68 bytes of the reply and the three checks. *)
Definition HandShake_read : go (option error) :=
  m ← get;
  '(n, res, err) ← on_conn (ReadFull 68);
  match err with
  | Some e => mret (Some e)
  | None =>
      if bool_decide (n ≠ 68) then mret (Some (errors_New "hand read len err")) else
      theirs ← slice_to res 20;
      ours ← slice_to (preHeader m) 20;
      if negb (Equal theirs ours)
      then mret (Some (errors_New "remote peer not supporting bittorrent protocol")) else
      r25 ← index res 25;
      if bool_decide (Z.land (Z_of_byte r25) 16 ≠ 16)
      then mret (Some (errors_New "remote peer not supporting extension protocol")) else
      hash ← slice res 28 48;
      if negb (Equal hash (infoHash m))
      then mret (Some (errors_New "invalid bittorrent header response")) else
      mret None
  end.

(** The error of the write is assigned to [err] and overwritten by the
    read that follows. *)
Definition HandShake : go (option error) :=
  m ← get;
  let buf := preHeader m ++ infoHash m ++ bytes_of_string (peerId m) in
  _ ← on_conn (conn_Write buf);
  HandShake_read.

(** [dial] is what [net.DialTimeout] returns. *)
Definition Connect (dial : Conn + error) : go (option error) :=
  match dial with
  | inr e => _ ← modify (set_conn None); mret (Some e)
  | inl c =>
      _ ← modify (set_conn (Some c));
      _ ← SetDeadLine 5;
      err ← HandShake;
      match err with
      | Some e => mret (Some e)
      | None => extHandShake
      end
  end.

Definition conn_Close (c : Conn) : Conn :=
  mkConn (incoming c) (closes_with c) (sent c) (write_results c) true.

(** The body of [Start] after the [defer] statement. *)
Definition Start_body (err : option error) : go unit :=
  match err with
  | Some _ => mret tt
  | None =>
      '(ret, err) ← Begin;
      match err with
      | Some _ => mret tt
      | None =>
          match bencode_Decode (default [] ret) with
          | None => panic makeslice
          | Some (dict, err) => mret tt
          end
      end
  end.

(** [Start]: the deferred [m.conn.Close()] is set up before the error of
    [Connect] is looked at, and runs when the body returns or panics. *)
Definition Start (dial : Conn + error) : go unit :=
  λ m,
    match Connect dial m with
    | (Return err, m1) =>
        match conn m1 with
        | None => (Panic nil_deref, m1)
        | Some _ =>
            let '(o, m2) := Start_body err m1 in
            (o, set_conn (conn_Close <$> conn m2) m2)
        end
    | (Panic msg, m1) => (Panic msg, m1)
    | (OutOfFuel, m1) => (OutOfFuel, m1)
    end.

End methods.

(** The five errors of [onExtHandshake]. *)
Definition e_size : error := errors_New "invalid extension header response".
Definition e_long : error := errors_New "metadata_size too long".
Definition e_negative : error := errors_New "negative metadata_size".
Definition e_map : error := errors_New "negative metadata m".
Definition e_ut : error := errors_New "negative metadata ut_metadata".

(** The error of the final check of [Begin]. *)
Definition e_checksum : error := errors_New "metadata checksum mismatch".

(** ** Views of the session used in the statements

    [with_writes s w m] is [m] on a connection that differs only in what
    has been written ([s]) and in the results of the writes to come
    ([w]). *)
Definition rewire (s : list (list byte)) (w : list (option error)) (c : Conn) : Conn :=
  mkConn (incoming c) (closes_with c) s w (closed c).

Definition with_writes (s : list (list byte)) (w : list (option error)) (m : Meta)
    : Meta :=
  set_conn (rewire s w <$> conn m) m.

(** A method is [conn_blind] when it neither looks at [m.conn] nor
    changes it, and [writes_blind] when it is indifferent to the writes. *)
Definition conn_blind {A} (f : go A) : Prop :=
  ∀ c m, f (set_conn c m) = ((f m).1, set_conn c (f m).2).

Definition writes_blind {A} (f : go A) : Prop :=
  ∀ s w m, f (with_writes s w m) = ((f m).1, with_writes s w (f m).2).

(** What [HandShake] and [extHandShake] write. *)
Definition handshake_bytes (m : Meta) : list byte :=
  preHeader m ++ infoHash m ++ bytes_of_string (peerId m).

Definition ext_message `{Packages} : list byte :=
  [byte_of_Z extended; byte_of_Z extHandshake]
  ++ bencode_Encode (Map {[ "m" := Map {[ "ut_metadata" := Int 1 ]} ]}).

Definition ext_written `{Packages} : list byte :=
  let p := bencode_Encode (Bytes ext_message) in
  PutUint32 (len p mod 2 ^ 32) ++ p.

(** ** Piece replies

    [piece_reply_of payload k body]: [payload] is what follows the two
    message bytes of a data reply for piece [k].  Its first "ee" ends a
    dictionary that [bencode.Decode] reads as [msg_type] 1 and [piece]
    [k]; [body] is everything after it. *)
Definition piece_reply_of `{Packages} (payload : list byte) (k : Z) (body : list byte)
    : Prop :=
  let i := Index payload (bytes_of_string "ee") in
  i ≠ -1
  ∧ ∃ dict,
      bencode_Decode (take (Z.to_nat (i + 2)) payload) = Some (dict, None)
      ∧ dict !! "piece" = Some (Int64 k)
      ∧ dict !! "msg_type" = Some (Int64 1)
      ∧ body = drop (Z.to_nat (i + 2)) payload.

(** The same as a test that can be run. *)
Definition piece_reply_check `{Packages} (payload : list byte) (k : Z)
    (body : list byte) : bool :=
  let i := Index payload (bytes_of_string "ee") in
  negb (i =? -1)
  && match bencode_Decode (take (Z.to_nat (i + 2)) payload) with
     | Some (dict, None) =>
         match dict !! "piece", dict !! "msg_type" with
         | Some (Int64 k'), Some (Int64 1) =>
             (k' =? k) && bool_decide (body = drop (Z.to_nat (i + 2)) payload)
         | _, _ => false
         end
     | _ => false
     end.

(** Replies as pairs of a piece index and the bytes that follow the
    dictionary: [last_body k rs] is the body of the last reply for piece
    [k], and [store_all t rs] the table [t] after all the stores. *)
Fixpoint last_body (k : Z) (rs : list (Z * list byte)) : option (list byte) :=
  match rs with
  | [] => None
  | r :: rs' =>
      match last_body k rs' with
      | Some b => Some b
      | None => if bool_decide (r.1 = k) then Some r.2 else None
      end
  end.

Definition store_all (t : list (option (list byte))) (rs : list (Z * list byte))
    : list (option (list byte)) :=
  foldl (λ t r, <[Z.to_nat r.1 := Some r.2]> t) t rs.

(** The replies [rs] are what the payloads [ps] carry, and every index is
    one of the session. *)
Definition replies `{Packages} (m : Meta) (ps : list (list byte))
    (rs : list (Z * list byte)) : Prop :=
  Forall2 (λ p r, piece_reply_of p r.1 r.2 ∧ 0 ≤ r.1 < pieceCount m) ps rs.

(** A frame as a peer writes it, and the frame of a piece reply. *)
Definition frame (payload : list byte) : list byte :=
  PutUint32 (len payload) ++ payload.

Definition piece_frame (payload : list byte) : list byte :=
  frame (Byte.x14 :: Byte.x01 :: payload).

(** What the loop of [Begin] returns for a table that passes
    [checkDone]. *)
Definition checked `{Packages} (hash : list byte) (t : list (option (list byte)))
    : option (list byte) * option error :=
  if Equal (sha1_Sum (default [] (Join t))) hash then (Join t, None)
  else (None, Some e_checksum).

(** The session once the replies [rs] have been stored. *)
Definition stored (m : Meta) (rs : list (Z * list byte)) : Meta :=
  set_pieces (store_all (pieces m) rs) m.

(** ** Reference implementations of the imported packages

    Used to run the session on concrete inputs.  The theorems below hold
    for every instance of [Packages].  [Bencode] follows the package
    [github.com/marksamman/bencode] that the program imports, function by
    function. *)

Module SHA1.

Definition w32 (x : Z) : Z := x mod 2 ^ 32.
Definition rotl (n x : Z) : Z := w32 (Z.lor (Z.shiftl x n) (Z.shiftr x (32 - n))).

Definition be64 (v : Z) : list byte :=
  PutUint32 (Z.shiftr v 32) ++ PutUint32 v.

(** The message, the byte 0x80, zeros up to 56 modulo 64, the bit length. *)
Definition pad (msg : list byte) : list byte :=
  msg ++ [Byte.x80]
      ++ replicate (Z.to_nat ((55 - len msg) mod 64)) Byte.x00
      ++ be64 (8 * len msg).

Fixpoint words (fuel : nat) (b : list byte) : list Z :=
  match fuel, b with
  | S fuel', b0 :: b1 :: b2 :: b3 :: r => Uint32 [b0; b1; b2; b3] :: words fuel' r
  | _, _ => []
  end.

(** The message schedule, newest word first. *)
Fixpoint extend (n : nat) (w : list Z) : list Z :=
  match n with
  | O => w
  | S n' =>
      let x := Z.lxor (Z.lxor (nth 2 w 0) (nth 7 w 0))
                      (Z.lxor (nth 13 w 0) (nth 15 w 0)) in
      extend n' (rotl 1 x :: w)
  end.

Definition f (t b c d : Z) : Z :=
  if t <? 20 then Z.lor (Z.land b c) (Z.land (Z.lxor b (2 ^ 32 - 1)) d)
  else if t <? 40 then Z.lxor b (Z.lxor c d)
  else if t <? 60 then Z.lor (Z.lor (Z.land b c) (Z.land b d)) (Z.land c d)
  else Z.lxor b (Z.lxor c d).

Definition k (t : Z) : Z :=
  if t <? 20 then 0x5A827999
  else if t <? 40 then 0x6ED9EBA1
  else if t <? 60 then 0x8F1BBCDC
  else 0xCA62C1D6.

Definition state : Type := Z * Z * Z * Z * Z.

Fixpoint rounds (t : Z) (w : list Z) (s : state) : state :=
  match w with
  | [] => s
  | wt :: w' =>
      let '(a, b, c, d, e) := s in
      let tmp := w32 (rotl 5 a + f t b c d + e + k t + wt) in
      rounds (t + 1) w' (tmp, a, rotl 30 b, c, d)
  end.

Definition block (h : state) (w16 : list Z) : state :=
  let '(h0, h1, h2, h3, h4) := h in
  let '(a, b, c, d, e) := rounds 0 (rev (extend 64 (rev w16))) h in
  (w32 (h0 + a), w32 (h1 + b), w32 (h2 + c), w32 (h3 + d), w32 (h4 + e)).

Fixpoint blocks (fuel : nat) (h : state) (w : list Z) : state :=
  match fuel, w with
  | S fuel', _ :: _ => blocks fuel' (block h (take 16 w)) (drop 16 w)
  | _, _ => h
  end.

Definition Sum (msg : list byte) : list byte :=
  let w := words (length (pad msg)) (pad msg) in
  let '(h0, h1, h2, h3, h4) :=
    blocks (length w) (0x67452301, 0xEFCDAB89, 0x98BADCFE, 0x10325476, 0xC3D2E1F0) w in
  PutUint32 h0 ++ PutUint32 h1 ++ PutUint32 h2 ++ PutUint32 h3 ++ PutUint32 h4.

End SHA1.

Module Bencode.

(** The encoder: [Encode] is [writeInterfaceType] on a fresh buffer. *)
Definition writeString (s : list byte) : list byte :=
  Itoa (len s) ++ bytes_of_string ":" ++ s.

Definition writeInt (v : Z) : list byte :=
  bytes_of_string "i" ++ Itoa v ++ bytes_of_string "e".

(** Keys in lexicographical order. *)
Fixpoint insert_key {A} (kv : string * A) (l : list (string * A)) : list (string * A) :=
  match l with
  | [] => [kv]
  | kv' :: r =>
      if String.leb kv.1 kv'.1 then kv :: l else kv' :: insert_key kv r
  end.

Definition sort_keys {A} (l : list (string * A)) : list (string * A) :=
  foldr insert_key [] l.

(** The type switch has a case for strings, lists, maps and the integer
    types.  It has none for a byte slice or for nil: for these nothing is
    written. *)
Fixpoint writeInterfaceType (v : any) : list byte :=
  match v with
  | Int z | Int64 z | Uint64 z => writeInt z
  | Str s => writeString (bytes_of_string s)
  | Bytes _ | Nil => []
  | List l =>
      bytes_of_string "l" ++ concat (map writeInterfaceType l) ++ bytes_of_string "e"
  | Map d =>
      bytes_of_string "d"
      ++ concat (map (λ kv, writeString (bytes_of_string kv.1) ++ kv.2)
                     (sort_keys (map_to_list (writeInterfaceType <$> d))))
      ++ bytes_of_string "e"
  end.

Definition Encode (v : any) : list byte := writeInterfaceType v.

(** The decoder reads from a [bufio.Reader] over the input.  A read gives
    a value and the bytes still to come, fails with an error, or panics. *)
Inductive read (A : Type) : Type :=
  | Read (a : A) (rest : list byte)
  | Failed (e : error)
  | Panicked.
Arguments Read {A} a rest.
Arguments Failed {A} e.
Arguments Panicked {A}.

(** The size of the buffer of a [bufio.Reader], and the largest size
    that [make] accepts on a 64-bit platform. *)
Definition bufSize : Z := 4096.
Definition maxAlloc : Z := 2 ^ 48.
Definition ErrBufferFull : error := errors_New "bufio: buffer full".

Definition digit (b : byte) : option Z :=
  let n := Z_of_byte b in
  if (48 <=? n) && (n <=? 57) then Some (n - 48) else None.

Fixpoint digits (acc : Z) (s : list byte) : option Z :=
  match s with
  | [] => Some acc
  | b :: r => d ← digit b; digits (10 * acc + d) r
  end.

(** [strconv.ParseInt(s, 10, 64)], then [strconv.ParseUint(s, 10, 64)]. *)
Definition parse (s : list byte) : option any :=
  let '(neg, ds) :=
    match s with
    | b :: r =>
        if bool_decide (b = "-"%byte) then (true, r)
        else if bool_decide (b = "+"%byte) then (false, r) else (false, s)
    | [] => (false, s)
    end in
  match ds with
  | [] => None
  | _ :: _ =>
      n ← digits 0 ds;
      let z := if neg : bool then - n else n in
      if (- 2 ^ 63 <=? z) && (z <? 2 ^ 63) then Some (Int64 z)
      else if (0 <=? z) && (z <? 2 ^ 64) && negb neg
                && bool_decide (head s ≠ Some "+"%byte) then Some (Uint64 z)
      else None
  end.

(** The bytes before the first [c] and the bytes after it. *)
Fixpoint readUntil (c : byte) (s : list byte) : option (list byte * list byte) :=
  match s with
  | [] => None
  | b :: r =>
      if bool_decide (b = c) then Some ([], r)
      else '(x, r') ← readUntil c r; Some (b :: x, r')
  end.

(** [ReadSlice(delim)], without the delimiter: it has to come within
    the buffer. *)
Definition ReadSlice (delim : byte) (s : list byte) : read (list byte) :=
  match readUntil delim (take (Z.to_nat bufSize) s) with
  | Some (x, _) => Read x (drop (S (length x)) s)
  | None => if bufSize <=? len s then Failed ErrBufferFull else Failed io_EOF
  end.

(** [readIntUntil]: when neither parse succeeds the value is nil and the
    error returned is the nil error of [ReadSlice]. *)
Definition readIntUntil (until : byte) (s : list byte) : read any :=
  match ReadSlice until s with
  | Read x r => Read (default Nil (parse x)) r
  | Failed e => Failed e
  | Panicked => Panicked
  end.

(** [readString]: the buffer is made before the bytes are read, and
    [make] panics for a length over [maxAlloc].  A length within the
    limit is taken to be allocated. *)
Definition readString (s : list byte) : read string :=
  match readIntUntil ":"%byte s with
  | Read (Int64 n) r =>
      if n <? 0
      then Failed (errors_New "string length can not be a negative number")
      else if maxAlloc <? n then Panicked
      else if n <=? len r
      then Read (string_of_bytes (take (Z.to_nat n) r)) (drop (Z.to_nat n) r)
      else match r with
           | [] => Failed io_EOF
           | _ :: _ => Failed io_ErrUnexpectedEOF
           end
  | Read _ _ => Failed (errors_New "string length may not exceed the size of int64")
  | Failed e => Failed e
  | Panicked => Panicked
  end.

(** [readInterfaceType], [readList] and [readDictionary].  Of two calls
    in a row one takes a byte, so twice the length of the input is fuel
    enough.  [readDictionary] reads a key first: it takes "de" for a
    dictionary whose first key has no length. *)
Fixpoint readInterfaceType (fuel : nat) (s : list byte) : read any :=
  match fuel, s with
  | S fuel', b :: r =>
      if bool_decide (b = "i"%byte) then readIntUntil "e"%byte r
      else if bool_decide (b = "l"%byte) then
        match readList fuel' [] r with
        | Read l r' => Read (List l) r'
        | Failed e => Failed e
        | Panicked => Panicked
        end
      else if bool_decide (b = "d"%byte) then
        match readDictionary fuel' ∅ r with
        | Read d r' => Read (Map d) r'
        | Failed e => Failed e
        | Panicked => Panicked
        end
      else
        match readString s with
        | Read x r' => Read (Str x) r'
        | Failed e => Failed e
        | Panicked => Panicked
        end
  | _, _ => Failed io_EOF
  end
with readList (fuel : nat) (items : list any) (s : list byte) : read (list any) :=
  match fuel, s with
  | S fuel', b :: r =>
      if bool_decide (b = "e"%byte) then Read items r
      else
        match readInterfaceType fuel' s with
        | Read item r1 => readList fuel' (items ++ [item]) r1
        | Failed e => Failed e
        | Panicked => Panicked
        end
  | _, _ => Failed io_EOF
  end
with readDictionary (fuel : nat) (dict : gmap string any) (s : list byte)
    : read (gmap string any) :=
  match fuel with
  | S fuel' =>
      match readString s with
      | Read key r1 =>
          match readInterfaceType fuel' r1 with
          | Read item r2 =>
              match r2 with
              | [] => Failed io_EOF
              | nextByte :: r3 =>
                  if bool_decide (nextByte = "e"%byte)
                  then Read (<[key := item]> dict) r3
                  else readDictionary fuel' (<[key := item]> dict) r2
              end
          | Failed e => Failed e
          | Panicked => Panicked
          end
      | Failed e => Failed e
      | Panicked => Panicked
      end
  | O => Failed io_EOF
  end.

(** [Decode]: no input gives the empty map and no error. *)
Definition Decode (s : list byte) : option (gmap string any * option error) :=
  match s with
  | [] => Some (∅, None)
  | firstByte :: r =>
      if bool_decide (firstByte = "d"%byte) then
        match readDictionary (2 * length s) ∅ r with
        | Read dict _ => Some (dict, None)
        | Failed e => Some (∅, Some e)
        | Panicked => None
        end
      else Some (∅, Some (errors_New "bencode data must begin with a dictionary"))
  end.

End Bencode.

#[global] Instance reference_packages : Packages :=
  {| bencode_Decode := Bencode.Decode;
     bencode_Encode := Bencode.Encode;
     sha1_Sum := SHA1.Sum |}.

(** ** A peer for the examples *)

Module Demo.

Definition metadata : list byte := bytes_of_string "d4:name4:demoe".
Definition hash : list byte := SHA1.Sum metadata.
Definition session : Meta := NewMeta "-DS0001-123456789012" "127.0.0.1:6881" hash.

Definition handshake_reply : list byte :=
  MakePreHeader ++ hash ++ bytes_of_string "-PEER01-abcdefghijkl".

Definition ext_dict (size : Z) : list byte :=
  bytes_of_string "d1:md11:ut_metadatai3ee13:metadata_sizei" ++ Itoa size
  ++ bytes_of_string "ee".

Definition ext_reply (size : Z) : list byte :=
  frame ([Byte.x14; Byte.x00] ++ ext_dict size).

Definition piece_dict (msg_type i : Z) : list byte :=
  bytes_of_string "d8:msg_typei" ++ Itoa msg_type ++ bytes_of_string "e5:piecei"
  ++ Itoa i ++ bytes_of_string "ee".

Definition piece_reply (i : Z) (body : list byte) : list byte :=
  frame ([Byte.x14; Byte.x01] ++ piece_dict 1 i ++ body).

(** The map that the decoder reads from [b]. *)
Definition dict_of (b : list byte) : gmap string any :=
  default ∅ (fst <$> Bencode.Decode b).

(** A peer that sends [bytes] and closes; every write to it succeeds. *)
Definition peer (bytes : list byte) : Conn := mkConn bytes io_EOF [] [] false.

(** The session once the peer has announced [size] bytes of metadata. *)
Definition announced (size : Z) (rest : list byte) : Meta :=
  (Connect (inl (peer (handshake_reply ++ ext_reply size ++ rest))) session).2.

(** Metadata on which the decoder panics: a dictionary whose first key
    announces a length beyond what [make] accepts.  A session for it, and
    a peer that serves it in one piece. *)
Definition bomb : list byte := bytes_of_string "d9223372036854775807:ee".

Definition bomb_session : Meta :=
  NewMeta "-DS0001-123456789012" "127.0.0.1:6881" (SHA1.Sum bomb).

Definition bomb_peer : Conn :=
  peer (MakePreHeader ++ SHA1.Sum bomb ++ bytes_of_string "-PEER01-abcdefghijkl"
        ++ ext_reply (len bomb) ++ piece_reply 0 bomb).

End Demo.

(** ** More views of the session *)

(** The error of a read that the end of the stream cuts short: the error
    of the transport, but [io_ErrUnexpectedEOF] when the peer closed after
    some bytes of the buffer had arrived. *)
Definition read_error (c : Conn) : error :=
  match incoming c, closes_with c with
  | _ :: _, io_EOF => io_ErrUnexpectedEOF
  | _, e => e
  end.

(** The connection with [rest] left to read, and with nothing left. *)
Definition advance (rest : list byte) (c : Conn) : Conn :=
  mkConn rest (closes_with c) (sent c) (write_results c) (closed c).

(** The buffer that [requestPiece] fills for piece [i] with the sub-id
    [ut], and the bytes that [WriteTo] writes for it. *)
Definition request_message `{Packages} (ut i : Z) : list byte :=
  [byte_of_Z extended] ++ [byte_of_Z ut]
  ++ bencode_Encode (Map {[ "msg_type" := Int 0; "piece" := Int i ]}).

Definition request_written `{Packages} (ut i : Z) : list byte :=
  PutUint32 (len (request_message ut i) mod 2 ^ 32) ++ request_message ut i.

(** The frames that the loop of [Begin] passes over: one byte other than
    20, or two or more that do not start with 20, 1. *)
Definition skipped (data : list byte) : Prop :=
  match data with
  | [] => False
  | [d0] => d0 ≠ Byte.x14
  | d0 :: d1 :: _ => d0 ≠ Byte.x14 ∨ d1 ≠ Byte.x01
  end.

(** The session with another [metadataSize]. *)
Definition set_metadataSize (z : Z) (m : Meta) : Meta :=
  set_params z (utMetadata m) (pieceCount m) m.

(** [f] runs the same on [g m] as on [m], and leaves [g] of what it leaves
    on [m]. *)
Definition commutes_with (g : Meta → Meta) {A} (f : go A) : Prop :=
  ∀ m, f (g m) = ((f m).1, g (f m).2).

(** The three parts of a 68-byte reply that [HandShake] looks at. *)
Definition reply_view (res : list byte) : list byte * bool * list byte :=
  (take 20 res,
   bool_decide (Z.land (Z_of_byte (default Byte.x00 (res !! 25%nat))) 16 = 16),
   take 20 (drop 28 res)).

(** The verdict of the three checks of [HandShake] on a 68-byte reply. *)
Definition handshake_verdict (pre hash res : list byte) : option error :=
  let '(proto, ext, echoed) := reply_view res in
  if negb (Equal proto (take 20 pre))
  then Some (errors_New "remote peer not supporting bittorrent protocol")
  else if negb ext
  then Some (errors_New "remote peer not supporting extension protocol")
  else if negb (Equal echoed hash)
  then Some (errors_New "invalid bittorrent header response")
  else None.

(** The connection after the writes of [bs], one after the other. *)
Definition write_all (bs : list (list byte)) (c : Conn) : Conn :=
  foldl (λ c b, (conn_Write b c).2) c bs.

(** [kept m m']: [m'] is [m] but for the connection and the table, the
    table has the length it had, and every slot that was filled is filled. *)
Definition kept (m m' : Meta) : Prop :=
  ∃ table c', m' = set_pieces table (set_conn (Some c') m)
    ∧ length table = length (pieces m)
    ∧ ∀ k b, pieces m !! k = Some (Some b) → ∃ b', table !! k = Some (Some b').

(** * Properties *)

(** ** Running the monad *)

Ltac go_unfold :=
  unfold mbind, go_bind, bind, mret, go_ret, ret, get, modify, panic in *.

Lemma bind_run {A B} (c : go A) (k : A → go B) (m : Meta) :
  (c ≫= k) m =
  match c m with
  | (Return a, m') => k a m'
  | (Panic msg, m') => (Panic msg, m')
  | (OutOfFuel, m') => (OutOfFuel, m')
  end.
Proof. reflexivity. Qed.

Lemma bind_Return {A B} (c : go A) (k : A → go B) (m m' : Meta) (a : A) :
  c m = (Return a, m') → (c ≫= k) m = k a m'.
Proof. intros E. rewrite bind_run, E. reflexivity. Qed.

Lemma bind_Panic {A B} (c : go A) (k : A → go B) (m m' : Meta) msg :
  c m = (Panic msg, m') → (c ≫= k) m = (Panic msg, m').
Proof. intros E. rewrite bind_run, E. reflexivity. Qed.

Lemma len_nonneg {A} (l : list A) : 0 ≤ len l.
Proof. unfold len. lia. Qed.

Lemma len_replicate {A} (n : Z) (x : A) : 0 ≤ n → len (replicate (Z.to_nat n) x) = n.
Proof. intros. unfold len. rewrite length_replicate. lia. Qed.

(** ** The extension handshake reply *)

Section onExtHandshake_facts.
Context `{Packages}.

(** The piece count that [onExtHandshake] derives from a size. *)
Lemma pieceCount_ceil (size : Z) :
  0 ≤ size →
  let count := if bool_decide (Z.rem size perBlock ≠ 0)
               then Z.quot size perBlock + 1 else Z.quot size perBlock in
  count = (size + (perBlock - 1)) / perBlock
  ∧ perBlock * (count - 1) < size ≤ perBlock * count
  ∧ 0 ≤ count.
Proof.
  intros Hs. unfold perBlock. cbv zeta. change (16384 - 1) with 16383.
  rewrite Z.rem_mod_nonneg, Z.quot_div_nonneg by lia.
  pose proof (Z.div_mod size 16384 ltac:(lia)) as Hdm.
  pose proof (Z.mod_pos_bound size 16384 ltac:(lia)) as Hb.
  case_bool_decide as Hr.
  - assert ((size + 16383) / 16384 = size / 16384 + 1) as ->.
    { symmetry. apply Z.div_unique with (r := size mod 16384 - 1); lia. }
    lia.
  - assert ((size + 16383) / 16384 = size / 16384) as ->.
    { symmetry. apply Z.div_unique with (r := 16383); lia. }
    lia.
Qed.

(** What an accepted reply looks like and what it leaves in the session. *)
Lemma onExtHandshake_accept (payload : list byte) (m m' : Meta) :
  onExtHandshake payload m = (Return None, m') →
  ∃ dict d size ut,
    bencode_Decode payload = Some (dict, None)
    ∧ dict !! "metadata_size" = Some (Int64 size)
    ∧ 0 ≤ size ≤ maxMetadataSize
    ∧ dict !! "m" = Some (Map d)
    ∧ d !! "ut_metadata" = Some (Int64 ut)
    ∧ let count := if bool_decide (Z.rem size perBlock ≠ 0)
                   then Z.quot size perBlock + 1 else Z.quot size perBlock in
      m' = set_pieces (replicate (Z.to_nat count) None)
             (set_params size ut count m).
Proof.
  unfold onExtHandshake. destruct (bencode_Decode payload) as [[dict [e|]]|] eqn:ED.
  1,3: go_unfold; intros [=].
  destruct (dict !! "metadata_size") as [[]|] eqn:E1; cbn; go_unfold; try (intros [=]; fail).
  destruct (maxMetadataSize <? z) eqn:E2; [intros [=]|].
  destruct (z <? 0) eqn:E3; [intros [=]|].
  destruct (dict !! "m") as [[]|] eqn:E4; cbn; try (intros [=]; fail).
  destruct (d !! "ut_metadata") as [[]|] eqn:E5; cbn; try (intros [=]; fail).
  intros [= <-]. exists dict, d, z, z0.
  repeat split; try done; lia.
Qed.

(** The count as a division with a correction, for a size that is not
    negative. *)
Lemma pieceCount_div (size : Z) :
  0 ≤ size →
  (if bool_decide (Z.rem size perBlock ≠ 0)
   then Z.quot size perBlock + 1 else Z.quot size perBlock)
  = size / perBlock + (if bool_decide (size mod perBlock = 0) then 0 else 1).
Proof.
  intros Hs. rewrite Z.rem_mod_nonneg, Z.quot_div_nonneg by (unfold perBlock; lia).
  repeat case_bool_decide; lia.
Qed.

End onExtHandshake_facts.

(** C4. A reply that announces a [metadata_size] in [0, maxMetadataSize],
    with the map [m] and its [ut_metadata], is accepted and leaves in the
    session that size, the piece count equal to the size divided by 16384
    plus one iff the remainder is not zero, which is the ceiling of
    size / 16384, and an assembly of exactly that many empty slots.  Every
    reply that [onExtHandshake] accepts is such a reply: the size recorded
    is the size announced. *)
Theorem C4_pieceCount_is_ceiling `{Packages} (payload : list byte) (m : Meta) :
  (∀ dict d z u,
      bencode_Decode payload = Some (dict, None) →
      dict !! "metadata_size" = Some (Int64 z) → 0 ≤ z ≤ maxMetadataSize →
      dict !! "m" = Some (Map d) → d !! "ut_metadata" = Some (Int64 u) →
      let count := z / perBlock + (if bool_decide (z mod perBlock = 0) then 0 else 1) in
      count = (z + (perBlock - 1)) / perBlock
      ∧ perBlock * (count - 1) < z ≤ perBlock * count
      ∧ onExtHandshake payload m
        = (Return None,
           set_pieces (replicate (Z.to_nat count) None) (set_params z u count m)))
  ∧ (∀ m', onExtHandshake payload m = (Return None, m') →
       ∃ dict z,
         bencode_Decode payload = Some (dict, None)
         ∧ dict !! "metadata_size" = Some (Int64 z)
         ∧ 0 ≤ z ≤ maxMetadataSize
         ∧ metadataSize m' = z
         ∧ pieceCount m'
           = z / perBlock + (if bool_decide (z mod perBlock = 0) then 0 else 1)
         ∧ pieceCount m' = (z + (perBlock - 1)) / perBlock
         ∧ perBlock * (pieceCount m' - 1) < z ≤ perBlock * pieceCount m'
         ∧ pieces m' = replicate (Z.to_nat (pieceCount m')) None
         ∧ len (pieces m') = pieceCount m').
Proof.
  assert (∀ m', onExtHandshake payload m = (Return None, m') →
            ∃ dict d z u,
              bencode_Decode payload = Some (dict, None)
              ∧ dict !! "metadata_size" = Some (Int64 z)
              ∧ 0 ≤ z ≤ maxMetadataSize
              ∧ dict !! "m" = Some (Map d)
              ∧ d !! "ut_metadata" = Some (Int64 u)
              ∧ let count := z / perBlock
                             + (if bool_decide (z mod perBlock = 0) then 0 else 1) in
                count = (z + (perBlock - 1)) / perBlock
                ∧ perBlock * (count - 1) < z ≤ perBlock * count
                ∧ 0 ≤ count
                ∧ m' = set_pieces (replicate (Z.to_nat count) None)
                         (set_params z u count m)) as Hshape.
  { intros m' Hrun.
    destruct (onExtHandshake_accept _ _ _ Hrun)
      as (dict & d & z & u & Hd & Hz & Hr & Hm & Hu & Hm').
    cbv zeta in Hm'. rewrite (pieceCount_div z (proj1 Hr)) in Hm'.
    destruct (pieceCount_ceil z (proj1 Hr)) as (Hc & Hb & Hn).
    cbv zeta in Hc, Hb, Hn. rewrite (pieceCount_div z (proj1 Hr)) in Hc, Hb, Hn.
    exists dict, d, z, u. cbv zeta. do 5 (split; [done|]).
    split; [exact Hc|]. split; [exact Hb|]. split; [exact Hn|exact Hm']. }
  split.
  - intros dict d z u Hd Hz Hr Hm Hu count.
    destruct (pieceCount_ceil z (proj1 Hr)) as (Hc & Hb & _).
    cbv zeta in Hc, Hb. rewrite (pieceCount_div z (proj1 Hr)) in Hc, Hb.
    split; [exact Hc|]. split; [exact Hb|].
    unfold onExtHandshake. rewrite Hd, Hz. cbn [assert_int64 negb].
    assert ((maxMetadataSize <? z) = false) as -> by (apply Z.ltb_ge; lia).
    assert ((z <? 0) = false) as -> by (apply Z.ltb_ge; lia).
    rewrite Hm. cbn [assert_map negb]. rewrite Hu. cbn [assert_int64 negb]. cbv zeta.
    rewrite (pieceCount_div z (proj1 Hr)). reflexivity.
  - intros m' Hrun.
    destruct (Hshape m' Hrun)
      as (dict & d & z & u & Hd & Hz & Hr & _ & _ & Hc & Hb & Hn & ->).
    cbv zeta in Hc, Hb, Hn.
    exists dict, z. cbn [metadataSize pieceCount pieces set_pieces set_params].
    do 4 (split; [done|]). split; [done|]. split; [exact Hc|]. split; [exact Hb|].
    split; [done|]. by apply len_replicate.
Qed.

Lemma C4_pieceCount_is_ceiling_witness :
  onExtHandshake (Demo.ext_dict 32868) Demo.session
  = (Return None,
     set_pieces [None; None; None] (set_params 32868 3 3 Demo.session)).
Proof.
  destruct (C4_pieceCount_is_ceiling (Demo.ext_dict 32868) Demo.session) as [Hok _].
  destruct (Hok (Demo.dict_of (Demo.ext_dict 32868)) {[ "ut_metadata" := Int64 3 ]}
              32868 3) as (_ & _ & Hrun).
  - vm_compute. reflexivity.
  - vm_compute. reflexivity.
  - vm_compute. split; discriminate.
  - vm_compute. reflexivity.
  - vm_compute. reflexivity.
  - exact Hrun.
Defined.

(** ** Searching and slicing *)

Lemma HasPrefix_length (s sep : list byte) :
  HasPrefix s sep = true → (length sep ≤ length s)%nat.
Proof.
  revert s. induction sep as [|c sep IH]; intros [|x s]; cbn; try lia; try done.
  intros [_ Hp]%andb_prop. specialize (IH _ Hp). lia.
Qed.

Lemma Index_bound (s sep : list byte) :
  Index s sep = -1 ∨ (0 ≤ Index s sep ∧ Index s sep + len sep ≤ len s).
Proof.
  unfold len. induction s as [|x s IH].
  - destruct sep; cbn; [right; lia|by left].
  - cbn [Index]. destruct (HasPrefix (x :: s) sep) eqn:Hp.
    + right. apply HasPrefix_length in Hp. lia.
    + cbv zeta. destruct (Index s sep <? 0) eqn:Hneg; [by left|].
      right. cbn [length]. lia.
Qed.

Lemma slice_to_run {A} (s : list A) (n : Z) (m : Meta) :
  0 ≤ n ≤ len s → slice_to s n m = (Return (take (Z.to_nat n) s), m).
Proof.
  intros Hn. unfold slice_to.
  destruct (n <? 0) eqn:E1; [lia|]. destruct (len s <? n) eqn:E2; [lia|]. done.
Qed.

Lemma slice_from_run {A} (s : list A) (n : Z) (m : Meta) :
  0 ≤ n ≤ len s → slice_from s n m = (Return (drop (Z.to_nat n) s), m).
Proof.
  intros Hn. unfold slice_from.
  destruct (n <? 0) eqn:E1; [lia|]. destruct (len s <? n) eqn:E2; [lia|]. done.
Qed.

Lemma index_run {A} (s : list A) (i : Z) (x : A) (m : Meta) :
  0 ≤ i → s !! Z.to_nat i = Some x → index s i m = (Return x, m).
Proof.
  intros Hi Hx. unfold index. destruct (i <? 0) eqn:E; [lia|]. by rewrite Hx.
Qed.

Lemma index_negative {A} (s : list A) (i : Z) (m : Meta) :
  i < 0 → index s i m = (Panic out_of_range, m).
Proof. intros Hi. unfold index. destruct (i <? 0) eqn:E; [done|lia]. Qed.

Lemma index_beyond {A} (s : list A) (i : Z) (m : Meta) :
  len s ≤ i → index s i m = (Panic out_of_range, m).
Proof.
  intros Hi. unfold index, len in *. destruct (i <? 0) eqn:E; [done|].
  rewrite lookup_ge_None_2 by lia. done.
Qed.

(** ** One piece reply *)

Section readOnePiece_facts.
Context `{Packages}.

(** A payload that carries the reply dictionary of piece [k] and then
    [body]: the dictionary ends at the first "ee", has [msg_type] 1 and
    [piece] [k]. *)
Lemma readOnePiece_store (payload body : list byte) (k : Z) (m : Meta) :
  piece_reply_of payload k body →
  0 ≤ k < pieceCount m → k < len (pieces m) →
  readOnePiece payload m
  = (Return None, set_pieces (<[Z.to_nat k := Some body]> (pieces m)) m).
Proof.
  intros (Hi & dict & Hd & Hp & Ht & ->) Hk Hl.
  unfold readOnePiece.
  destruct (Index_bound payload (bytes_of_string "ee")) as [?|[Hi0 Hi2]]; [done|].
  change (len (bytes_of_string "ee")) with 2 in Hi2.
  case_bool_decide; [lia|].
  rewrite bind_run, slice_to_run by lia. rewrite Hd.
  rewrite bind_run. cbn [get]. unfold get. rewrite Hp. cbn [assert_int64].
  destruct (pieceCount m <=? k) eqn:E; [lia|]. cbn [negb orb].
  rewrite Ht. cbn [assert_int64 negb orb].
  case_bool_decide; [done|].
  rewrite bind_run, slice_from_run by lia.
  destruct (lookup_lt_is_Some_2 (pieces m) (Z.to_nat k)) as [x Hx]; [unfold len in Hl; lia|].
  rewrite bind_run, (index_run _ _ x) by (done || lia).
  reflexivity.
Qed.

(** The reply of C2's failing input: every check passes for a negative
    index below the piece count, and the store panics. *)
Lemma readOnePiece_negative_index (payload body : list byte) (k : Z) (m : Meta) :
  piece_reply_of payload k body →
  k < 0 → k < pieceCount m →
  readOnePiece payload m = (Panic out_of_range, m).
Proof.
  intros (Hi & dict & Hd & Hp & Ht & ->) Hk Hl.
  unfold readOnePiece.
  destruct (Index_bound payload (bytes_of_string "ee")) as [?|[Hi0 Hi2]]; [done|].
  change (len (bytes_of_string "ee")) with 2 in Hi2.
  case_bool_decide; [lia|].
  rewrite bind_run, slice_to_run by lia. rewrite Hd.
  rewrite bind_run. unfold get. rewrite Hp. cbn [assert_int64].
  destruct (pieceCount m <=? k) eqn:E; [lia|]. cbn [negb orb].
  rewrite Ht. cbn [assert_int64 negb orb].
  case_bool_decide; [done|].
  rewrite bind_run, slice_from_run by lia.
  rewrite bind_run, index_negative by done. reflexivity.
Qed.

(** Whatever the payload, [readOnePiece] either stores one slot inside the
    table, for an index below the piece count taken from a dictionary with
    [msg_type] 1, or leaves the session as it was. *)
Lemma readOnePiece_cases (payload : list byte) (m m' : Meta) (o : outcome (option error)) :
  readOnePiece payload m = (o, m') →
  (o = Return None
   ∧ ∃ k body, piece_reply_of payload k body
       ∧ 0 ≤ k < pieceCount m ∧ k < len (pieces m)
       ∧ m' = set_pieces (<[Z.to_nat k := Some body]> (pieces m)) m)
  ∨ (m' = m ∧ ((∃ e, o = Return (Some e)) ∨ ∃ msg, o = Panic msg)).
Proof.
  unfold readOnePiece.
  case_bool_decide as Ht.
  { intros [= <- <-]. right. eauto. }
  rewrite bind_run. unfold slice_to.
  destruct ((_ <? 0) || _) eqn:Hs.
  { intros [= <- <-]. right. eauto. }
  cbn [mret go_ret ret].
  apply orb_false_elim in Hs as [Hs1 Hs2].
  destruct (bencode_Decode _) as [[dict [e|]]|] eqn:Hd.
  1,3: by (intros [= <- <-]; right; eauto).
  rewrite bind_run. unfold get.
  destruct (assert_int64 (dict !! "piece")) as [k ok] eqn:Hp.
  destruct (negb ok || _) eqn:Hk.
  { intros [= <- <-]. right. eauto. }
  destruct (assert_int64 (dict !! "msg_type")) as [t ok'] eqn:Hm.
  destruct (negb ok' || _) eqn:Hty.
  { intros [= <- <-]. right. eauto. }
  apply orb_false_elim in Hk as [Hok Hk]. apply orb_false_elim in Hty as [Hok' Hty].
  destruct ok; [|done]. destruct ok'; [|done].
  apply bool_decide_eq_false in Hty. apply dec_stable in Hty. subst t.
  rewrite bind_run. unfold slice_from. rewrite Hs1, Hs2. cbn [orb mret go_ret ret].
  rewrite bind_run. unfold index.
  destruct (k <? 0) eqn:Hneg.
  { intros [= <- <-]. right. eauto. }
  destruct (pieces m !! Z.to_nat k) as [x|] eqn:Hx.
  2:{ intros [= <- <-]. right. eauto. }
  cbn. intros [= <- <-]. left. split; [done|].
  apply lookup_lt_Some in Hx.
  eexists k, _. split; [|split; [lia|split; [unfold len; lia|done]]].
  split; [lia|]. exists dict. split; [done|].
  unfold assert_int64 in Hp, Hm.
  repeat case_match; simplify_eq; done.
Qed.

End readOnePiece_facts.

(** C2 (failing input). A reply with [msg_type] 1 and [piece] -1, sent to
    a session with one piece, passes both checks of [readOnePiece] and
    panics at the store: it is not rejected with an error. *)
Theorem C2_negative_index_panics :
  let m := (onExtHandshake (Demo.ext_dict 14) Demo.session).2 in
  pieceCount m = 1
  ∧ pieces m = [None]
  ∧ readOnePiece (Demo.piece_dict 1 (-1) ++ Demo.metadata) m = (Panic out_of_range, m).
Proof.
  vm_compute. repeat split.
Qed.

(** ** The connection *)

Lemma set_conn_id (m : Meta) (c : option Conn) : conn m = c → set_conn c m = m.
Proof. intros <-. by destruct m. Qed.

Lemma on_conn_run {A} (f : Conn → A * Conn) (m : Meta) (c : Conn) :
  conn m = Some c → on_conn f m = (Return (f c).1, set_conn (Some (f c).2) m).
Proof. intros Hc. unfold on_conn. rewrite Hc. by destruct (f c). Qed.

Lemma on_conn_nil {A} (f : Conn → A * Conn) (m : Meta) :
  conn m = None → on_conn f m = (Panic nil_deref, m).
Proof. intros Hc. unfold on_conn. by rewrite Hc. Qed.

Lemma conn_Write_reads (b : list byte) (c : Conn) :
  incoming (conn_Write b c).2 = incoming c
  ∧ closes_with (conn_Write b c).2 = closes_with c
  ∧ closed (conn_Write b c).2 = closed c.
Proof. unfold conn_Write. by repeat case_match. Qed.

Lemma conn_Write_sent (b : list byte) (c : Conn) :
  ((conn_Write b c).1 = None ∧ sent (conn_Write b c).2 = sent c ++ [b])
  ∨ ((conn_Write b c).1 ≠ None ∧ sent (conn_Write b c).2 = sent c).
Proof. unfold conn_Write. repeat case_match; cbn; auto. Qed.

Lemma ReadFull_ok (n : Z) (c : Conn) :
  0 < n ≤ len (incoming c) →
  ReadFull n c
  = ((n, take (Z.to_nat n) (incoming c), None),
     mkConn (drop (Z.to_nat n) (incoming c)) (closes_with c) (sent c)
            (write_results c) (closed c)).
Proof.
  intros Hn. unfold ReadFull.
  destruct (n <=? 0) eqn:E1; [lia|]. destruct (n <=? len (incoming c)) eqn:E2; [done|lia].
Qed.

(** A read changes nothing but the bytes to come, which it shortens by the
    size of the buffer when it succeeds. *)
Lemma ReadFull_effect (n : Z) (c : Conn) :
  let c' := (ReadFull n c).2 in
  closes_with c' = closes_with c ∧ sent c' = sent c
  ∧ write_results c' = write_results c ∧ closed c' = closed c
  ∧ (length (incoming c') ≤ length (incoming c))%nat
  ∧ ((ReadFull n c).1.2 = None →
     0 < n → len (incoming c') + n = len (incoming c)
             ∧ len (ReadFull n c).1.1.2 = n).
Proof.
  cbv zeta. unfold ReadFull, len.
  destruct (n <=? 0) eqn:E1; [cbn; repeat split; (done || lia)|].
  destruct (n <=? Z.of_nat _) eqn:E2;
    cbn [fst snd incoming closes_with sent write_results closed].
  - rewrite length_drop, length_take. repeat split; (done || lia).
  - repeat split; (done || cbn [length]; lia).
Qed.

(** ** The base handshake *)

(** C7. On a 68-byte reply [HandShake] checks the first 20 bytes against
    the local header, then bit 0x10 of byte 25, then bytes 28 to 47 against
    the info hash, in this order; the first check that fails decides the
    error, and the three errors differ. *)
Theorem C7_HandShake_checks_in_order (m : Meta) (c : Conn) (res rest : list byte) :
  conn m = Some c →
  incoming c = res ++ rest →
  length res = 68%nat →
  (20 ≤ length (preHeader m))%nat →
  let proto := take 20 res = take 20 (preHeader m) in
  let ext := Z.land (Z_of_byte (default Byte.x00 (res !! 25%nat))) 16 = 16 in
  let hash := take 20 (drop 28 res) = infoHash m in
  let e_proto := errors_New "remote peer not supporting bittorrent protocol" in
  let e_ext := errors_New "remote peer not supporting extension protocol" in
  let e_hash := errors_New "invalid bittorrent header response" in
  (¬ proto → (HandShake m).1 = Return (Some e_proto))
  ∧ (proto → ¬ ext → (HandShake m).1 = Return (Some e_ext))
  ∧ (proto → ext → ¬ hash → (HandShake m).1 = Return (Some e_hash))
  ∧ (proto → ext → hash → (HandShake m).1 = Return None)
  ∧ e_proto ≠ e_ext ∧ e_ext ≠ e_hash ∧ e_proto ≠ e_hash.
Proof.
  intros Hc Hin Hlen Hpre. cbv zeta.
  set (c1 := (conn_Write (preHeader m ++ infoHash m ++ bytes_of_string (peerId m)) c).2).
  assert (incoming c1 = res ++ rest) as Hin1.
  { unfold c1. by rewrite (proj1 (conn_Write_reads _ _)). }
  assert (0 < 68 ≤ len (incoming c1)) as Hn.
  { rewrite Hin1. unfold len. rewrite length_app. lia. }
  assert (take (Z.to_nat 68) (incoming c1) = res) as Hres.
  { rewrite Hin1. change (Z.to_nat 68) with 68%nat. rewrite <- Hlen. apply take_app_length. }
  destruct (lookup_lt_is_Some_2 res 25) as [r25 H25]; [lia|].
  assert (∀ k : outcome (option error),
            (HandShake m).1 = k ↔
            (if negb (Equal (take 20 res) (take 20 (preHeader m)))
             then Return (Some (errors_New "remote peer not supporting bittorrent protocol"))
             else if bool_decide (Z.land (Z_of_byte r25) 16 ≠ 16)
             then Return (Some (errors_New "remote peer not supporting extension protocol"))
             else if negb (Equal (take 20 (drop 28 res)) (infoHash m))
             then Return (Some (errors_New "invalid bittorrent header response"))
             else Return None) = k) as Hrun.
  { intros k. unfold HandShake. rewrite bind_run. unfold get.
    rewrite bind_run, (on_conn_run _ _ c Hc). fold c1. cbn [snd].
    unfold HandShake_read. rewrite bind_run. unfold get.
    rewrite bind_run, (on_conn_run _ _ c1) by done.
    rewrite (ReadFull_ok _ _ Hn), Hres. cbn [fst snd preHeader infoHash set_conn].
    case_bool_decide; [done|].
    rewrite bind_run, slice_to_run by (unfold len; lia).
    rewrite bind_run, slice_to_run by (unfold len; lia).
    change (Z.to_nat 20) with 20%nat.
    destruct (negb (Equal (take 20 res) _)); [done|].
    rewrite bind_run, (index_run _ _ r25) by (done || lia).
    case_bool_decide; [done|].
    rewrite bind_run. unfold slice.
    destruct ((28 <? 0) || (48 <? 28) || (len res <? 48)) eqn:E.
    { unfold len in E. rewrite Hlen in E. done. }
    cbn [mret go_ret ret]. change (Z.to_nat (48 - 28)) with 20%nat.
    change (Z.to_nat 28) with 28%nat.
    by destruct (negb (Equal _ (infoHash m))). }
  rewrite H25. cbn [default]. unfold Equal in Hrun.
  repeat split; try done.
  - intros Hp. apply Hrun. rewrite bool_decide_eq_false_2; done.
  - intros Hp He. apply Hrun. rewrite bool_decide_eq_true_2 by done. cbn [negb].
    rewrite bool_decide_eq_true_2; done.
  - intros Hp He Hh. apply Hrun. rewrite bool_decide_eq_true_2 by done. cbn [negb].
    rewrite bool_decide_eq_false_2 by (intros ?; done).
    rewrite bool_decide_eq_false_2; done.
  - intros Hp He Hh. apply Hrun. rewrite bool_decide_eq_true_2 by done. cbn [negb].
    rewrite bool_decide_eq_false_2 by (intros ?; done).
    rewrite bool_decide_eq_true_2; done.
Qed.

Lemma C7_HandShake_checks_in_order_witness :
  (HandShake (set_conn (Some (Demo.peer Demo.handshake_reply)) Demo.session)).1
  = Return None.
Proof.
  destruct (C7_HandShake_checks_in_order
              (set_conn (Some (Demo.peer Demo.handshake_reply)) Demo.session)
              (Demo.peer Demo.handshake_reply) Demo.handshake_reply [])
    as (_ & _ & _ & Hok & _).
  - reflexivity.
  - vm_compute. reflexivity.
  - vm_compute. reflexivity.
  - vm_compute. lia.
  - apply Hok; vm_compute; reflexivity.
Defined.

(** A reply without the extension bit, and one for another torrent. *)
Example HandShake_no_extension_bit :
  let reply := MakePreHeader ++ Demo.hash ++ bytes_of_string "-PEER01-abcdefghijkl" in
  let plain := <[25%nat := Byte.x00]> reply in
  let other := take 28 plain ++ replicate 20 Byte.x00 ++ drop 48 plain in
  (HandShake (set_conn (Some (Demo.peer plain)) Demo.session)).1
  = Return (Some (errors_New "remote peer not supporting extension protocol"))
  ∧ (HandShake (set_conn (Some (Demo.peer other)) Demo.session)).1
    = Return (Some (errors_New "remote peer not supporting extension protocol"))
  ∧ (HandShake (set_conn (Some (Demo.peer (take 28 reply ++ drop 28 other))) Demo.session)).1
    = Return (Some (errors_New "invalid bittorrent header response")).
Proof. vm_compute. repeat split. Qed.

(** ** The extension handshake *)

Section extension_handshake.
Context `{Packages}.

(** The verdict of [onExtHandshake] on a decoded dictionary, field by
    field. *)
Lemma onExtHandshake_verdict (payload : list byte) (dict : gmap string any) (m : Meta) :
  bencode_Decode payload = Some (dict, None) →
  ((∀ z, dict !! "metadata_size" ≠ Some (Int64 z)) →
     onExtHandshake payload m = (Return (Some e_size), m))
  ∧ (∀ z, dict !! "metadata_size" = Some (Int64 z) → maxMetadataSize < z →
     onExtHandshake payload m = (Return (Some e_long), m))
  ∧ (∀ z, dict !! "metadata_size" = Some (Int64 z) → z < 0 →
     onExtHandshake payload m = (Return (Some e_negative), m))
  ∧ (∀ z, dict !! "metadata_size" = Some (Int64 z) → 0 ≤ z ≤ maxMetadataSize →
     (∀ d, dict !! "m" ≠ Some (Map d)) →
     onExtHandshake payload m = (Return (Some e_map), m))
  ∧ (∀ z d, dict !! "metadata_size" = Some (Int64 z) → 0 ≤ z ≤ maxMetadataSize →
     dict !! "m" = Some (Map d) → (∀ u, d !! "ut_metadata" ≠ Some (Int64 u)) →
     onExtHandshake payload m = (Return (Some e_ut), m))
  ∧ (∀ z d u, dict !! "metadata_size" = Some (Int64 z) → 0 ≤ z ≤ maxMetadataSize →
     dict !! "m" = Some (Map d) → d !! "ut_metadata" = Some (Int64 u) →
     ∃ m', onExtHandshake payload m = (Return None, m')
           ∧ metadataSize m' = z ∧ utMetadata m' = u).
Proof.
  intros Hd. unfold onExtHandshake. rewrite Hd.
  assert (∀ z, dict !! "metadata_size" = Some (Int64 z) → 0 ≤ z ≤ maxMetadataSize →
          (maxMetadataSize <? z) = false ∧ (z <? 0) = false) as Hrange
    by (intros z _ Hz; split; apply Z.ltb_ge; lia).
  repeat split.
  - intros Hno. destruct (dict !! "metadata_size") as [[]|]; try done. by destruct (Hno z).
  - intros z -> Hz. cbn. destruct (maxMetadataSize <? z) eqn:E; [done|lia].
  - intros z -> Hz. cbn. destruct (maxMetadataSize <? z) eqn:E;
      [unfold maxMetadataSize, perBlock in E; lia|].
    destruct (z <? 0) eqn:E'; [done|lia].
  - intros z Hz Hr Hno. rewrite Hz. cbn [assert_int64 negb].
    destruct (Hrange _ Hz Hr) as [-> ->].
    destruct (dict !! "m") as [[]|]; try done. by destruct (Hno d).
  - intros z d Hz Hr Hm Hno. rewrite Hz. cbn [assert_int64 negb].
    destruct (Hrange _ Hz Hr) as [-> ->]. rewrite Hm. cbn [assert_map negb].
    destruct (d !! "ut_metadata") as [[]|]; try done. by destruct (Hno z0).
  - intros z d u Hz Hr Hm Hu. rewrite Hz. cbn [assert_int64 negb].
    destruct (Hrange _ Hz Hr) as [-> ->]. rewrite Hm. cbn [assert_map negb].
    rewrite Hu. cbn [assert_int64 negb]. eexists. split; [reflexivity|]. done.
Qed.

(** A rejected reply leaves the session as it was. *)
Lemma onExtHandshake_reject (payload : list byte) (m m' : Meta) (e : error) :
  onExtHandshake payload m = (Return (Some e), m') → m' = m.
Proof.
  unfold onExtHandshake. destruct (bencode_Decode payload) as [[dict [e'|]]|].
  1,3: by intros [= _ <-].
  repeat case_match; cbn; go_unfold; by intros [=].
Qed.

Lemma onExtHandshake_conn (payload : list byte) (m m' : Meta) (o : outcome (option error)) :
  onExtHandshake payload m = (o, m') → conn m' = conn m ∧ o ≠ OutOfFuel.
Proof.
  unfold onExtHandshake. destruct (bencode_Decode payload) as [[dict [e'|]]|].
  1,3: by intros [= <- <-].
  repeat case_match; cbn; go_unfold; by intros [= <- <-].
Qed.

Lemma WriteTo_run (data : list byte) (m : Meta) (c : Conn) :
  conn m = Some c →
  let w := conn_Write (PutUint32 (len data mod 2 ^ 32) ++ data) c in
  WriteTo data m = (Return (write_failed <$> w.1), set_conn (Some w.2) m).
Proof.
  intros Hc. cbv zeta. unfold WriteTo. rewrite bind_run, (on_conn_run _ _ c Hc).
  by destruct (conn_Write _ c).1.
Qed.

(** Reading a frame changes the connection only. *)
Lemma ReadN_effect (m : Meta) (c : Conn) :
  conn m = Some c →
  ∃ r c', ReadN m = (Return r, set_conn (Some c') m)
    ∧ closes_with c' = closes_with c ∧ sent c' = sent c
    ∧ write_results c' = write_results c ∧ closed c' = closed c
    ∧ (length (incoming c') ≤ length (incoming c))%nat
    ∧ (r.2 = None → is_Some r.1 ∧ (length (incoming c') + 4 ≤ length (incoming c))%nat).
Proof.
  intros Hc. unfold ReadN. rewrite bind_run, (on_conn_run _ _ c Hc).
  pose proof (ReadFull_effect 4 c) as (E1 & E2 & E3 & E4 & E5 & E6). cbv zeta in *.
  destruct (ReadFull 4 c) as [[[n lenb] [e|]] c1]; cbn [fst snd] in *.
  { exists (None, Some e), c1. cbn. repeat split; try done. }
  rewrite bind_run, (on_conn_run _ _ c1) by done. cbn [set_conn conn].
  pose proof (ReadFull_effect (Uint32 lenb) c1) as (F1 & F2 & F3 & F4 & F5 & F6).
  cbv zeta in *.
  destruct (ReadFull (Uint32 lenb) c1) as [[[n' data] [e|]] c2]; cbn [fst snd] in *.
  - exists (None, Some e), c2. cbn. repeat split; try congruence. lia.
  - exists (Some data, None), c2. cbn. destruct (E6 eq_refl) as [E7 _]; [lia|].
    unfold len in E7. repeat split; try congruence; try done; lia.
Qed.

(** A whole frame at the head of the stream is what [ReadN] returns. *)
Lemma ReadN_frame (m : Meta) (c : Conn) (lenb data rest : list byte) :
  conn m = Some c →
  incoming c = lenb ++ data ++ rest →
  length lenb = 4%nat → Uint32 lenb = len data →
  ReadN m
  = (Return (Some data, None),
     set_conn (Some (mkConn rest (closes_with c) (sent c) (write_results c) (closed c))) m).
Proof.
  intros Hc Hin Hl Hu. unfold ReadN. rewrite bind_run, (on_conn_run _ _ c Hc).
  rewrite ReadFull_ok by (rewrite Hin; unfold len; rewrite length_app; lia).
  cbn [fst snd]. change (Z.to_nat 4) with 4%nat.
  rewrite Hin, <- Hl, take_app_length, drop_app_length.
  rewrite bind_run, (on_conn_run _ _ (mkConn (data ++ rest) _ _ _ _)) by done.
  rewrite Hu. unfold ReadFull. cbn [incoming closes_with sent write_results closed].
  destruct (len data <=? 0) eqn:E.
  { assert (data = []) as -> by (apply nil_length_inv; unfold len in E; lia). done. }
  destruct (len data <=? len (data ++ rest)) eqn:E'.
  2:{ exfalso. unfold len in E'. rewrite length_app in E'. apply Z.leb_gt in E'. lia. }
  unfold len. rewrite Nat2Z.id, take_app_length, drop_app_length. done.
Qed.

End extension_handshake.

Lemma sublist_one_two {A} (l : list A) (a b : A) : sublist l [a] → sublist l [a; b].
Proof.
  intros Hl. change [a; b] with ([a] ++ [b]). by apply sublist_inserts_r.
Qed.

Section session.
Context `{Packages}.

Lemma HandShake_effect (m : Meta) (c : Conn) :
  conn m = Some c →
  ∃ o c', HandShake m = (o, set_conn (Some c') m)
    ∧ o ≠ OutOfFuel
    ∧ (sent c' = sent c ∨ sent c' = sent c ++ [handshake_bytes m]).
Proof.
  intros Hc. unfold HandShake. rewrite bind_run. unfold get.
  rewrite bind_run, (on_conn_run _ _ c Hc).
  fold (handshake_bytes m).
  set (c1 := (conn_Write (handshake_bytes m) c).2). cbn [snd].
  unfold HandShake_read. rewrite bind_run. unfold get.
  rewrite bind_run, (on_conn_run _ _ c1) by done.
  pose proof (ReadFull_effect 68 c1) as (_ & E2 & _). cbv zeta in E2.
  assert (sent (ReadFull 68 c1).2 = sent c ∨ sent (ReadFull 68 c1).2 = sent c ++ [handshake_bytes m])
    as Hs.
  { rewrite E2. unfold c1. destruct (conn_Write_sent (handshake_bytes m) c) as [[_ ->]|[_ ->]]; auto. }
  destruct (ReadFull 68 c1) as [[[n res] err] c2]. cbn [fst snd set_conn conn] in *.
  unfold slice_to, index, slice. go_unfold.
  repeat case_match; simplify_eq; eexists _, c2; (split; [reflexivity|]); split; done.
Qed.

Lemma extHandShake_effect (m : Meta) (c : Conn) :
  conn m = Some c →
  ∃ o m' c', extHandShake m = (o, m')
    ∧ conn m' = Some c'
    ∧ o ≠ OutOfFuel
    ∧ (sent c' = sent c ∨ sent c' = sent c ++ [ext_written]).
Proof.
  intros Hc. unfold extHandShake. fold ext_message.
  rewrite bind_run, (WriteTo_run _ _ c Hc). cbv zeta.
  fold ext_written.
  destruct (conn_Write_sent ext_written c) as [[Hw Hs]|[Hw Hs]].
  2:{ destruct (conn_Write ext_written c).1 as [e|]; [|done]. cbn.
      eexists _, _, _. split; [reflexivity|]. cbn. repeat split; auto. }
  rewrite Hw. cbv beta iota delta [fmap option_fmap option_map].
  set (c1 := (conn_Write ext_written c).2) in *.
  rewrite bind_run.
  destruct (ReadN_effect (set_conn (Some c1) m) c1 eq_refl)
    as (r & c2 & -> & _ & Hs2 & _).
  cbn [set_conn conn].
  assert (sent c2 = sent c ++ [ext_written]) as Hsent by congruence.
  destruct r as [data [e|]].
  { eexists _, _, c2. split; [reflexivity|]. repeat split; auto. }
  unfold index, slice_from. go_unfold.
  repeat case_match; simplify_eq;
    try (eexists _, _, c2; split; [reflexivity|]; repeat split; auto; fail).
  all: match goal with
       | |- context [onExtHandshake ?p ?m0] =>
           destruct (onExtHandshake p m0) as [o m'] eqn:Hon;
           apply onExtHandshake_conn in Hon as [Hcm Ho]
       end.
  all: eexists o, m', c2; split; [reflexivity|]; repeat split; auto.
Qed.

(** [Connect] on a dialled connection: the connection stays in place, the
    only writes are the 68 bytes of the base handshake and the extension
    handshake frame, and the result is never out of fuel. *)
Lemma Connect_effect (c : Conn) (m m1 : Meta) (o : outcome (option error)) :
  Connect (inl c) m = (o, m1) →
  o ≠ OutOfFuel
  ∧ ∃ c1 l, conn m1 = Some c1 ∧ sent c1 = sent c ++ l
      ∧ sublist l [handshake_bytes m; ext_written].
Proof.
  unfold Connect. rewrite bind_run. unfold modify.
  rewrite bind_run. unfold SetDeadLine. rewrite (on_conn_run _ _ c) by done.
  cbn [fst snd]. rewrite bind_run.
  destruct (HandShake_effect (set_conn (Some c) (set_conn (Some c) m)) c eq_refl)
    as (o1 & c1 & -> & Ho1 & Hs1).
  cbn [set_conn conn addr infoHash infoHashHex timeout peerId preHeader metadataSize
         utMetadata pieceCount pieces] in *.
  change (handshake_bytes _) with (handshake_bytes m) in Hs1.
  assert (∃ l, sent c1 = sent c ++ l ∧ sublist l [handshake_bytes m]) as (l1 & Hl1 & Hsub1).
  { destruct Hs1 as [->| ->].
    - exists []. rewrite app_nil_r. split; [done|]. apply sublist_nil_l.
    - eexists. split; [done|]. done. }
  destruct o1 as [[e|]| |]; [| |..].
  - intros [= <- <-]. split; [done|]. exists c1, l1. repeat split; try done.
    by apply sublist_one_two.
  - destruct (extHandShake_effect (set_conn (Some c1) m) c1 eq_refl)
      as (o2 & m2 & c2 & Hrun & Hc2 & Ho2 & Hs2).
    match goal with |- extHandShake ?m0 = _ → _ => change m0 with (set_conn (Some c1) m) end.
    rewrite Hrun. intros [= <- <-]. split; [done|]. exists c2.
    destruct Hs2 as [Hs2|Hs2]; rewrite Hs2, Hl1.
    + exists l1. repeat split; try done.
      by apply sublist_one_two.
    + exists (l1 ++ [ext_written]). rewrite <- app_assoc. repeat split; try done.
      change [handshake_bytes m; ext_written] with ([handshake_bytes m] ++ [ext_written]).
      by apply sublist_app.
  - intros [= <- <-]. split; [done|]. exists c1, l1. repeat split; try done.
    by apply sublist_one_two.
  - done.
Qed.

(** [Start] does not go beyond [Connect] when [Connect] returns an error:
    it closes the connection and returns. *)
Lemma Start_after_failed_Connect (c : Conn) (m m1 : Meta) (e : error) :
  Connect (inl c) m = (Return (Some e), m1) →
  ∃ c1, conn m1 = Some c1
    ∧ Start (inl c) m = (Return tt, set_conn (Some (conn_Close c1)) m1).
Proof.
  intros Hrun. destruct (Connect_effect _ _ _ _ Hrun) as (_ & c1 & l & Hc1 & _).
  exists c1. split; [done|]. unfold Start. rewrite Hrun, Hc1. cbn. by rewrite Hc1.
Qed.

End session.

Section extension_reply.
Context `{Packages}.

(** [extHandShake] hands the payload of a reply frame that starts with the
    bytes 20 and 0 to [onExtHandshake] and returns what it returns. *)
Lemma extHandShake_reply (m : Meta) (c : Conn) (lenb payload rest : list byte) :
  conn m = Some c →
  (conn_Write ext_written c).1 = None →
  incoming c = lenb ++ (Byte.x14 :: Byte.x00 :: payload) ++ rest →
  length lenb = 4%nat → Uint32 lenb = len payload + 2 →
  extHandShake m
  = onExtHandshake payload
      (set_conn (Some (mkConn rest (closes_with c) (sent c ++ [ext_written])
                              (tail (write_results c)) (closed c))) m).
Proof.
  intros Hc Hw Hin Hl Hu. unfold extHandShake. fold ext_message.
  rewrite bind_run, (WriteTo_run _ _ c Hc). cbv zeta. fold ext_written.
  rewrite Hw. cbv beta iota delta [fmap option_fmap option_map].
  set (c1 := (conn_Write ext_written c).2).
  assert (c1 = mkConn (incoming c) (closes_with c) (sent c ++ [ext_written])
                      (tail (write_results c)) (closed c)) as Hc1.
  { unfold c1. unfold conn_Write in *. repeat case_match; simplify_eq; done. }
  rewrite bind_run.
  rewrite (ReadN_frame _ c1 lenb (Byte.x14 :: Byte.x00 :: payload) rest); try done.
  2:{ by rewrite Hc1. }
  2:{ rewrite Hu. unfold len. cbn [length]. lia. }
  cbn [default from_option id set_conn conn]. rewrite Hc1. cbn [closes_with sent write_results closed].
  rewrite bind_run, (index_run _ _ Byte.x14) by done.
  rewrite bool_decide_eq_false_2 by (intros Hne; by apply Hne).
  rewrite bind_run, (index_run _ _ Byte.x00) by done.
  rewrite bool_decide_eq_false_2 by (intros Hne; by apply Hne).
  rewrite bind_run, slice_from_run by (unfold len; cbn [length]; lia).
  reflexivity.
Qed.

End extension_reply.

(** C6. [onExtHandshake] answers each defective field of the reply with an
    error of its own: [metadata_size] missing or not an integer, above
    16 MiB, negative, [m] missing, [m.ut_metadata] missing or not an
    integer.  Only a reply that passes every check records [metadataSize]
    and [utMetadata]; a rejected one leaves the session untouched.  The
    error is what [extHandShake] and [Connect] return, and [Start] then
    closes the connection without a single piece request: the only writes
    of the session are the base handshake and the extension handshake. *)
Theorem C6_extension_reply_validation `{Packages}
    (payload : list byte) (dict : gmap string any) (m : Meta) :
  bencode_Decode payload = Some (dict, None) →
  ((∀ z, dict !! "metadata_size" ≠ Some (Int64 z)) →
     onExtHandshake payload m = (Return (Some e_size), m))
  ∧ (∀ z, dict !! "metadata_size" = Some (Int64 z) → maxMetadataSize < z →
     onExtHandshake payload m = (Return (Some e_long), m))
  ∧ (∀ z, dict !! "metadata_size" = Some (Int64 z) → z < 0 →
     onExtHandshake payload m = (Return (Some e_negative), m))
  ∧ (∀ z, dict !! "metadata_size" = Some (Int64 z) → 0 ≤ z ≤ maxMetadataSize →
     (∀ d, dict !! "m" ≠ Some (Map d)) →
     onExtHandshake payload m = (Return (Some e_map), m))
  ∧ (∀ z d, dict !! "metadata_size" = Some (Int64 z) → 0 ≤ z ≤ maxMetadataSize →
     dict !! "m" = Some (Map d) → (∀ u, d !! "ut_metadata" ≠ Some (Int64 u)) →
     onExtHandshake payload m = (Return (Some e_ut), m))
  ∧ (∀ z d u, dict !! "metadata_size" = Some (Int64 z) → 0 ≤ z ≤ maxMetadataSize →
     dict !! "m" = Some (Map d) → d !! "ut_metadata" = Some (Int64 u) →
     ∃ m', onExtHandshake payload m = (Return None, m')
           ∧ metadataSize m' = z ∧ utMetadata m' = u)
  ∧ NoDup [e_size; e_long; e_negative; e_map; e_ut]
  ∧ (∀ e m', onExtHandshake payload m = (Return (Some e), m') → m' = m)
  ∧ (∀ c lenb rest,
       conn m = Some c → (conn_Write ext_written c).1 = None →
       incoming c = lenb ++ (Byte.x14 :: Byte.x00 :: payload) ++ rest →
       length lenb = 4%nat → Uint32 lenb = len payload + 2 →
       ∃ m_read, extHandShake m = onExtHandshake payload m_read)
  ∧ (∀ c m0 e m1,
       Connect (inl c) m0 = (Return (Some e), m1) →
       ∃ c1 l, conn m1 = Some c1
         ∧ Start (inl c) m0 = (Return tt, set_conn (Some (conn_Close c1)) m1)
         ∧ sent c1 = sent c ++ l
         ∧ sublist l [handshake_bytes m0; ext_written]).
Proof.
  intros Hd.
  destruct (onExtHandshake_verdict payload dict m Hd) as (V1 & V2 & V3 & V4 & V5 & V6).
  do 6 (split; [assumption|]).
  split; [|split; [|split]].
  - apply (bool_decide_unpack _). by vm_compute.
  - intros e m'. apply onExtHandshake_reject.
  - intros c lenb rest Hc Hw Hin Hl Hu. eexists. by eapply extHandShake_reply.
  - intros c m0 e m1 Hrun.
    destruct (Connect_effect _ _ _ _ Hrun) as (_ & c1 & l & Hc1 & Hs & Hsub).
    destruct (Start_after_failed_Connect _ _ _ _ Hrun) as (c1' & Hc1' & HS).
    simplify_eq. eauto 10.
Qed.

Lemma C6_extension_reply_validation_witness :
  onExtHandshake (Demo.ext_dict (-1)) Demo.session
  = (Return (Some e_negative), Demo.session)
  ∧ ∃ c1, conn (Start (inl (Demo.peer (Demo.handshake_reply ++ Demo.ext_reply (-1))))
                      Demo.session).2 = Some c1
      ∧ sent c1 = [handshake_bytes Demo.session; ext_written].
Proof.
  assert (bencode_Decode (Demo.ext_dict (-1))
          = Some (Demo.dict_of (Demo.ext_dict (-1)), None)) as Hd
    by (vm_compute; reflexivity).
  destruct (C6_extension_reply_validation _ _ Demo.session Hd)
    as (_ & _ & Hneg & _ & _ & _ & _ & _ & _ & HS).
  split.
  - apply (Hneg (-1)); [vm_compute; reflexivity|lia].
  - destruct (HS (Demo.peer (Demo.handshake_reply ++ Demo.ext_reply (-1))) Demo.session
                e_negative
                (Connect (inl (Demo.peer (Demo.handshake_reply ++ Demo.ext_reply (-1))))
                         Demo.session).2)
      as (c1 & l & Hc1 & HStart & Hsent & Hsub).
    { vm_compute. reflexivity. }
    exists (conn_Close c1). rewrite HStart. split; [reflexivity|].
    cbn [conn_Close sent]. revert Hc1. vm_compute. intros [= <-]. reflexivity.
Defined.

(** ** Bytes and numbers *)

Lemma Z_of_byte_range (b : byte) : 0 ≤ Z_of_byte b < 256.
Proof. unfold Z_of_byte. pose proof (Byte.to_N_bounded b). lia. Qed.

Lemma Z_of_byte_inj (a b : byte) : Z_of_byte a = Z_of_byte b → a = b.
Proof.
  unfold Z_of_byte. intros E%N2Z.inj.
  pose proof (Byte.of_to_N a) as Ha. rewrite E, Byte.of_to_N in Ha. congruence.
Qed.

Lemma Z_of_byte_of_Z (z : Z) : Z_of_byte (byte_of_Z z) = z mod 256.
Proof.
  unfold Z_of_byte, byte_of_Z.
  pose proof (Z.mod_pos_bound z 256 ltac:(lia)) as Hb.
  destruct (Byte.of_N (Z.to_N (z mod 256))) as [b|] eqn:E.
  - apply Byte.to_of_N in E. cbn [default from_option id]. rewrite E. lia.
  - apply Byte.of_N_None_iff in E. lia.
Qed.

(** ** The loop of [Begin] *)

Section Begin_facts.
Context `{Packages}.

Lemma Begin_check_run (m : Meta) :
  Begin_check m
  = (Return (if negb (checkDone m) then None
             else if Equal (sha1_Sum (default [] (Join (pieces m)))) (infoHash m)
                  then Some (Join (pieces m), None)
                  else Some (None, Some e_checksum)), m).
Proof.
  unfold Begin_check. rewrite bind_run. unfold get. by repeat case_match.
Qed.

(** What a frame does to the session: nothing, or one stored piece
    followed by the completion check. *)
Lemma Begin_frame_cases (data : list byte) (m m' : Meta)
    (o : outcome (option (option (list byte) * option error))) :
  Begin_frame data m = (o, m') →
  (m' = m
   ∧ (o = Return None ∨ (∃ e, o = Return (Some (None, Some e))) ∨ ∃ msg, o = Panic msg))
  ∨ ∃ payload k body,
      data = Byte.x14 :: Byte.x01 :: payload
      ∧ piece_reply_of payload k body
      ∧ 0 ≤ k < pieceCount m ∧ k < len (pieces m)
      ∧ m' = set_pieces (<[Z.to_nat k := Some body]> (pieces m)) m
      ∧ (o, m') = Begin_check m'.
Proof.
  unfold Begin_frame. rewrite bind_run.
  destruct data as [|d0 data].
  { rewrite index_beyond by done. intros [= <- <-]. left. eauto. }
  rewrite (index_run _ _ d0) by done.
  case_bool_decide as H0; [intros [= <- <-]; left; eauto|].
  rewrite bind_run.
  destruct data as [|d1 data].
  { rewrite index_beyond by done. intros [= <- <-]. left. eauto. }
  rewrite (index_run _ _ d1) by done.
  case_bool_decide as H1; [intros [= <- <-]; left; eauto|].
  assert (d0 = Byte.x14) as -> by (by apply Z_of_byte_inj).
  assert (d1 = Byte.x01) as -> by (by apply Z_of_byte_inj).
  rewrite bind_run, slice_from_run by (unfold len; cbn [length]; lia).
  change (drop (Z.to_nat 2) (Byte.x14 :: Byte.x01 :: data)) with data.
  rewrite bind_run.
  destruct (readOnePiece data m) as [o1 m1] eqn:Hr.
  destruct (readOnePiece_cases _ _ _ _ Hr)
    as [(-> & k & body & Hp & Hk & Hl & ->)|(-> & [[e ->]|[msg ->]])].
  - intros Hc. pose proof Hc as Hc'. rewrite Begin_check_run in Hc'.
    injection Hc' as _ <-.
    right. exists data, k, body. split_and!; (done || lia).
  - intros [= <- <-]. left. eauto.
  - intros [= <- <-]. left. eauto.
Qed.

(** A turn changes the connection by reading, and the piece table by at
    most one store; nothing else. *)
Lemma Begin_turn_cases (m m' : Meta) (c : Conn)
    (o : outcome (option (option (list byte) * option error))) :
  conn m = Some c →
  Begin_turn m = (o, m') →
  ∃ c', conn m' = Some c'
    ∧ closes_with c' = closes_with c ∧ sent c' = sent c
    ∧ write_results c' = write_results c ∧ closed c' = closed c
    ∧ (o = Return None → (length (incoming c') + 4 ≤ length (incoming c))%nat)
    ∧ ((m' = set_conn (Some c') m
        ∧ (o = Return None ∨ (∃ e, o = Return (Some (None, Some e))) ∨ ∃ msg, o = Panic msg))
       ∨ ∃ k body,
           0 ≤ k < pieceCount m ∧ k < len (pieces m)
           ∧ m' = set_pieces (<[Z.to_nat k := Some body]> (pieces m)) (set_conn (Some c') m)
           ∧ (o, m') = Begin_check m').
Proof.
  intros Hc. unfold Begin_turn. rewrite bind_run.
  destruct (ReadN_effect m c Hc) as (r & c' & -> & E1 & E2 & E3 & E4 & E5 & E6).
  destruct r as [data [e|]]; cbn [fst snd] in *.
  { intros [= <- <-]. exists c'. repeat split; try done. left. eauto. }
  destruct (E6 eq_refl) as [_ Hlen].
  intros Hf. apply Begin_frame_cases in Hf
    as [(-> & Ho)|(payload & k & body & _ & _ & Hk & Hl & -> & Hchk)].
  - exists c'. repeat split; try done. left. eauto.
  - cbn [set_conn pieces pieceCount] in *.
    exists c'. split_and!; try done. right. exists k, body. split_and!; (done || lia).
Qed.

End Begin_facts.

(** ** Methods that do not depend on the connection or on the writes *)

Section blind.
Context `{Packages}.

Lemma conn_blind_ret {A} (a : A) : conn_blind (mret a).
Proof. done. Qed.

Lemma conn_blind_panic {A} (msg : string) : conn_blind (panic (A := A) msg).
Proof. done. Qed.

Lemma conn_blind_bind {A B} (f : go A) (k : A → go B) :
  conn_blind f → (∀ a, conn_blind (k a)) → conn_blind (f ≫= k).
Proof.
  intros Hf Hk c m. rewrite !bind_run, Hf. cbn [fst snd].
  destruct (f m) as [[a|msg|] m1]; cbn [fst snd]; [apply Hk|done..].
Qed.

Lemma conn_blind_index {A} (s : list A) (i : Z) : conn_blind (index s i).
Proof. unfold index. case_match; [apply conn_blind_ret|apply conn_blind_panic]. Qed.

Lemma conn_blind_slice_from {A} (s : list A) (n : Z) : conn_blind (slice_from s n).
Proof. unfold slice_from. case_match; [apply conn_blind_panic|apply conn_blind_ret]. Qed.

Lemma conn_blind_slice_to {A} (s : list A) (n : Z) : conn_blind (slice_to s n).
Proof. unfold slice_to. case_match; [apply conn_blind_panic|apply conn_blind_ret]. Qed.

Lemma conn_blind_get_bind {B} (k : Meta → go B) :
  (∀ c m, k (set_conn c m) = k m) → (∀ m0, conn_blind (k m0)) → conn_blind (get ≫= k).
Proof.
  intros Hk Hb c m. rewrite !bind_run. unfold get. rewrite Hk. apply Hb.
Qed.

Lemma conn_blind_readOnePiece (payload : list byte) : conn_blind (readOnePiece payload).
Proof.
  unfold readOnePiece. case_match; [apply conn_blind_ret|].
  apply conn_blind_bind; [apply conn_blind_slice_to|intros head].
  destruct (bencode_Decode head) as [[dict [e|]]|];
    [apply conn_blind_ret| |apply conn_blind_panic].
  apply conn_blind_get_bind; [reflexivity|intros m0].
  destruct (assert_int64 (dict !! "piece")) as [pieceIndex ok].
  case_match; [apply conn_blind_ret|].
  destruct (assert_int64 (dict !! "msg_type")) as [msgType ok'].
  case_match; [apply conn_blind_ret|].
  apply conn_blind_bind; [apply conn_blind_slice_from|intros tail].
  apply conn_blind_bind; [apply conn_blind_index|intros _].
  apply conn_blind_bind; [done|intros _]. apply conn_blind_ret.
Qed.

Lemma conn_blind_Begin_check : conn_blind Begin_check.
Proof. intros c m. by rewrite !Begin_check_run. Qed.

Lemma conn_blind_Begin_frame (data : list byte) : conn_blind (Begin_frame data).
Proof.
  unfold Begin_frame.
  apply conn_blind_bind; [apply conn_blind_index|intros d0].
  case_match; [apply conn_blind_ret|].
  apply conn_blind_bind; [apply conn_blind_index|intros d1].
  case_match; [apply conn_blind_ret|].
  apply conn_blind_bind; [apply conn_blind_slice_from|intros payload].
  apply conn_blind_bind; [apply conn_blind_readOnePiece|intros [e|]].
  - apply conn_blind_ret.
  - apply conn_blind_Begin_check.
Qed.

Lemma conn_blind_conn {A} (f : go A) (m : Meta) : conn_blind f → conn (f m).2 = conn m.
Proof.
  intros Hf. pose proof (Hf (conn m) m) as E. rewrite set_conn_id in E by done.
  destruct (f m) as [o m']. cbn [fst snd] in *. injection E as E. rewrite E at 1.
  by destruct m'.
Qed.

Lemma conn_blind_writes_blind {A} (f : go A) : conn_blind f → writes_blind f.
Proof.
  intros Hf s w m. unfold with_writes. rewrite Hf. by rewrite conn_blind_conn.
Qed.

Lemma writes_blind_bind {A B} (f : go A) (k : A → go B) :
  writes_blind f → (∀ a, writes_blind (k a)) → writes_blind (f ≫= k).
Proof.
  intros Hf Hk s w m. rewrite !bind_run, Hf. cbn [fst snd].
  destruct (f m) as [[a|msg|] m1]; cbn [fst snd]; [apply Hk|done..].
Qed.

Lemma ReadFull_rewire (n : Z) (s : list (list byte)) (w : list (option error)) (c : Conn) :
  ReadFull n (rewire s w c) = ((ReadFull n c).1, rewire s w (ReadFull n c).2).
Proof. unfold ReadFull, rewire. cbn. by repeat case_match. Qed.

Lemma writes_blind_ReadFull (n : Z) : writes_blind (on_conn (ReadFull n)).
Proof.
  intros s w m. unfold with_writes, on_conn. destruct (conn m) as [c|] eqn:Hc; cbn.
  - rewrite ReadFull_rewire. by destruct (ReadFull n c) as [r c'].
  - by rewrite Hc.
Qed.

Lemma writes_blind_ReadN : writes_blind ReadN.
Proof.
  unfold ReadN.
  apply writes_blind_bind; [apply writes_blind_ReadFull|intros [[n lenb] [e|]]].
  { by apply conn_blind_writes_blind, conn_blind_ret. }
  apply writes_blind_bind; [apply writes_blind_ReadFull|intros [[n' data] [e|]]];
    by apply conn_blind_writes_blind, conn_blind_ret.
Qed.

Lemma writes_blind_Begin_turn : writes_blind Begin_turn.
Proof.
  unfold Begin_turn.
  apply writes_blind_bind; [apply writes_blind_ReadN|intros [data [e|]]].
  - by apply conn_blind_writes_blind, conn_blind_ret.
  - apply conn_blind_writes_blind, conn_blind_Begin_frame.
Qed.

Lemma writes_blind_Begin_loop (fuel : nat) : writes_blind (Begin_loop fuel).
Proof.
  induction fuel as [|fuel IH]; [done|]. cbn [Begin_loop].
  apply writes_blind_bind; [apply writes_blind_Begin_turn|intros [v|]]; [|done].
  by apply conn_blind_writes_blind, conn_blind_ret.
Qed.

End blind.

(** ** The whole of [Begin] *)

Section Begin_whole.
Context `{Packages}.

Lemma with_writes_conn (s : list (list byte)) (w : list (option error))
    (m : Meta) (c c1 : Conn) :
  conn m = Some c →
  incoming c1 = incoming c → closes_with c1 = closes_with c → closed c1 = closed c →
  set_conn (Some c1) m = with_writes (sent c1) (write_results c1) m.
Proof.
  intros Hc E1 E2 E3. unfold with_writes, rewire. rewrite Hc. cbn.
  rewrite <- E1, <- E2, <- E3. by destruct c1.
Qed.

Lemma with_writes_twice (s s' : list (list byte)) (w w' : list (option error)) (m : Meta) :
  with_writes s' w' (with_writes s w m) = with_writes s' w' m.
Proof. unfold with_writes. by destruct (conn m). Qed.

Lemma with_writes_fields (s : list (list byte)) (w : list (option error)) (m : Meta) :
  pieces (with_writes s w m) = pieces m
  ∧ infoHash (with_writes s w m) = infoHash m
  ∧ pieceCount (with_writes s w m) = pieceCount m
  ∧ checkDone (with_writes s w m) = checkDone m.
Proof. done. Qed.

Lemma requestPiece_run (i : Z) (m : Meta) (c : Conn) :
  conn m = Some c →
  ∃ c1, requestPiece i m = (Return tt, set_conn (Some c1) m)
    ∧ incoming c1 = incoming c ∧ closes_with c1 = closes_with c ∧ closed c1 = closed c.
Proof.
  intros Hc. unfold requestPiece. rewrite bind_run. unfold get.
  rewrite bind_run, (WriteTo_run _ _ c Hc). cbv zeta.
  eexists. split; [reflexivity|]. apply conn_Write_reads.
Qed.

Lemma for_range_requestPiece (k : nat) (i : Z) (m : Meta) (c : Conn) :
  conn m = Some c →
  ∃ c1, for_range k i requestPiece m = (Return tt, set_conn (Some c1) m)
    ∧ incoming c1 = incoming c ∧ closes_with c1 = closes_with c ∧ closed c1 = closed c
    ∧ (k = 0%nat → c1 = c).
Proof.
  revert i m c. induction k as [|k IH]; intros i m c Hc.
  { exists c. cbn. rewrite set_conn_id by done. done. }
  cbn [for_range]. rewrite bind_run.
  destruct (requestPiece_run i m c Hc) as (c1 & -> & E1 & E2 & E3).
  destruct (IH (i + 1) (set_conn (Some c1) m) c1 eq_refl) as (c2 & -> & F1 & F2 & F3 & _).
  exists c2. cbn [set_conn conn]. split_and!; try congruence. done.
Qed.

(** [Begin] is its loop run on the session as it stands, but for the
    requests written in between. *)
Lemma Begin_run (m : Meta) (c : Conn) :
  conn m = Some c →
  ∃ s w, Begin m = Begin_loop (S (length (incoming c))) (with_writes s w m)
    ∧ (pieceCount m ≤ 0 → s = sent c ∧ w = write_results c).
Proof.
  intros Hc. unfold Begin. rewrite bind_run. unfold SetDeadLine.
  rewrite (on_conn_run _ _ c Hc). cbn [fst snd]. rewrite set_conn_id by done.
  rewrite bind_run. unfold get. rewrite bind_run.
  destruct (for_range_requestPiece (Z.to_nat (pieceCount m)) 0 m c Hc)
    as (c1 & -> & E1 & E2 & E3 & E0).
  rewrite bind_run. unfold Begin_fuel. cbn [set_conn conn]. rewrite E1.
  exists (sent c1), (write_results c1).
  rewrite (with_writes_conn (sent c1) (write_results c1) m c c1) by done.
  split; [done|]. intros Hk. rewrite E0 by lia. done.
Qed.

(** What [Begin] returns is what the loop returns on the session before
    the requests. *)
Lemma Begin_outcome (m : Meta) (c : Conn) :
  conn m = Some c →
  ∃ s w, Begin m = ((Begin_loop (S (length (incoming c))) m).1,
                    with_writes s w (Begin_loop (S (length (incoming c))) m).2)
    ∧ (pieceCount m ≤ 0 → s = sent c ∧ w = write_results c).
Proof.
  intros Hc. destruct (Begin_run m c Hc) as (s & w & -> & Hk).
  exists s, w. split; [apply writes_blind_Begin_loop|done].
Qed.

Lemma Begin_nil_conn (m : Meta) : conn m = None → Begin m = (Panic nil_deref, m).
Proof.
  intros Hc. unfold Begin, SetDeadLine. rewrite bind_run, on_conn_nil; done.
Qed.

Lemma Begin_turn_nil_conn (m : Meta) : conn m = None → Begin_turn m = (Panic nil_deref, m).
Proof.
  intros Hc. unfold Begin_turn, ReadN. rewrite !bind_run, on_conn_nil; done.
Qed.

(** Invariants of the loop: [P] holds before every turn, [Q] of what the
    loop returns. *)
Lemma Begin_loop_inv (P : Meta → Prop)
    (Q : outcome (option (list byte) * option error) → Meta → Prop) :
  (∀ m o m', P m → Begin_turn m = (o, m') →
     match o with
     | Return None => P m'
     | Return (Some v) => Q (Return v) m'
     | Panic msg => Q (Panic msg) m'
     | OutOfFuel => Q OutOfFuel m'
     end) →
  (∀ m, P m → Q OutOfFuel m) →
  ∀ fuel m, P m → Q (Begin_loop fuel m).1 (Begin_loop fuel m).2.
Proof.
  intros Hturn Hout. induction fuel as [|fuel IH]; intros m Hm; [by apply Hout|].
  cbn [Begin_loop]. rewrite bind_run.
  destruct (Begin_turn m) as [o m'] eqn:Ht. specialize (Hturn _ _ _ Hm Ht).
  destruct o as [[v|]|msg|]; cbn [fst snd mret go_ret ret]; auto.
Qed.

(** What a turn can return. *)
Lemma Begin_turn_result (m m' : Meta)
    (o : outcome (option (option (list byte) * option error))) :
  Begin_turn m = (o, m') →
  infoHash m' = infoHash m
  ∧ match o with
    | Return (Some (ret, None)) =>
        checkDone m' = true ∧ ret = Join (pieces m')
        ∧ sha1_Sum (default [] ret) = infoHash m'
    | Return (Some (ret, Some e)) => ret = None
    | Return None | Panic _ => True
    | OutOfFuel => False
    end.
Proof.
  destruct (conn m) as [c|] eqn:Hc.
  2:{ rewrite Begin_turn_nil_conn by done. by intros [= <- <-]. }
  intros Ht. destruct (Begin_turn_cases _ _ _ _ Hc Ht)
    as (c' & _ & _ & _ & _ & _ & _ & [(-> & Ho)|(k & body & _ & _ & -> & Hchk)]).
  - split; [done|]. destruct Ho as [->|[[e ->]| [msg ->]]]; done.
  - split; [done|]. rewrite Begin_check_run in Hchk. injection Hchk as ->.
    destruct (negb (checkDone _)) eqn:Hd; [done|].
    apply negb_false_iff in Hd.
    destruct (Equal _ _) eqn:He; [|done].
    apply bool_decide_eq_true in He. done.
Qed.

(** The loop ends before its fuel does. *)
Lemma Begin_loop_fuel (fuel : nat) (m : Meta) (c : Conn) :
  conn m = Some c → (length (incoming c) < fuel)%nat →
  (Begin_loop fuel m).1 ≠ OutOfFuel.
Proof.
  revert m c. induction fuel as [|fuel IH]; intros m c Hc Hf; [lia|].
  cbn [Begin_loop]. rewrite bind_run.
  destruct (Begin_turn m) as [o m'] eqn:Ht.
  pose proof (Begin_turn_result _ _ _ Ht) as [_ Ho].
  destruct (Begin_turn_cases _ _ _ _ Hc Ht) as (c' & Hc' & _ & _ & _ & _ & Hlen & _).
  destruct o as [[v|]|msg|]; cbn [fst snd mret go_ret ret]; try done.
  apply (IH _ c'); [done|]. specialize (Hlen eq_refl). lia.
Qed.


End Begin_whole.

(** ** The checksum *)

Section checksum.
Context `{Packages}.

(** The turn that reads the reply which completes the table. *)
Lemma Begin_turn_completes (m : Meta) (c : Conn) (lenb payload rest body : list byte) (k : Z) :
  conn m = Some c →
  incoming c = lenb ++ (Byte.x14 :: Byte.x01 :: payload) ++ rest →
  length lenb = 4%nat → Uint32 lenb = len payload + 2 →
  piece_reply_of payload k body → 0 ≤ k < pieceCount m → k < len (pieces m) →
  let table := <[Z.to_nat k := Some body]> (pieces m) in
  let m' := set_pieces table
              (set_conn (Some (mkConn rest (closes_with c) (sent c) (write_results c)
                                      (closed c))) m) in
  Begin_turn m = Begin_check m'.
Proof.
  intros Hc Hin Hl Hu Hp Hk Hlen. cbv zeta. unfold Begin_turn.
  rewrite bind_run, (ReadN_frame m c lenb (Byte.x14 :: Byte.x01 :: payload) rest);
    [|done|done|done|rewrite Hu; unfold len; cbn [length]; lia].
  cbn [default from_option id]. unfold Begin_frame.
  rewrite bind_run, (index_run _ _ Byte.x14) by done.
  rewrite bool_decide_eq_false_2 by (intros Hne; by apply Hne).
  rewrite bind_run, (index_run _ _ Byte.x01) by done.
  rewrite bool_decide_eq_false_2 by (intros Hne; by apply Hne).
  rewrite bind_run, slice_from_run by (unfold len; cbn [length]; lia).
  change (drop (Z.to_nat 2) (Byte.x14 :: Byte.x01 :: payload)) with payload.
  rewrite bind_run, (readOnePiece_store payload body k) by done.
  reflexivity.
Qed.

End checksum.

(** The bytes of a join are the bytes of the slots one after the other,
    and a table passes [checkDone] when every slot holds a slice. *)
Lemma Join_bytes (s : list (option (list byte))) :
  default [] (Join s) = concat (map (default []) s).
Proof.
  destruct s as [|x [|y s]]; [done| |done].
  cbn. destruct (default [] x); cbn; by rewrite ?app_nil_r.
Qed.

Lemma Join_bodies (bodies : list (list byte)) :
  default [] (Join (Some <$> bodies)) = concat bodies.
Proof.
  rewrite Join_bytes. f_equal. induction bodies as [|b bodies IH]; [done|].
  cbn. by f_equal.
Qed.

Lemma checkDone_bodies (m : Meta) :
  checkDone m = true ↔ ∃ bodies, pieces m = Some <$> bodies.
Proof.
  unfold checkDone. induction (pieces m) as [|x t IH]; cbn [forallb].
  { split; [by exists []|done]. }
  rewrite andb_true_iff, bool_decide_eq_true, IH. split.
  - intros [Hx [bodies ->]]. destruct x as [b|]; [|done]. by exists (b :: bodies).
  - intros [[|b bodies] Hb]; [done|]. injection Hb as -> ->. split; [done|eauto].
Qed.



(** The same peer sending other bytes for the piece. *)
Example Begin_checksum_mismatch :
  (Begin (Demo.announced 14 (Demo.piece_reply 0 (bytes_of_string "d4:name4:evil")))).1
  = Return (None, Some e_checksum).
Proof. vm_compute. reflexivity. Qed.

(** A table of one slot whose piece has no byte: [bytes.Join] gives a
    nil slice, and with the info hash of no bytes [Begin] returns it with
    a nil error. *)
Example Begin_returns_nil_for_an_empty_piece :
  let session := NewMeta "-DS0001-123456789012" "127.0.0.1:6881" (SHA1.Sum []) in
  let m := (onExtHandshake (Demo.ext_dict 1)
              (set_conn (Some (Demo.peer (Demo.piece_reply 0 []))) session)).2 in
  pieceCount m = 1
  ∧ (Begin m).1 = Return (None, None)
  ∧ pieces (Begin m).2 = [Some []].
Proof. vm_compute. done. Qed.

(** ** A session with no piece *)

Section empty_table.
Context `{Packages}.

Lemma Begin_loop_conn (fuel : nat) (m : Meta) :
  is_Some (conn m) → is_Some (conn (Begin_loop fuel m).2).
Proof.
  apply (Begin_loop_inv (λ m0, is_Some (conn m0)) (λ _ m', is_Some (conn m'))); [|done].
  intros m0 o m' [c Hc] Ht.
  destruct (Begin_turn_cases _ _ _ _ Hc Ht) as (c' & Hc' & _).
  destruct o as [[v|]|msg|]; by rewrite Hc'.
Qed.

(** With an empty table no reply can be stored, so no turn returns bytes. *)
Lemma Begin_turn_empty_table (m m' : Meta)
    (o : outcome (option (option (list byte) * option error))) :
  pieces m = [] → Begin_turn m = (o, m') →
  pieces m' = []
  ∧ match o with
    | Return (Some (bs, e)) => bs = None ∧ is_Some e
    | _ => True
    end.
Proof.
  intros Hp Ht. destruct (conn m) as [c|] eqn:Hc.
  2:{ rewrite Begin_turn_nil_conn in Ht by done. by injection Ht as <- <-. }
  destruct (Begin_turn_cases _ _ _ _ Hc Ht)
    as (c' & _ & _ & _ & _ & _ & _ & [(-> & Ho)|(k & body & Hk & Hl & _)]).
  - split; [done|]. destruct Ho as [->|[[e ->]|[msg ->]]]; done.
  - rewrite Hp in Hl. unfold len in Hl. cbn in Hl. lia.
Qed.

Lemma Begin_loop_empty_table (fuel : nat) (m : Meta) :
  pieces m = [] →
  match (Begin_loop fuel m).1 with
  | Return (bs, e) => bs = None ∧ is_Some e
  | _ => True
  end.
Proof.
  apply (Begin_loop_inv (λ m0, pieces m0 = [])
           (λ o _, match o with Return (bs, e) => bs = None ∧ is_Some e | _ => True end));
    [|done].
  intros m0 o m' Hp Ht. destruct (Begin_turn_empty_table _ _ _ Hp Ht) as [Hp' Ho].
  by destruct o as [[[bs e]|]|msg|].
Qed.

(** On a stream that has ended the first turn returns the read error. *)
Lemma Begin_turn_no_frame (m : Meta) (c : Conn) :
  conn m = Some c → incoming c = [] →
  (Begin_turn m).1 = Return (Some (None, Some (closes_with c))).
Proof.
  intros Hc Hin. unfold Begin_turn, ReadN. rewrite !bind_run, (on_conn_run _ _ c Hc).
  unfold ReadFull. rewrite Hin. cbn. done.
Qed.

End empty_table.

(** C5 (counterexample). The peer announces [metadata_size] 0 and sends
    nothing more: the table has no slot and counts as complete, yet
    [Begin] waits for a frame and returns the read error, not the empty
    metadata. *)
Lemma C5_zero_size_counterexample :
  let m := Demo.announced 0 [] in
  metadataSize m = 0 ∧ pieceCount m = 0 ∧ checkDone m = true
  ∧ (Begin m).1 = Return (None, Some io_EOF)
  ∧ (Begin m).1 ≠ Return (Some [], None).
Proof. vm_compute. split_and!; done. Qed.

(** C5 (amended). After a reply that announces [metadata_size] 0 the piece
    count is 0, the table has no slot, [checkDone] holds and the join is
    empty; [Begin] writes no piece request.  [Begin] tests [checkDone]
    only after a reply has been stored, so it reads from the peer first:
    it never returns bytes, and on a stream that has ended it returns the
    read error. *)
Theorem C5_zero_size_session `{Packages} (payload : list byte) (m0 m : Meta) :
  onExtHandshake payload m0 = (Return None, m) →
  metadataSize m = 0 →
  pieceCount m = 0 ∧ pieces m = [] ∧ checkDone m = true ∧ Join (pieces m) = Some []
  ∧ (∀ c, conn m = Some c → ∃ c', conn (Begin m).2 = Some c' ∧ sent c' = sent c)
  ∧ (∀ bs e m', Begin m = (Return (bs, e), m') → bs = None ∧ is_Some e)
  ∧ (∀ c, conn m = Some c → incoming c = [] →
       (Begin m).1 = Return (None, Some (closes_with c))).
Proof.
  intros Hrun Hsize.
  destruct (onExtHandshake_accept _ _ _ Hrun)
    as (dict & d & size & ut & _ & _ & _ & _ & _ & Hm).
  cbv zeta in Hm. rewrite Hm in Hsize. cbn [metadataSize set_pieces set_params] in Hsize.
  subst size. change (Z.rem 0 perBlock) with 0 in Hm. change (Z.quot 0 perBlock) with 0 in Hm.
  rewrite bool_decide_eq_false_2 in Hm by (intros Hne; by apply Hne).
  change (replicate (Z.to_nat 0) None) with (@nil (option (list byte))) in Hm.
  assert (pieceCount m = 0) as Hcount by (by rewrite Hm).
  assert (pieces m = []) as Hpieces by (by rewrite Hm).
  split_and!; try done.
  - unfold checkDone. by rewrite Hpieces.
  - by rewrite Hpieces.
  - intros c Hc. destruct (Begin_outcome m c Hc) as (s & w & -> & Hsw).
    destruct Hsw as [-> ->]; [lia|].
    destruct (Begin_loop_conn (S (length (incoming c))) m) as [c1 Hc1]; [by rewrite Hc|].
    cbn [snd]. unfold with_writes. rewrite Hc1. cbn. eauto.
  - intros bs e m' HB. destruct (conn m) as [c|] eqn:Hc.
    2:{ by rewrite Begin_nil_conn in HB. }
    destruct (Begin_outcome m c Hc) as (s & w & E & _). rewrite HB in E.
    pose proof (Begin_loop_empty_table (S (length (incoming c))) m Hpieces) as Hr.
    destruct (Begin_loop _ m) as [o m1]. cbn [fst snd] in *. by injection E as <- ->.
  - intros c Hc Hin. destruct (Begin_outcome m c Hc) as (s & w & -> & _).
    cbn [fst]. rewrite Hin. cbn [length Begin_loop]. rewrite bind_run.
    pose proof (Begin_turn_no_frame m c Hc Hin) as Ht.
    destruct (Begin_turn m) as [o m1]. cbn [fst] in Ht. by rewrite Ht.
Qed.

Lemma C5_zero_size_session_witness :
  let m := (onExtHandshake (Demo.ext_dict 0)
              (set_conn (Some (Demo.peer [])) Demo.session)).2 in
  pieceCount m = 0 ∧ pieces m = [] ∧ (Begin m).1 = Return (None, Some io_EOF).
Proof.
  cbv zeta.
  assert (onExtHandshake (Demo.ext_dict 0) (set_conn (Some (Demo.peer [])) Demo.session)
          = (Return None,
             (onExtHandshake (Demo.ext_dict 0)
                (set_conn (Some (Demo.peer [])) Demo.session)).2)) as Hrun
    by (vm_compute; reflexivity).
  destruct (C5_zero_size_session _ _ _ Hrun) as (Hc & Hp & _ & _ & _ & _ & Hend).
  { vm_compute. reflexivity. }
  split; [exact Hc|]. split; [exact Hp|].
  apply (Hend (Demo.peer [])); vm_compute; reflexivity.
Defined.

(** ** Short frames *)

Section short_frames.
Context `{Packages}.

(** The turn of [Begin] and the reply part of [extHandShake] on a frame
    [data] at the head of the stream. *)
Lemma Begin_turn_frame (m : Meta) (c : Conn) (lenb data rest : list byte) :
  conn m = Some c →
  incoming c = lenb ++ data ++ rest →
  length lenb = 4%nat → Uint32 lenb = len data →
  Begin_turn m
  = Begin_frame data
      (set_conn (Some (mkConn rest (closes_with c) (sent c) (write_results c) (closed c))) m).
Proof.
  intros Hc Hin Hl Hu. unfold Begin_turn.
  by rewrite bind_run, (ReadN_frame m c lenb data rest).
Qed.

Lemma extHandShake_frame (m : Meta) (c : Conn) (lenb data rest : list byte) :
  conn m = Some c →
  (conn_Write ext_written c).1 = None →
  incoming c = lenb ++ data ++ rest →
  length lenb = 4%nat → Uint32 lenb = len data →
  ∃ m1, extHandShake m
        = (d0 ← index data 0;
           if bool_decide (Z_of_byte d0 ≠ extended)
           then mret (Some (errors_New "data 0 err")) else
           d1 ← index data 1;
           if bool_decide (Z_of_byte d1 ≠ 0)
           then mret (Some (errors_New "data 1 err")) else
           payload ← slice_from data 2;
           onExtHandshake payload) m1.
Proof.
  intros Hc Hw Hin Hl Hu. unfold extHandShake. fold ext_message.
  rewrite bind_run, (WriteTo_run _ _ c Hc). cbv zeta. fold ext_written.
  rewrite Hw. cbv beta iota delta [fmap option_fmap option_map].
  set (c1 := (conn_Write ext_written c).2).
  rewrite bind_run.
  rewrite (ReadN_frame _ c1 lenb data rest); try done.
  2:{ unfold c1. by rewrite (proj1 (conn_Write_reads _ _)). }
  cbn [default from_option id]. eauto.
Qed.

End short_frames.

(** C9 (counterexample). A frame of declared length 1 whose byte is not 20
    is skipped by the loop of [Begin] and answered with an error by
    [extHandShake]; neither reads the second byte. *)
Lemma C9_short_frame_counterexample :
  let m := set_conn (Some (Demo.peer [Byte.x00; Byte.x00; Byte.x00; Byte.x01; Byte.x05]))
             Demo.session in
  (Begin_turn m).1 = Return None
  ∧ (extHandShake m).1 = Return (Some (errors_New "data 0 err")).
Proof. vm_compute. done. Qed.

(** C9 (amended). Neither the loop of [Begin] nor [extHandShake] checks the
    length of a frame before it reads [data[0]] and [data[1]].  A frame of
    declared length 0, and a frame of length 1 whose byte is 20, make both
    panic with an index out of range; a frame of length 1 with any other
    byte is skipped by the loop and rejected with "data 0 err" by
    [extHandShake]. *)
Theorem C9_short_frames `{Packages} (m : Meta) (c : Conn) (rest : list byte) :
  conn m = Some c →
  (incoming c = [Byte.x00; Byte.x00; Byte.x00; Byte.x00] ++ rest →
     (Begin_turn m).1 = Panic out_of_range
     ∧ (Begin m).1 = Panic out_of_range
     ∧ ((conn_Write ext_written c).1 = None → (extHandShake m).1 = Panic out_of_range))
  ∧ (incoming c = [Byte.x00; Byte.x00; Byte.x00; Byte.x01; Byte.x14] ++ rest →
     (Begin_turn m).1 = Panic out_of_range
     ∧ (Begin m).1 = Panic out_of_range
     ∧ ((conn_Write ext_written c).1 = None → (extHandShake m).1 = Panic out_of_range))
  ∧ (∀ b, incoming c = [Byte.x00; Byte.x00; Byte.x00; Byte.x01; b] ++ rest →
     b ≠ Byte.x14 →
     (Begin_turn m).1 = Return None
     ∧ ((conn_Write ext_written c).1 = None →
        (extHandShake m).1 = Return (Some (errors_New "data 0 err")))).
Proof.
  intros Hc.
  assert (∀ o, (Begin_turn m).1 = Panic o → (Begin m).1 = Panic o) as HB.
  { intros o Ht. destruct (Begin_outcome m c Hc) as (s & w & -> & _).
    cbn [fst Begin_loop]. rewrite bind_run.
    destruct (Begin_turn m) as [o' m']. cbn [fst] in Ht. by rewrite Ht. }
  split_and!.
  - intros Hin.
    assert ((Begin_turn m).1 = Panic out_of_range) as Ht.
    { by rewrite (Begin_turn_frame m c [Byte.x00; Byte.x00; Byte.x00; Byte.x00] [] rest). }
    split_and!; [done|by apply HB|]. intros Hw.
    destruct (extHandShake_frame m c [Byte.x00; Byte.x00; Byte.x00; Byte.x00] [] rest)
      as (m1 & ->); done.
  - intros Hin.
    assert ((Begin_turn m).1 = Panic out_of_range) as Ht.
    { by rewrite (Begin_turn_frame m c [Byte.x00; Byte.x00; Byte.x00; Byte.x01]
                    [Byte.x14] rest). }
    split_and!; [done|by apply HB|]. intros Hw.
    destruct (extHandShake_frame m c [Byte.x00; Byte.x00; Byte.x00; Byte.x01]
                [Byte.x14] rest) as (m1 & ->); done.
  - intros b Hin Hb.
    assert (Z_of_byte b ≠ extended) as Hne.
    { intros E. apply Hb. by apply Z_of_byte_inj. }
    split.
    + rewrite (Begin_turn_frame m c [Byte.x00; Byte.x00; Byte.x00; Byte.x01] [b] rest);
        try done.
      unfold Begin_frame. rewrite bind_run, (index_run _ _ b) by done.
      by rewrite bool_decide_eq_true_2.
    + intros Hw.
      destruct (extHandShake_frame m c [Byte.x00; Byte.x00; Byte.x00; Byte.x01] [b] rest)
        as (m1 & ->); try done.
      rewrite bind_run, (index_run _ _ b) by done.
      by rewrite bool_decide_eq_true_2.
Qed.

Lemma C9_short_frames_witness :
  let m := set_conn (Some (Demo.peer [Byte.x00; Byte.x00; Byte.x00; Byte.x00]))
             Demo.session in
  (Begin m).1 = Panic out_of_range ∧ (extHandShake m).1 = Panic out_of_range.
Proof.
  cbv zeta.
  destruct (C9_short_frames
              (set_conn (Some (Demo.peer [Byte.x00; Byte.x00; Byte.x00; Byte.x00]))
                 Demo.session)
              (Demo.peer [Byte.x00; Byte.x00; Byte.x00; Byte.x00]) [] eq_refl)
    as (Hzero & _ & _).
  destruct (Hzero eq_refl) as (_ & HB & HE).
  split; [exact HB|]. apply HE. reflexivity.
Defined.

(** ** Failed writes *)

Section failed_writes.
Context `{Packages}.

Lemma writes_blind_get_bind {B} (k : Meta → go B) :
  (∀ s w m, k (with_writes s w m) = k m) → (∀ m0, writes_blind (k m0)) →
  writes_blind (get ≫= k).
Proof.
  intros Hk Hb s w m. rewrite !bind_run. unfold get. rewrite Hk. apply Hb.
Qed.

Lemma writes_blind_pure {A} (f : go A) : conn_blind f → writes_blind f.
Proof. apply conn_blind_writes_blind. Qed.

Lemma conn_blind_slice {A} (s : list A) (lo hi : Z) : conn_blind (slice s lo hi).
Proof. unfold slice. case_match; [apply conn_blind_panic|apply conn_blind_ret]. Qed.

Lemma writes_blind_HandShake_read : writes_blind HandShake_read.
Proof.
  unfold HandShake_read.
  apply writes_blind_get_bind; [done|intros m0].
  apply writes_blind_bind; [apply writes_blind_ReadFull|intros [[n res] [e|]]].
  { apply writes_blind_pure, conn_blind_ret. }
  apply writes_blind_pure.
  case_match; [apply conn_blind_ret|].
  apply conn_blind_bind; [apply conn_blind_slice_to|intros theirs].
  apply conn_blind_bind; [apply conn_blind_slice_to|intros ours].
  case_match; [apply conn_blind_ret|].
  apply conn_blind_bind; [apply conn_blind_index|intros r25].
  case_match; [apply conn_blind_ret|].
  apply conn_blind_bind; [apply conn_blind_slice|intros hash].
  case_match; apply conn_blind_ret.
Qed.

(** [HandShake] returns what the reading part returns, whatever became of
    the write. *)
Lemma HandShake_outcome (m : Meta) (c : Conn) :
  conn m = Some c → (HandShake m).1 = (HandShake_read m).1.
Proof.
  intros Hc. unfold HandShake. rewrite bind_run. unfold get.
  rewrite bind_run, (on_conn_run _ _ c Hc). cbn [snd].
  set (c1 := (conn_Write _ c).2).
  destruct (conn_Write_reads (preHeader m ++ infoHash m ++ bytes_of_string (peerId m)) c)
    as (E1 & E2 & E3). fold c1 in E1, E2, E3.
  rewrite (with_writes_conn (sent c1) (write_results c1) m c c1) by done.
  by rewrite writes_blind_HandShake_read.
Qed.

End failed_writes.

(** C10. A failed write does not end the session by itself.  [HandShake]
    returns the same result whether its write fails or not; [requestPiece]
    returns nothing although [WriteTo] reports the failure to it; and the
    result of [Begin] does not depend on the results of the writes: it is
    decided by what is read. *)
Theorem C10_write_errors_are_dropped `{Packages}
    (m : Meta) (c : Conn) (s : list (list byte)) (w : list (option error)) :
  conn m = Some c →
  (HandShake (with_writes s w m)).1 = (HandShake m).1
  ∧ (∀ i, (requestPiece i m).1 = Return tt)
  ∧ (∀ data e rest, write_results c = Some e :: rest →
       (WriteTo data m).1 = Return (Some (write_failed e)))
  ∧ (Begin (with_writes s w m)).1 = (Begin m).1.
Proof.
  intros Hc.
  assert (conn (with_writes s w m) = Some (rewire s w c)) as Hc'.
  { unfold with_writes. by rewrite Hc. }
  split_and!.
  - rewrite (HandShake_outcome _ _ Hc'), (HandShake_outcome _ _ Hc).
    by rewrite writes_blind_HandShake_read.
  - intros i. by destruct (requestPiece_run i m c Hc) as (c1 & -> & _).
  - intros data e rest Hw. rewrite (WriteTo_run _ _ c Hc). cbv zeta. cbn [fst].
    unfold conn_Write. by rewrite Hw.
  - destruct (Begin_outcome _ _ Hc') as (s1 & w1 & -> & _).
    destruct (Begin_outcome _ _ Hc) as (s2 & w2 & -> & _).
    cbn [fst rewire incoming]. by rewrite writes_blind_Begin_loop.
Qed.

(** The demo session on a connection whose next three writes fail. *)
Lemma C10_write_errors_are_dropped_witness :
  let broken := [Some (foreign "broken pipe"); Some (foreign "broken pipe");
                 Some (foreign "broken pipe")] in
  (HandShake (with_writes [] broken
                (set_conn (Some (Demo.peer Demo.handshake_reply)) Demo.session))).1
  = Return None
  ∧ (Begin (with_writes [] broken
              (Demo.announced 14 (Demo.piece_reply 0 Demo.metadata)))).1
    = Return (Some Demo.metadata, None).
Proof.
  cbv zeta. split.
  - destruct (C10_write_errors_are_dropped
                (set_conn (Some (Demo.peer Demo.handshake_reply)) Demo.session)
                (Demo.peer Demo.handshake_reply) []
                [Some (foreign "broken pipe"); Some (foreign "broken pipe");
                 Some (foreign "broken pipe")] eq_refl) as (-> & _).
    vm_compute. reflexivity.
  - assert (conn (Demo.announced 14 (Demo.piece_reply 0 Demo.metadata))
            = Some (default (Demo.peer [])
                      (conn (Demo.announced 14 (Demo.piece_reply 0 Demo.metadata)))))
      as Hc by (vm_compute; reflexivity).
    destruct (C10_write_errors_are_dropped _ _ []
                [Some (foreign "broken pipe"); Some (foreign "broken pipe");
                 Some (foreign "broken pipe")] Hc) as (_ & _ & _ & ->).
    vm_compute. reflexivity.
Defined.

(** ** Storing pieces *)

Lemma store_all_length (t : list (option (list byte))) (rs : list (Z * list byte)) :
  length (store_all t rs) = length t.
Proof.
  revert t. induction rs as [|r rs IH]; intros t; [done|].
  cbn. unfold store_all in IH. by rewrite IH, length_insert.
Qed.

(** Last write wins: a slot holds the body of the last reply for its
    index, and what it held before when there is none. *)
Lemma store_all_lookup (t : list (option (list byte))) (rs : list (Z * list byte)) (k : Z) :
  Forall (λ r, 0 ≤ r.1 < len t) rs → 0 ≤ k →
  store_all t rs !! Z.to_nat k
  = match last_body k rs with
    | Some b => Some (Some b)
    | None => t !! Z.to_nat k
    end.
Proof.
  intros Hrs Hk. revert t Hrs. induction rs as [|r rs IH]; intros t Hrs; [done|].
  apply Forall_cons in Hrs as [Hr Hrs].
  cbn [store_all foldl last_body]. fold (store_all (<[Z.to_nat r.1 := Some r.2]> t) rs).
  rewrite IH.
  2:{ eapply Forall_impl; [exact Hrs|]. intros r' Hr'. unfold len in *.
      by rewrite length_insert. }
  destruct (last_body k rs) as [b|]; [done|].
  case_bool_decide as Heq.
  - subst k. rewrite list_lookup_insert_eq; [done|]. unfold len in Hr. lia.
  - rewrite list_lookup_insert_ne; [done|]. lia.
Qed.

(** A table whose every slot has had a reply is the list of the last
    bodies in index order. *)
Lemma store_all_complete (t : list (option (list byte))) (rs : list (Z * list byte)) :
  Forall (λ r, 0 ≤ r.1 < len t) rs →
  (∀ k, 0 ≤ k < len t → is_Some (last_body k rs)) →
  store_all t rs = (λ k, Some (default [] (last_body k rs))) <$> seqZ 0 (len t).
Proof.
  intros Hrs Hall. apply list_eq. intros i.
  destruct (decide (i < length t)%nat) as [Hi|Hi].
  - replace i with (Z.to_nat (Z.of_nat i)) at 1 by lia.
    rewrite store_all_lookup by (done || lia).
    destruct (Hall (Z.of_nat i)) as [b Hb]; [unfold len; lia|]. rewrite Hb.
    rewrite list_lookup_fmap.
    rewrite (lookup_seqZ_lt 0 (len t) i) by (unfold len; lia).
    cbn. rewrite Z.add_0_l, Hb. done.
  - rewrite !lookup_ge_None_2; [done| |].
    + rewrite length_fmap, length_seqZ. unfold len. lia.
    + rewrite store_all_length. lia.
Qed.

(** Replies for distinct indices give the same last bodies in any order. *)
Lemma last_body_elem (k : Z) (rs : list (Z * list byte)) (b : list byte) :
  last_body k rs = Some b → (k, b) ∈ rs.
Proof.
  induction rs as [|[i x] rs IH]; [done|]. cbn [last_body].
  destruct (last_body k rs) as [b'|].
  - intros [= ->]. right. by apply IH.
  - case_bool_decide; [|done]. cbn in *. intros [= ->]. subst. left.
Qed.

Lemma last_body_None (k : Z) (rs : list (Z * list byte)) :
  last_body k rs = None ↔ k ∉ rs.*1.
Proof.
  induction rs as [|[i x] rs IH]; [cbn; split; [intros _; apply not_elem_of_nil|done]|].
  cbn [last_body fmap list_fmap fst]. rewrite not_elem_of_cons.
  destruct (last_body k rs) as [b'|].
  - split; [done|]. intros [_ Hn]. by apply IH in Hn.
  - case_bool_decide; cbn in *.
    + split; [done|]. intros [Hne _]. by destruct Hne.
    + split; [|done]. intros _. split; [done|]. by apply IH.
Qed.

Lemma last_body_NoDup (k : Z) (rs : list (Z * list byte)) (b : list byte) :
  NoDup rs.*1 → (k, b) ∈ rs → last_body k rs = Some b.
Proof.
  induction rs as [|[i x] rs IH]; [by intros _ ?%elem_of_nil|].
  cbn [fmap list_fmap fst]. intros [Hni Hnd]%NoDup_cons [Heq|Hin]%elem_of_cons.
  - injection Heq as -> ->. cbn [last_body].
    apply last_body_None in Hni. rewrite Hni. cbn. by rewrite bool_decide_eq_true_2.
  - cbn [last_body]. by rewrite (IH Hnd Hin).
Qed.

Lemma last_body_Permutation (k : Z) (rs rs' : list (Z * list byte)) :
  NoDup rs.*1 → rs ≡ₚ rs' → last_body k rs = last_body k rs'.
Proof.
  intros Hnd Hp.
  assert (NoDup rs'.*1) as Hnd' by (by rewrite <- Hp).
  destruct (last_body k rs) as [b|] eqn:E.
  - apply last_body_elem in E. rewrite Hp in E. symmetry. by apply last_body_NoDup.
  - apply last_body_None in E. symmetry. apply last_body_None. by rewrite <- Hp.
Qed.

(** ** The length prefix *)

Lemma mod_byte_bits (x n : Z) :
  0 ≤ n → Z.testbit (x mod 2 ^ 8) n = if n <? 8 then Z.testbit x n else false.
Proof.
  intros Hn. destruct (n <? 8) eqn:E.
  - apply Z.mod_pow2_bits_low. lia.
  - apply Z.mod_pow2_bits_high. lia.
Qed.

Lemma shifted_byte_bits (x k n : Z) :
  0 ≤ k → 0 ≤ n →
  Z.testbit (Z.shiftl ((Z.shiftr x k) mod 2 ^ 8) k) n
  = if (k <=? n) && (n <? k + 8) then Z.testbit x n else false.
Proof.
  intros Hk Hn. rewrite Z.shiftl_spec by lia.
  destruct (k <=? n) eqn:E1; cbn [andb].
  - rewrite mod_byte_bits by lia. rewrite Z.shiftr_spec by lia.
    replace (n - k + k) with n by lia.
    destruct (n - k <? 8) eqn:E2, (n <? k + 8) eqn:E3; (done || lia).
  - apply Z.testbit_neg_r. lia.
Qed.

(** Reading back a length written by [PutUint32]. *)
Lemma Uint32_PutUint32 (v : Z) : 0 ≤ v < 2 ^ 32 → Uint32 (PutUint32 v) = v.
Proof.
  intros Hv. unfold Uint32, PutUint32. rewrite !Z_of_byte_of_Z. change 256 with (2 ^ 8).
  apply Z.bits_inj'. intros n Hn.
  rewrite !Z.lor_spec, !shifted_byte_bits by lia.
  replace (v mod 2 ^ 8) with (Z.shiftl ((Z.shiftr v 0) mod 2 ^ 8) 0)
    by (by rewrite Z.shiftl_0_r, Z.shiftr_0_r).
  rewrite shifted_byte_bits by lia.
  destruct (Z.testbit v n) eqn:Hb.
  2:{ by repeat case_match. }
  assert (n < 32) as Hn32.
  { destruct (Z.lt_ge_cases n 32) as [|Hge]; [done|].
    rewrite <- (Z.mod_small v (2 ^ 32)) in Hb by lia.
    rewrite Z.mod_pow2_bits_high in Hb by lia. done. }
  destruct (24 <=? n) eqn:E1; [destruct (n <? 24 + 8) eqn:E1'; [done|lia]|].
  destruct (16 <=? n) eqn:E2; [destruct (n <? 16 + 8) eqn:E2'; [done|lia]|].
  destruct (8 <=? n) eqn:E3; [destruct (n <? 8 + 8) eqn:E3'; [by rewrite orb_true_r|lia]|].
  destruct (0 <=? n) eqn:E4; [destruct (n <? 0 + 8) eqn:E4'; [by rewrite !orb_true_r|lia]|lia].
Qed.

Lemma PutUint32_length (v : Z) : length (PutUint32 v) = 4%nat.
Proof. done. Qed.

(** ** Replies read by [Begin] *)

Section Begin_replies.
Context `{Packages}.

(** A turn that reads a valid reply stores it and runs the check. *)
Lemma Begin_turn_reply (m : Meta) (c : Conn) (p rest : list byte) (r : Z * list byte) :
  conn m = Some c →
  incoming c = piece_frame p ++ rest →
  len p + 2 < 2 ^ 32 →
  piece_reply_of p r.1 r.2 → 0 ≤ r.1 < pieceCount m → len (pieces m) = pieceCount m →
  Begin_turn m
  = Begin_check
      (stored (set_conn (Some (mkConn rest (closes_with c) (sent c) (write_results c)
                                      (closed c))) m) [r]).
Proof.
  intros Hc Hin Hsmall Hp Hr Hlen.
  assert (len (Byte.x14 :: Byte.x01 :: p) = len p + 2) as Hl
    by (unfold len; cbn [length]; lia).
  rewrite (Begin_turn_completes m c (PutUint32 (len p + 2)) p rest r.2 r.1);
    try done; try lia.
  - unfold piece_frame, frame in Hin. rewrite Hl, <- app_assoc in Hin. exact Hin.
  - apply Uint32_PutUint32. pose proof (len_nonneg p). lia.
Qed.

Lemma stored_cons (m : Meta) (r : Z * list byte) (rs : list (Z * list byte)) :
  stored m (r :: rs) = stored (stored m [r]) rs.
Proof. done. Qed.

(** The loop of [Begin] on a stream of valid replies of which the last one
    completes the table, and none before. *)
Lemma Begin_loop_replies (ps : list (list byte)) (rs : list (Z * list byte)) :
  ∀ (fuel : nat) (m : Meta) (c : Conn) (rest : list byte),
  conn m = Some c →
  incoming c = concat (piece_frame <$> ps) ++ rest →
  Forall (λ p, len p + 2 < 2 ^ 32) ps →
  replies m ps rs → len (pieces m) = pieceCount m →
  ps ≠ [] →
  (∀ n, (0 < n < length ps)%nat → checkDone (stored m (take n rs)) = false) →
  checkDone (stored m rs) = true →
  (length ps ≤ fuel)%nat →
  Begin_loop fuel m
  = (Return (checked (infoHash m) (pieces (stored m rs))),
     stored (set_conn (Some (advance rest c)) m) rs).
Proof.
  revert rs. induction ps as [|p ps IH]; intros rs fuel m c rest Hc Hin Hsmall Hrs Hlen
    Hne Hbefore Hdone Hfuel; [done|].
  unfold replies in Hrs. apply Forall2_cons_inv_l in Hrs as (r & rs' & [Hp Hr] & Hrs & ->).
  apply Forall_cons in Hsmall as [Hsm Hsmall].
  destruct fuel as [|fuel]; [cbn in Hfuel; lia|].
  cbn [Begin_loop]. rewrite bind_run.
  cbn [fmap list_fmap concat] in Hin. rewrite <- app_assoc in Hin.
  rewrite (Begin_turn_reply m c p _ r Hc Hin) by done.
  set (c1 := mkConn _ _ _ _ _). set (m1 := stored (set_conn (Some c1) m) [r]).
  rewrite Begin_check_run.
  destruct ps as [|p' ps].
  - apply Forall2_nil_inv_l in Hrs as ->.
    change (checkDone m1) with (checkDone (stored m [r])). rewrite Hdone. cbn [negb].
    change (pieces m1) with (pieces (stored m [r])).
    change (infoHash m1) with (infoHash m).
    unfold checked. by destruct (Equal _ _).
  - assert (checkDone m1 = false) as Hnot.
    { change (checkDone m1) with (checkDone (stored m (take 1 (r :: rs')))).
      apply Hbefore. cbn [length]. lia. }
    rewrite Hnot. cbn [negb].
    rewrite (IH rs' fuel m1 c1 rest); try done.
    + cbn [length] in *. unfold len in *. cbn. rewrite length_insert. exact Hlen.
    + intros n Hn.
      change (checkDone (stored m1 (take n rs')))
        with (checkDone (stored m (take (S n) (r :: rs')))).
      apply Hbefore. cbn [length] in *. lia.
    + cbn [length] in *. lia.
Qed.

Lemma piece_frames_length (ps : list (list byte)) :
  (length ps ≤ length (concat (piece_frame <$> ps)))%nat.
Proof.
  induction ps as [|p ps IH]; [done|].
  rewrite fmap_cons. cbn [concat length]. rewrite length_app.
  unfold piece_frame at 1, frame. rewrite length_app, PutUint32_length. lia.
Qed.

End Begin_replies.

Section last_write_wins.
Context `{Packages}.

Lemma piece_reply_check_sound (payload body : list byte) (k : Z) :
  piece_reply_check payload k body = true → piece_reply_of payload k body.
Proof.
  unfold piece_reply_check, piece_reply_of. cbv zeta.
  intros [Hi Hd]%andb_prop. apply negb_true_iff, Z.eqb_neq in Hi. split; [done|].
  destruct (bencode_Decode _) as [[dict [e|]]|]; [done| |done].
  exists dict. split; [done|].
  destruct (dict !! "piece") as [[]|]; try done.
  destruct (dict !! "msg_type") as [[| |z0| | | | |]|]; try done.
  destruct z0 as [|[]|]; try done.
  apply andb_prop in Hd as [Hk Hb]. apply bool_decide_eq_true in Hb.
  apply Z.eqb_eq in Hk. by subst.
Qed.

Lemma replies_range (m : Meta) (ps : list (list byte)) (rs : list (Z * list byte)) :
  len (pieces m) = pieceCount m → replies m ps rs →
  Forall (λ r, 0 ≤ r.1 < len (pieces m)) rs.
Proof.
  intros Hlen Hrs. unfold replies in Hrs. rewrite Hlen.
  induction Hrs as [|p r ps rs [_ Hr] _ IH]; by constructor.
Qed.

Lemma replies_take (m : Meta) (ps : list (list byte)) (rs : list (Z * list byte)) (n : nat) :
  replies m ps rs → replies m (take n ps) (take n rs).
Proof. apply Forall2_take. Qed.

Lemma stored_complete (m : Meta) (ps : list (list byte)) (rs : list (Z * list byte)) :
  len (pieces m) = pieceCount m → replies m ps rs →
  (∀ k, 0 ≤ k < pieceCount m → is_Some (last_body k rs)) →
  pieces (stored m rs)
  = (λ k, Some (default [] (last_body k rs))) <$> seqZ 0 (pieceCount m).
Proof.
  intros Hlen Hrs Hall. cbn [stored pieces set_pieces]. rewrite <- Hlen.
  apply store_all_complete; [by eapply replies_range|]. by rewrite Hlen.
Qed.

Lemma stored_agree (m : Meta) (ps ps' : list (list byte)) (rs rs' : list (Z * list byte)) :
  len (pieces m) = pieceCount m → replies m ps rs → replies m ps' rs' →
  (∀ k, 0 ≤ k < pieceCount m → is_Some (last_body k rs)) →
  (∀ k, 0 ≤ k < pieceCount m → last_body k rs' = last_body k rs) →
  stored m rs' = stored m rs.
Proof.
  intros Hlen Hrs Hrs' Hall Hsame.
  assert (pieces (stored m rs') = pieces (stored m rs)) as E.
  { rewrite (stored_complete m ps rs), (stored_complete m ps' rs'); try done.
    - apply list_fmap_ext. intros i k Hk. apply lookup_seqZ in Hk as [-> Hi].
      rewrite Hsame; [done|lia].
    - intros k Hk. rewrite Hsame; auto. }
  unfold stored in *. cbn [pieces set_pieces] in E. by rewrite E.
Qed.

(** Replies that cover every index leave a table that passes
    [checkDone]. *)
Lemma covered_checkDone (m : Meta) (ps : list (list byte)) (rs : list (Z * list byte)) :
  len (pieces m) = pieceCount m → replies m ps rs →
  (∀ k, 0 ≤ k < pieceCount m → is_Some (last_body k rs)) →
  checkDone (stored m rs) = true.
Proof.
  intros Hlen Hrs Hall. apply checkDone_bodies.
  exists ((λ k, default [] (last_body k rs)) <$> seqZ 0 (pieceCount m)).
  rewrite (stored_complete m ps rs) by done. by rewrite <- list_fmap_compose.
Qed.

(** A table with an empty slot does not pass [checkDone]. *)
Lemma empty_slot_not_done (m : Meta) (i : nat) :
  pieces m !! i = Some None → checkDone m = false.
Proof.
  unfold checkDone. revert i. induction (pieces m) as [|x t IH]; intros i; [done|].
  destruct i as [|i]; cbn.
  - by intros [= ->].
  - intros Hi. rewrite (IH i Hi). apply andb_false_r.
Qed.

(** On an empty table, replies for distinct indices that cover every
    index complete it with the last of them, and not before. *)
Lemma distinct_replies_complete_last (m : Meta) (ps : list (list byte))
    (rs : list (Z * list byte)) (j : nat) :
  len (pieces m) = pieceCount m → replies m ps rs →
  pieces m = replicate (Z.to_nat (pieceCount m)) None →
  NoDup rs.*1 → (j < length rs)%nat →
  checkDone (stored m (take j rs)) = false.
Proof.
  intros Hlen Hrs Hfresh Hnd Hj.
  destruct (lookup_lt_is_Some_2 rs j Hj) as [r Hr].
  pose proof (replies_range m ps rs Hlen Hrs) as Hrange.
  pose proof (proj1 (Forall_lookup _ _) Hrange j r Hr) as Hk. cbn in Hk.
  apply (empty_slot_not_done _ (Z.to_nat r.1)).
  cbn [stored pieces set_pieces]. rewrite store_all_lookup; [|..|lia].
  2:{ apply Forall_take. exact Hrange. }
  assert (last_body r.1 (take j rs) = None) as ->.
  { apply last_body_None. intros Hin.
    pose proof (take_drop_middle rs j r Hr) as Hsplit.
    rewrite <- Hsplit, fmap_app, fmap_cons in Hnd.
    apply NoDup_app in Hnd as (_ & Hdisj & _).
    apply (Hdisj _ Hin). left. }
  rewrite Hfresh. apply lookup_replicate_2. unfold len in *. lia.
Qed.

(** Among the prefixes of a list the last of which passes a test, there
    is a first that does. *)
Lemma first_passing (P : nat → bool) (N : nat) :
  (0 < N)%nat → P N = true →
  ∃ n, (0 < n ≤ N)%nat ∧ P n = true ∧ ∀ j, (0 < j < n)%nat → P j = false.
Proof.
  induction N as [N IH] using lt_wf_ind. intros HN HP.
  destruct (decide (Exists (λ j, P j = true) (seq 1 (N - 1)))) as [Hex|Hno].
  - apply Exists_exists in Hex as (j & Hj & HPj). apply elem_of_seq in Hj.
    destruct (IH j) as (n & Hn & HPn & Hleast); [lia|lia|done|].
    exists n. split; [lia|done].
  - exists N. split; [lia|]. split; [done|]. intros j Hj.
    destruct (P j) eqn:HPj; [|done]. destruct Hno.
    apply Exists_exists. exists j. split; [|done]. apply elem_of_seq. lia.
Qed.

(** [Begin] on a stream of valid replies: it stops at the first reply
    that completes the table and leaves the later ones unread. *)
Lemma Begin_first_completion (m : Meta) (c : Conn) (ps : list (list byte))
    (rs : list (Z * list byte)) (rest : list byte) (n : nat) :
  len (pieces m) = pieceCount m → conn m = Some c → replies m ps rs →
  incoming c = concat (piece_frame <$> ps) ++ rest →
  Forall (λ p, len p + 2 < 2 ^ 32) ps →
  (0 < n ≤ length ps)%nat →
  checkDone (stored m (take n rs)) = true →
  (∀ j, (0 < j < n)%nat → checkDone (stored m (take j rs)) = false) →
  ∃ s w,
    Begin m
    = (Return (checked (infoHash m) (pieces (stored m (take n rs)))),
       with_writes s w
         (stored (set_conn (Some (advance (concat (piece_frame <$> drop n ps) ++ rest) c))
                    m) (take n rs))).
Proof.
  intros Hlen Hc Hrs Hin Hsmall Hn Hdone Hbefore.
  destruct (Begin_outcome m c Hc) as (s & w & -> & _). exists s, w.
  rewrite <- (take_drop n ps), fmap_app, concat_app, <- app_assoc in Hin.
  rewrite (Begin_loop_replies (take n ps) (take n rs) _ m c
             (concat (piece_frame <$> drop n ps) ++ rest)); try done.
  - by apply Forall_take.
  - by apply replies_take.
  - destruct ps; [cbn in Hn; lia|]. destruct n; [lia|done].
  - intros j Hj. rewrite length_take in Hj. rewrite take_take.
    replace (j `min` n)%nat with j by lia. apply Hbefore. lia.
  - pose proof (piece_frames_length (take n ps)) as Hl.
    rewrite Hin, length_app. lia.
Qed.

End last_write_wins.

(** C8 (counterexample). Two pieces and three valid replies that cover
    both indices, in two orders with the same last body for each index.
    Sent as "B" for piece 1, then "x" and "A" for piece 0, the table is
    complete with the second reply: [Begin] checks "xB" and never reads
    "A".  Sent with piece 1 last, [Begin] returns "AB". *)
Lemma C8_last_write_wins_counterexample :
  let hash := SHA1.Sum (bytes_of_string "AB") in
  let session := NewMeta "-DS0001-123456789012" "127.0.0.1:6881" hash in
  let connected stream :=
    (Connect (inl (Demo.peer (MakePreHeader ++ hash
                              ++ bytes_of_string "-PEER01-abcdefghijkl"
                              ++ Demo.ext_reply 16385 ++ stream))) session).2 in
  let B1 := Demo.piece_reply 1 (bytes_of_string "B") in
  let x0 := Demo.piece_reply 0 (bytes_of_string "x") in
  let A0 := Demo.piece_reply 0 (bytes_of_string "A") in
  let first := [(1, bytes_of_string "B"); (0, bytes_of_string "x");
                (0, bytes_of_string "A")] in
  let second := [(0, bytes_of_string "x"); (0, bytes_of_string "A");
                 (1, bytes_of_string "B")] in
  pieceCount (connected []) = 2
  ∧ first ≡ₚ second
  ∧ last_body 0 first = Some (bytes_of_string "A")
  ∧ last_body 0 second = Some (bytes_of_string "A")
  ∧ last_body 1 first = Some (bytes_of_string "B")
  ∧ last_body 1 second = Some (bytes_of_string "B")
  ∧ (Begin (connected (B1 ++ x0 ++ A0))).1 = Return (None, Some e_checksum)
  ∧ (incoming <$> conn (Begin (connected (B1 ++ x0 ++ A0))).2) = Some A0
  ∧ (Begin (connected (x0 ++ A0 ++ B1))).1 = Return (Some (bytes_of_string "AB"), None).
Proof.
  cbv zeta. split; [vm_compute; reflexivity|]. split.
  { etrans; [apply Permutation_swap|]. apply Permutation_skip, Permutation_swap. }
  repeat (split; [vm_compute; reflexivity|]). vm_compute. reflexivity.
Qed.

(** C8 (amended). A valid reply is stored at its index in place of what
    the slot held, without an error.  [Begin] returns with the first
    reply that completes the table: the bytes it checks are those of the
    last reply for each index among the replies up to that one, and of
    what the table held before for the others; the replies that follow
    stay unread.  Replies that cover every index do complete the table.
    On an empty table, replies for distinct indices complete it with the
    last of them, so that [Begin] returns the same in whatever order they
    arrive; replies that repeat an index can complete it earlier. *)
Theorem C8_last_write_wins `{Packages}
    (m : Meta) (c : Conn) (ps : list (list byte)) (rs : list (Z * list byte))
    (rest : list byte) :
  len (pieces m) = pieceCount m →
  conn m = Some c →
  replies m ps rs →
  incoming c = concat (piece_frame <$> ps) ++ rest →
  Forall (λ p, len p + 2 < 2 ^ 32) ps →
  (∀ p k body, piece_reply_of p k body → 0 ≤ k < pieceCount m →
     readOnePiece p m
     = (Return None, set_pieces (<[Z.to_nat k := Some body]> (pieces m)) m))
  ∧ (∀ n, (0 < n ≤ length ps)%nat →
       checkDone (stored m (take n rs)) = true →
       (∀ j, (0 < j < n)%nat → checkDone (stored m (take j rs)) = false) →
       ∃ bodies ret err,
         pieces (Begin m).2 = Some <$> bodies
         ∧ (∀ k, 0 ≤ k < pieceCount m →
              bodies !! Z.to_nat k
              = match last_body k (take n rs) with
                | Some b => Some b
                | None => pieces m !! Z.to_nat k ≫= id
                end)
         ∧ (Begin m).1 = Return (ret, err)
         ∧ (if bool_decide (sha1_Sum (concat bodies) = infoHash m)
            then default [] ret = concat bodies ∧ err = None
            else ret = None ∧ err = Some e_checksum)
         ∧ (incoming <$> conn (Begin m).2)
           = Some (concat (piece_frame <$> drop n ps) ++ rest))
  ∧ (ps ≠ [] → (∀ k, 0 ≤ k < pieceCount m → is_Some (last_body k rs)) →
       ∃ n, (0 < n ≤ length ps)%nat
         ∧ checkDone (stored m (take n rs)) = true
         ∧ ∀ j, (0 < j < n)%nat → checkDone (stored m (take j rs)) = false)
  ∧ (ps ≠ [] → pieces m = replicate (Z.to_nat (pieceCount m)) None →
       NoDup rs.*1 → (∀ k, 0 ≤ k < pieceCount m → is_Some (last_body k rs)) →
       (∀ j, (j < length ps)%nat → checkDone (stored m (take j rs)) = false)
       ∧ ∀ c' ps' rs' rest',
           replies m ps' rs' → rs' ≡ₚ rs →
           incoming c' = concat (piece_frame <$> ps') ++ rest' →
           Forall (λ p, len p + 2 < 2 ^ 32) ps' →
           (Begin (set_conn (Some c') m)).1 = (Begin m).1).
Proof.
  intros Hlen Hc Hrs Hin Hsmall.
  pose proof (Forall2_length _ _ _ Hrs) as Hlens.
  split_and!.
  - intros p k body Hp Hk. apply readOnePiece_store; [done|done|lia].
  - intros n Hn Hdone Hbefore.
    destruct (Begin_first_completion m c ps rs rest n) as (s & w & ->); try done.
    cbn [fst snd].
    pose proof Hdone as [bodies Hb]%checkDone_bodies.
    cbn [stored pieces set_pieces] in Hb.
    assert (∀ k, 0 ≤ k < pieceCount m →
              bodies !! Z.to_nat k
              = match last_body k (take n rs) with
                | Some b => Some b
                | None => pieces m !! Z.to_nat k ≫= id
                end) as Hslots.
    { intros k Hk.
      assert (store_all (pieces m) (take n rs) !! Z.to_nat k
              = match last_body k (take n rs) with
                | Some b => Some (Some b)
                | None => pieces m !! Z.to_nat k
                end) as Hlook.
      { apply store_all_lookup; [|lia]. apply Forall_take. by eapply replies_range. }
      rewrite Hb, list_lookup_fmap in Hlook.
      destruct (last_body k (take n rs)) as [b|].
      - destruct (bodies !! Z.to_nat k); by simplify_eq/=.
      - rewrite <- Hlook. by destruct (bodies !! Z.to_nat k). }
    exists bodies. unfold checked. cbn [stored pieces set_pieces].
    rewrite Hb, Join_bodies. unfold Equal.
    case_bool_decide; eexists _, _;
      (split_and!;
       [exact Hb|exact Hslots|reflexivity|first [apply Join_bodies|reflexivity]
       |reflexivity|reflexivity]).
  - intros Hne Hall.
    destruct (first_passing (λ j, checkDone (stored m (take j rs))) (length ps))
      as (n & Hn & Hdone & Hbefore).
    + destruct ps; [done|cbn; lia].
    + rewrite Hlens, firstn_all. by apply (covered_checkDone m ps rs).
    + eauto.
  - intros Hne Hfresh Hnd Hall.
    assert (∀ ps0 rs0, replies m ps0 rs0 → NoDup rs0.*1 →
              ∀ j, (j < length ps0)%nat → checkDone (stored m (take j rs0)) = false)
      as Hlast.
    { intros ps0 rs0 Hrs0 Hnd0 j Hj.
      apply (distinct_replies_complete_last m ps0 rs0 j); try done.
      by rewrite <- (Forall2_length _ _ _ Hrs0). }
    split; [by apply Hlast|].
    intros c' ps' rs' rest' Hrs' Hperm Hin' Hsmall'.
    pose proof (Forall2_length _ _ _ Hrs') as Hlens'.
    assert (length ps' = length ps) as Hsame by (rewrite Hlens', Hlens; by rewrite Hperm).
    assert (0 < length ps)%nat as Hpos by (destruct ps; [done|cbn; lia]).
    assert (∀ k, last_body k rs' = last_body k rs) as Hbodies.
    { intros k. symmetry. by apply last_body_Permutation. }
    assert (checkDone (stored m rs) = true) as Hd
      by (by apply (covered_checkDone m ps rs)).
    assert (checkDone (stored m rs') = true) as Hd'.
    { apply (covered_checkDone m ps' rs'); try done.
      intros k Hk. rewrite Hbodies. auto. }
    destruct (Begin_first_completion m c ps rs rest (length ps) Hlen Hc Hrs Hin Hsmall)
      as (s & w & ->).
    { lia. }
    { by rewrite Hlens, firstn_all. }
    { intros j Hj. apply (Hlast ps rs); [done|done|lia]. }
    destruct (Begin_first_completion (set_conn (Some c') m) c' ps' rs' rest' (length ps')
                Hlen eq_refl Hrs' Hin' Hsmall') as (s' & w' & ->).
    { lia. }
    { rewrite Hlens', firstn_all. exact Hd'. }
    { intros j Hj. apply (Hlast ps' rs'); [done|by rewrite Hperm|lia]. }
    cbn [fst]. rewrite Hlens, Hlens', !firstn_all.
    change (pieces (stored (set_conn (Some c') m) rs')) with (pieces (stored m rs')).
    change (infoHash (set_conn (Some c') m)) with (infoHash m).
    by rewrite (stored_agree m ps ps' rs rs').
Qed.

(** Two pieces: piece 1 first, then piece 0 twice with different bytes.
    The second reply completes the table and the third stays unread. *)
Lemma C8_last_write_wins_witness :
  let B1 := Demo.piece_dict 1 1 ++ bytes_of_string "B" in
  let x0 := Demo.piece_dict 1 0 ++ bytes_of_string "x" in
  let A0 := Demo.piece_dict 1 0 ++ bytes_of_string "A" in
  let m := (onExtHandshake (Demo.ext_dict 16385)
              (set_conn (Some (Demo.peer (concat (piece_frame <$> [B1; x0; A0]))))
                 Demo.session)).2 in
  ∃ bodies,
    pieces (Begin m).2 = Some <$> bodies
    ∧ bodies !! 0%nat = Some (bytes_of_string "x")
    ∧ bodies !! 1%nat = Some (bytes_of_string "B")
    ∧ (incoming <$> conn (Begin m).2) = Some (piece_frame A0).
Proof.
  cbv zeta.
  set (ps := [Demo.piece_dict 1 1 ++ bytes_of_string "B";
              Demo.piece_dict 1 0 ++ bytes_of_string "x";
              Demo.piece_dict 1 0 ++ bytes_of_string "A"]).
  set (m := (onExtHandshake (Demo.ext_dict 16385)
               (set_conn (Some (Demo.peer (concat (piece_frame <$> ps)))) Demo.session)).2).
  set (rs := [(1, bytes_of_string "B"); (0, bytes_of_string "x"); (0, bytes_of_string "A")]).
  assert (len (pieces m) = pieceCount m) as Hlen by (vm_compute; reflexivity).
  assert (conn m = Some (Demo.peer (concat (piece_frame <$> ps)))) as Hc
    by (vm_compute; reflexivity).
  assert (replies m ps rs) as Hrs.
  { unfold replies, ps, rs.
    apply Forall2_cons; split;
      [split; [apply piece_reply_check_sound|]; vm_compute; done|].
    apply Forall2_cons; split;
      [split; [apply piece_reply_check_sound|]; vm_compute; done|].
    apply Forall2_cons; split;
      [split; [apply piece_reply_check_sound|]; vm_compute; done|].
    apply Forall2_nil_2. }
  destruct (C8_last_write_wins m _ ps rs [] Hlen Hc Hrs) as (_ & Hfirst & _).
  { cbn [Demo.peer incoming]. by rewrite app_nil_r. }
  { unfold ps. repeat (apply Forall_cons; split; [vm_compute; reflexivity|]).
    apply Forall_nil_2. }
  destruct (Hfirst 2%nat) as (bodies & ret & err & Hb & Hlook & _ & _ & Hleft).
  { cbn. lia. }
  { vm_compute. reflexivity. }
  { intros j Hj. assert (j = 1%nat) as -> by lia. vm_compute. reflexivity. }
  assert (pieceCount m = 2) as Hcount by (vm_compute; reflexivity).
  rewrite Hcount in Hlook.
  exists bodies. split; [exact Hb|]. split; [|split].
  - etrans; [exact (Hlook 0 ltac:(lia))|]. vm_compute. reflexivity.
  - etrans; [exact (Hlook 1 ltac:(lia))|]. vm_compute. reflexivity.
  - rewrite Hleft. vm_compute. reflexivity.
Defined.

(** ** The extension handshake message *)

(** C3 (failing input: every session).  [extHandShake] builds the message
    20, 0, bencoded dictionary, and then passes that byte slice through
    [bencode.Encode] once more before framing it.  The frame written holds
    the encoder's output for the byte slice, with its length in front; no
    bencode output begins with the byte 20, so the payload is not the
    message itself.  The encoder of the package has no case for a byte
    slice and writes nothing: the frame is the four bytes of the length
    0. *)
Theorem C3_extHandShake_encodes_twice `{Packages} (m : Meta) (c : Conn) :
  conn m = Some c →
  (conn_Write ext_written c).1 = None →
  head (bencode_Encode (Bytes ext_message)) ≠ Some Byte.x14 →
  let wrapped := bencode_Encode (Bytes ext_message) in
  ext_message
  = [Byte.x14; Byte.x00]
    ++ bencode_Encode (Map {[ "m" := Map {[ "ut_metadata" := Int 1 ]} ]})
  ∧ (∃ c', conn (extHandShake m).2 = Some c'
       ∧ sent c' = sent c ++ [PutUint32 (len wrapped mod 2 ^ 32) ++ wrapped])
  ∧ wrapped ≠ ext_message.
Proof.
  intros Hc Hw Hhead wrapped. split; [done|]. split.
  - destruct (extHandShake_effect m c Hc) as (o & m' & c' & Hrun & Hc' & _ & Hs).
    rewrite Hrun. cbn [snd]. exists c'. split; [done|].
    destruct Hs as [Hs|Hs]; [|exact Hs].
    unfold extHandShake in Hrun. fold ext_message in Hrun.
    rewrite bind_run, (WriteTo_run _ _ c Hc) in Hrun. cbv zeta in Hrun.
    fold ext_written in Hrun. rewrite Hw in Hrun.
    cbv beta iota delta [fmap option_fmap option_map] in Hrun.
    destruct (conn_Write_sent ext_written c) as [[_ Hsent]|[Hbad _]]; [|done].
    set (c1 := (conn_Write ext_written c).2) in *.
    rewrite bind_run in Hrun.
    destruct (ReadN_effect (set_conn (Some c1) m) c1 eq_refl)
      as (r & c2 & Hr & _ & Hs2 & _).
    rewrite Hr in Hrun. cbn [set_conn conn] in Hrun.
    assert (conn m' = Some c2) as Hc2.
    { destruct r as [data [e|]]; [by injection Hrun as _ <-|].
      unfold index, slice_from in Hrun. go_unfold.
      repeat case_match; simplify_eq; try done.
      all: match goal with
           | Hon : onExtHandshake _ _ = _ |- _ =>
               by apply onExtHandshake_conn in Hon as [-> _]
           end. }
    assert (c' = c2) as -> by congruence.
    rewrite Hs2, Hsent in Hs. exfalso.
    apply (f_equal length) in Hs. rewrite length_app in Hs. cbn in Hs. lia.
  - intros Heq. apply Hhead. fold wrapped. by rewrite Heq.
Qed.

Lemma C3_extHandShake_encodes_twice_witness :
  let m := set_conn (Some (Demo.peer (Demo.ext_reply 14))) Demo.session in
  ∃ c', conn (extHandShake m).2 = Some c'
    ∧ sent c' = [[Byte.x00; Byte.x00; Byte.x00; Byte.x00]]
    ∧ bencode_Encode (Bytes ext_message) = []
    ∧ ext_message ≠ [].
Proof.
  cbv zeta.
  destruct (C3_extHandShake_encodes_twice
              (set_conn (Some (Demo.peer (Demo.ext_reply 14))) Demo.session)
              (Demo.peer (Demo.ext_reply 14)) eq_refl eq_refl)
    as (_ & (c' & Hc' & Hs) & Hne).
  { vm_compute. discriminate. }
  exists c'. split; [exact Hc'|]. split; [|split].
  - rewrite Hs. vm_compute. reflexivity.
  - reflexivity.
  - vm_compute. discriminate.
Defined.

(** ** The reference packages and the session on small inputs *)

Example SHA1_test_vectors :
  EncodeToString (SHA1.Sum (bytes_of_string "abc"))
  = "a9993e364706816aba3e25717850c26c9cd0d89d"
  ∧ EncodeToString (SHA1.Sum [])
    = "da39a3ee5e6b4b0d3255bfef95601890afd80709".
Proof. vm_compute. done. Qed.

Example Bencode_round_trip :
  string_of_bytes (Bencode.Encode (Map {[ "msg_type" := Int 0; "piece" := Int 7 ]}))
  = "d8:msg_typei0e5:piecei7ee"
  ∧ Demo.dict_of (bytes_of_string "d8:msg_typei0e5:piecei7ee") !! "piece"
    = Some (Int64 7).
Proof. vm_compute. done. Qed.

(** The corners of the package: no input decodes to the empty map, "de"
    is an error, an integer that does not parse is a nil entry, a string
    length beyond what [make] accepts is a panic, and a byte slice is
    encoded as nothing. *)
Example Bencode_corners :
  Bencode.Decode [] = Some (∅, None)
  ∧ Bencode.Decode (bytes_of_string "de") = Some (∅, Some io_EOF)
  ∧ Bencode.Decode (bytes_of_string "d1:aixee") = Some ({[ "a" := Nil ]}, None)
  ∧ Bencode.Decode (bytes_of_string "d9223372036854775807:ee") = None
  ∧ Bencode.Encode (Bytes (bytes_of_string "abc")) = [].
Proof. vm_compute. done. Qed.

(** A reject message, and an index past the end, are answered with the
    two errors of [readOnePiece]. *)
Example readOnePiece_rejects :
  let m := (onExtHandshake (Demo.ext_dict 14) Demo.session).2 in
  readOnePiece (Demo.piece_dict 2 0) m
  = (Return (Some (errors_New "piece type error")), m)
  ∧ readOnePiece (Demo.piece_dict 1 1 ++ Demo.metadata) m
    = (Return (Some (errors_New "piece num error")), m)
  ∧ readOnePiece (bytes_of_string "d8:msg_typei1e") m
    = (Return (Some (errors_New "ee == 1")), m).
Proof. vm_compute. done. Qed.

(** Three pieces that arrive as 2, 0, 1, with piece 0 sent twice on the
    way; [Begin] returns them in index order. *)
Example Begin_out_of_order :
  let data := bytes_of_string "d4:name7:trilogye" in
  let m := NewMeta "-DS0001-123456789012" "127.0.0.1:6881" (SHA1.Sum data) in
  let stream :=
    MakePreHeader ++ SHA1.Sum data ++ bytes_of_string "-PEER01-abcdefghijkl"
    ++ Demo.ext_reply 32868
    ++ Demo.piece_reply 2 (bytes_of_string "ilogye")
    ++ Demo.piece_reply 0 (bytes_of_string "??????")
    ++ Demo.piece_reply 0 (bytes_of_string "d4:nam")
    ++ Demo.piece_reply 1 (bytes_of_string "e7:tr") in
  let connected := (Connect (inl (Demo.peer stream)) m).2 in
  pieceCount connected = 3
  ∧ (Begin connected).1 = Return (Some data, None).
Proof. vm_compute. done. Qed.

(** * Further properties of the code *)

(** ** Frames *)

Lemma Uint32_nonneg (b : list byte) : 0 ≤ Uint32 b.
Proof.
  unfold Uint32. destruct b as [|b0 [|b1 [|b2 [|b3 [|]]]]]; try done.
  pose proof (Z_of_byte_range b0). pose proof (Z_of_byte_range b1).
  pose proof (Z_of_byte_range b2). pose proof (Z_of_byte_range b3).
  repeat (apply Z.lor_nonneg; split); try apply Z.shiftl_nonneg; lia.
Qed.

Lemma ReadFull_short (n : Z) (c : Conn) :
  len (incoming c) < n →
  ReadFull n c = ((len (incoming c), incoming c, Some (read_error c)), advance [] c).
Proof.
  intros Hn. unfold ReadFull. pose proof (len_nonneg (incoming c)).
  destruct (n <=? 0) eqn:E1; [lia|].
  destruct (n <=? len (incoming c)) eqn:E2; [lia|]. done.
Qed.

Lemma ReadFull_cases (n : Z) (c : Conn) :
  (n ≤ 0 ∧ ReadFull n c = ((0, [], None), c))
  ∨ (0 < n ≤ len (incoming c)
     ∧ ReadFull n c
       = ((n, take (Z.to_nat n) (incoming c), None),
          advance (drop (Z.to_nat n) (incoming c)) c))
  ∨ (len (incoming c) < n
     ∧ ReadFull n c = ((len (incoming c), incoming c, Some (read_error c)), advance [] c)).
Proof.
  destruct (Z.le_gt_cases n 0) as [H0|H0].
  { left. split; [done|]. unfold ReadFull. destruct (n <=? 0) eqn:E; [done|lia]. }
  destruct (Z.le_gt_cases n (len (incoming c))) as [H1|H1].
  - right. left. split; [lia|]. by apply ReadFull_ok.
  - right. right. split; [done|]. by apply ReadFull_short.
Qed.

Lemma advance_id (c : Conn) : advance (incoming c) c = c.
Proof. by destruct c. Qed.

(** All that [ReadN] can do. *)
Lemma ReadN_cases (m : Meta) (c : Conn) :
  conn m = Some c →
  (len (incoming c) < 4
   ∧ ReadN m = (Return (None, Some (read_error c)), set_conn (Some (advance [] c)) m))
  ∨ (∃ lenb data rest,
       incoming c = lenb ++ data ++ rest ∧ length lenb = 4%nat
       ∧ Uint32 lenb = len data
       ∧ ReadN m = (Return (Some data, None), set_conn (Some (advance rest c)) m))
  ∨ (∃ lenb part,
       incoming c = lenb ++ part ∧ length lenb = 4%nat ∧ len part < Uint32 lenb
       ∧ ReadN m = (Return (None, Some (read_error (advance part c))),
                    set_conn (Some (advance [] c)) m)).
Proof.
  intros Hc. unfold ReadN. rewrite bind_run, (on_conn_run _ _ c Hc).
  destruct (ReadFull_cases 4 c) as [[H4 _]|[[H4 E]|[H4 E]]]; [lia| |].
  2:{ left. split; [done|]. by rewrite E. }
  rewrite E. cbn [fst snd]. change (Z.to_nat 4) with 4%nat.
  set (lenb := take 4 (incoming c)). set (tail := drop 4 (incoming c)).
  assert (incoming c = lenb ++ tail) as Hin by (symmetry; apply take_drop).
  assert (length lenb = 4%nat) as Hl.
  { unfold lenb. rewrite length_take. unfold len in H4. lia. }
  rewrite bind_run, (on_conn_run _ _ (advance tail c)) by done.
  pose proof (Uint32_nonneg lenb) as Hnn.
  destruct (ReadFull_cases (Uint32 lenb) (advance tail c)) as [[Hn E']|[[Hn E']|[Hn E']]];
    rewrite E'; cbn [fst snd set_conn conn advance incoming closes_with sent
                       write_results closed] in *.
  - right. left. exists lenb, [], tail.
    split; [done|]. split; [done|]. split; [unfold len; cbn; lia|]. done.
  - right. left. exists lenb, (take (Z.to_nat (Uint32 lenb)) tail),
      (drop (Z.to_nat (Uint32 lenb)) tail).
    rewrite take_drop. split_and!; try done.
    unfold len in *. rewrite length_take. lia.
  - right. right. exists lenb, tail. split_and!; done.
Qed.

(** X1. What [WriteTo] writes for [data], [ReadN] reads back as [data]
    from the other end, and leaves what follows it in the stream. *)
Theorem X1_WriteTo_ReadN_round_trip (data : list byte) (m m1 : Meta) (c : Conn) :
  len data < 2 ^ 32 →
  conn m = Some c →
  WriteTo data m = (Return None, m1) →
  ∃ c1 w,
    conn m1 = Some c1 ∧ sent c1 = sent c ++ [w]
    ∧ len w = 4 + len data
    ∧ ∀ (m2 : Meta) (c2 : Conn) (rest : list byte),
        conn m2 = Some c2 → incoming c2 = w ++ rest →
        ReadN m2 = (Return (Some data, None), set_conn (Some (advance rest c2)) m2).
Proof.
  intros Hsmall Hc Hw. rewrite (WriteTo_run _ _ c Hc) in Hw. cbv zeta in Hw.
  pose proof (len_nonneg data) as Hnn.
  rewrite Z.mod_small in Hw by lia.
  destruct (conn_Write_sent (PutUint32 (len data) ++ data) c) as [[Hok Hs]|[Hbad _]].
  2:{ destruct (conn_Write _ c).1; [done|by destruct Hbad]. }
  injection Hw as _ <-.
  eexists _, (PutUint32 (len data) ++ data). split; [reflexivity|]. split; [exact Hs|].
  split.
  { unfold len. rewrite length_app, PutUint32_length. lia. }
  intros m2 c2 rest Hc2 Hin.
  apply (ReadN_frame m2 c2 (PutUint32 (len data)) data rest);
    [done|by rewrite Hin, <- app_assoc|apply PutUint32_length|apply Uint32_PutUint32; lia].
Qed.

Lemma X1_WriteTo_ReadN_round_trip_witness :
  let m := set_conn (Some (Demo.peer [])) Demo.session in
  let w := PutUint32 14 ++ Demo.metadata in
  (WriteTo Demo.metadata m).1 = Return None
  ∧ (ReadN (set_conn (Some (Demo.peer (w ++ [Byte.x07]))) Demo.session)).1
    = Return (Some Demo.metadata, None).
Proof.
  cbv zeta.
  destruct (X1_WriteTo_ReadN_round_trip Demo.metadata
              (set_conn (Some (Demo.peer [])) Demo.session)
              (WriteTo Demo.metadata (set_conn (Some (Demo.peer [])) Demo.session)).2
              (Demo.peer []))
    as (c1 & w & Hc1 & Hs & Hl & Hread).
  - vm_compute. reflexivity.
  - reflexivity.
  - vm_compute. reflexivity.
  - split; [vm_compute; reflexivity|].
    assert (w = PutUint32 14 ++ Demo.metadata) as ->.
    { revert Hc1 Hs. vm_compute. intros [= <-] [= <-]. reflexivity. }
    rewrite (Hread (set_conn (Some (Demo.peer ((PutUint32 14 ++ Demo.metadata)
                                                  ++ [Byte.x07]))) Demo.session)
               (Demo.peer ((PutUint32 14 ++ Demo.metadata) ++ [Byte.x07]))
               [Byte.x07] eq_refl eq_refl).
    reflexivity.
Defined.

(** X2. [ReadN] never panics on a connected session.  It returns a frame
    exactly when the stream starts with four length bytes followed by as
    many bytes as they say, and then leaves the rest of the stream; on a
    stream that ends inside the length or inside the payload it returns
    nil and the read error, and has used the stream up. *)
Theorem X2_ReadN_whole_frames_only (m : Meta) (c : Conn) :
  conn m = Some c →
  (∃ r, (ReadN m).1 = Return r ∧ (is_Some r.1 ↔ r.2 = None))
  ∧ (∀ data m', ReadN m = (Return (Some data, None), m') ↔
       ∃ lenb rest, incoming c = lenb ++ data ++ rest ∧ length lenb = 4%nat
         ∧ Uint32 lenb = len data ∧ m' = set_conn (Some (advance rest c)) m)
  ∧ (len (incoming c) < 4 →
       ReadN m = (Return (None, Some (read_error c)), set_conn (Some (advance [] c)) m))
  ∧ (∀ lenb part, incoming c = lenb ++ part → length lenb = 4%nat →
       len part < Uint32 lenb →
       ReadN m = (Return (None, Some (read_error (advance part c))),
                  set_conn (Some (advance [] c)) m)).
Proof.
  intros Hc.
  assert (∀ lenb lenb' (x y : list byte), length lenb = 4%nat → length lenb' = 4%nat →
            lenb ++ x = lenb' ++ y → lenb = lenb' ∧ x = y) as Hsplit.
  { intros lenb lenb' x y H1 H2 E. apply app_inj_1 in E; [done|congruence]. }
  split_and!.
  - destruct (ReadN_cases m c Hc)
      as [[_ ->]|[(lenb & data & rest & _ & _ & _ & ->)|(lenb & part & _ & _ & _ & ->)]];
      eexists; (split; [reflexivity|]); cbn; split; intros; done || by eapply is_Some_None.
  - intros data m'. split.
    + intros Hrun. destruct (ReadN_cases m c Hc)
        as [[_ E]|[(lenb & data' & rest & Hin & Hl & Hu & E)|(lenb & part & _ & _ & _ & E)]];
        rewrite E in Hrun; try done.
      injection Hrun as -> <-. eauto 10.
    + intros (lenb & rest & Hin & Hl & Hu & ->). by apply (ReadN_frame m c lenb data rest).
  - intros Hshort. destruct (ReadN_cases m c Hc)
      as [[_ E]|[(lenb & data & rest & Hin & Hl & _)|(lenb & part & Hin & Hl & _)]];
      [done| |]; exfalso; rewrite Hin in Hshort; unfold len in Hshort;
      rewrite length_app in Hshort; lia.
  - intros lenb part Hin Hl Hshort. destruct (ReadN_cases m c Hc)
      as [[H4 _]|[(lenb' & data & rest & Hin' & Hl' & Hu & _)
                 |(lenb' & part' & Hin' & Hl' & _ & E)]].
    + exfalso. rewrite Hin in H4. unfold len in H4. rewrite length_app in H4. lia.
    + exfalso. rewrite Hin in Hin'. destruct (Hsplit _ _ _ _ Hl Hl' Hin') as [-> ->].
      rewrite Hu in Hshort. unfold len in Hshort. rewrite length_app in Hshort. lia.
    + rewrite Hin in Hin'. destruct (Hsplit _ _ _ _ Hl Hl' Hin') as [-> ->]. exact E.
Qed.

Lemma X2_ReadN_whole_frames_only_witness :
  ReadN (set_conn (Some (Demo.peer [Byte.x00; Byte.x00; Byte.x00; Byte.x05; Byte.x14]))
           Demo.session)
  = (Return (None, Some io_ErrUnexpectedEOF),
     set_conn (Some (Demo.peer [])) Demo.session).
Proof.
  destruct (X2_ReadN_whole_frames_only
              (set_conn (Some (Demo.peer [Byte.x00; Byte.x00; Byte.x00; Byte.x05; Byte.x14]))
                 Demo.session)
              (Demo.peer [Byte.x00; Byte.x00; Byte.x00; Byte.x05; Byte.x14]) eq_refl)
    as (_ & _ & _ & Hpart).
  rewrite (Hpart [Byte.x00; Byte.x00; Byte.x00; Byte.x05] [Byte.x14]);
    [reflexivity|reflexivity|reflexivity|vm_compute; reflexivity].
Defined.

(** ** The base handshake, read *)

Lemma HandShake_read_on_reply (m : Meta) (c : Conn) :
  conn m = Some c → 68 ≤ len (incoming c) → (20 ≤ length (preHeader m))%nat →
  HandShake_read m
  = (Return (handshake_verdict (preHeader m) (infoHash m) (take 68 (incoming c))),
     set_conn (Some (advance (drop 68 (incoming c)) c)) m).
Proof.
  intros Hc Hn Hpre. unfold HandShake_read. rewrite bind_run. unfold get.
  rewrite bind_run, (on_conn_run _ _ c Hc), ReadFull_ok by lia.
  change (Z.to_nat 68) with 68%nat. cbn [fst snd].
  set (res := take 68 (incoming c)).
  assert (length res = 68%nat) as Hlen.
  { unfold res. rewrite length_take. unfold len in Hn. lia. }
  destruct (lookup_lt_is_Some_2 res 25) as [r25 H25]; [lia|].
  case_bool_decide; [done|].
  rewrite bind_run, slice_to_run by (unfold len; lia).
  rewrite bind_run, slice_to_run by (unfold len; lia).
  change (Z.to_nat 20) with 20%nat.
  unfold handshake_verdict, reply_view. rewrite H25. cbn [default from_option id].
  destruct (negb (Equal (take 20 res) _)); [done|].
  rewrite bind_run, (index_run _ _ r25) by (done || lia).
  case_bool_decide as Hbit.
  { rewrite bool_decide_eq_false_2 by done. done. }
  rewrite bool_decide_eq_true_2 by done. cbn [negb].
  rewrite bind_run. unfold slice.
  destruct ((28 <? 0) || (48 <? 28) || (len res <? 48)) eqn:E.
  { unfold len in E. rewrite Hlen in E. done. }
  cbn [mret go_ret ret]. change (Z.to_nat (48 - 28)) with 20%nat.
  change (Z.to_nat 28) with 28%nat.
  by destruct (negb (Equal _ (infoHash m))).
Qed.

Lemma HandShake_read_short (m : Meta) (c : Conn) :
  conn m = Some c → len (incoming c) < 68 →
  HandShake_read m = (Return (Some (read_error c)), set_conn (Some (advance [] c)) m).
Proof.
  intros Hc Hn. unfold HandShake_read. rewrite bind_run. unfold get.
  by rewrite bind_run, (on_conn_run _ _ c Hc), ReadFull_short.
Qed.

Lemma HandShake_write (m : Meta) (c : Conn) :
  conn m = Some c →
  HandShake m = HandShake_read (set_conn (Some (conn_Write (handshake_bytes m) c).2) m).
Proof.
  intros Hc. unfold HandShake. rewrite bind_run. unfold get.
  by rewrite bind_run, (on_conn_run _ _ c Hc).
Qed.

(** X3. [HandShake] reads exactly 68 bytes.  When the stream holds that
    many it returns the verdict of its three checks and leaves every later
    byte in the stream, whatever the verdict; when the stream ends before
    it returns the read error.  It changes nothing else, and does not
    panic on a header of 20 bytes or more. *)
Theorem X3_HandShake_reads_68_bytes (m : Meta) (c : Conn) :
  conn m = Some c → (20 ≤ length (preHeader m))%nat →
  let c1 := (conn_Write (handshake_bytes m) c).2 in
  (68 ≤ len (incoming c) →
     HandShake m
     = (Return (handshake_verdict (preHeader m) (infoHash m) (take 68 (incoming c))),
        set_conn (Some (advance (drop 68 (incoming c)) c1)) m))
  ∧ (len (incoming c) < 68 →
     HandShake m = (Return (Some (read_error c)), set_conn (Some (advance [] c1)) m)).
Proof.
  intros Hc Hpre c1. rewrite (HandShake_write m c Hc). fold c1.
  destruct (conn_Write_reads (handshake_bytes m) c) as (E1 & E2 & E3). fold c1 in E1, E2, E3.
  split; intros Hn.
  - rewrite (HandShake_read_on_reply _ c1) by (done || by rewrite E1).
    cbn [preHeader infoHash set_conn]. by rewrite E1.
  - rewrite (HandShake_read_short _ c1) by (done || by rewrite E1).
    cbn [set_conn]. unfold read_error. by rewrite E1, E2.
Qed.

Lemma X3_HandShake_reads_68_bytes_witness :
  let m := set_conn (Some (Demo.peer (Demo.handshake_reply ++ [Byte.x2a]))) Demo.session in
  (HandShake m).1 = Return None
  ∧ incoming <$> conn (HandShake m).2 = Some [Byte.x2a].
Proof.
  cbv zeta.
  destruct (X3_HandShake_reads_68_bytes
              (set_conn (Some (Demo.peer (Demo.handshake_reply ++ [Byte.x2a]))) Demo.session)
              (Demo.peer (Demo.handshake_reply ++ [Byte.x2a])) eq_refl)
    as [Hfull _].
  - vm_compute. lia.
  - rewrite Hfull by (vm_compute; discriminate). clear Hfull. vm_compute.
    split; reflexivity.
Defined.

(** X4. The verdict of [HandShake] depends on the reply only through its
    first 20 bytes, bit 0x10 of byte 25, and bytes 28 to 47: the other
    reserved bits and the 20 bytes of the peer's id are never looked at. *)
Theorem X4_HandShake_ignores_peer_id (m : Meta) (c c' : Conn)
    (res res' rest rest' : list byte) :
  conn m = Some c → (20 ≤ length (preHeader m))%nat →
  incoming c = res ++ rest → incoming c' = res' ++ rest' →
  length res = 68%nat → length res' = 68%nat →
  reply_view res = reply_view res' →
  (HandShake (set_conn (Some c') m)).1 = (HandShake m).1
  ∧ ∀ id, length id = 20%nat → reply_view (take 48 res ++ id) = reply_view res.
Proof.
  intros Hc Hpre Hin Hin' Hl Hl' Hview.
  assert (∀ (x : Conn) r t, incoming x = r ++ t → length r = 68%nat →
            (HandShake (set_conn (Some x) m)).1
            = Return (handshake_verdict (preHeader m) (infoHash m) r)) as Hrun.
  { intros x r t Hx Hr.
    rewrite (HandShake_write (set_conn (Some x) m) x eq_refl).
    set (x1 := (conn_Write _ x).2).
    assert (incoming x1 = r ++ t) as Hx1.
    { unfold x1. by rewrite (proj1 (conn_Write_reads _ _)). }
    rewrite (HandShake_read_on_reply _ x1); [| done | | done].
    - cbn [fst preHeader infoHash set_conn]. rewrite Hx1.
      by rewrite <- Hr, take_app_length.
    - rewrite Hx1. unfold len. rewrite length_app. lia. }
  split.
  - rewrite (Hrun c' res' rest' Hin' Hl').
    pose proof (Hrun c res rest Hin Hl) as Hm.
    rewrite (set_conn_id m (Some c) Hc) in Hm. rewrite Hm.
    unfold handshake_verdict. by rewrite Hview.
  - intros id Hid. unfold reply_view. f_equal; [f_equal|].
    + rewrite take_app_le by (rewrite length_take; lia).
      rewrite take_take. f_equal.
    + rewrite lookup_app_l by (rewrite length_take; lia).
      rewrite lookup_take_lt by lia. done.
    + rewrite drop_app_le by (rewrite length_take; lia).
      rewrite take_app_le by (rewrite length_drop, length_take; lia).
      rewrite skipn_firstn_comm. rewrite take_take. f_equal.
Qed.

Lemma X4_HandShake_ignores_peer_id_witness :
  let m := set_conn (Some (Demo.peer Demo.handshake_reply)) Demo.session in
  let other := take 48 Demo.handshake_reply ++ bytes_of_string "-XX9999-zzzzzzzzzzzz" in
  (HandShake (set_conn (Some (Demo.peer other)) m)).1 = Return None.
Proof.
  cbv zeta.
  destruct (X4_HandShake_ignores_peer_id
              (set_conn (Some (Demo.peer Demo.handshake_reply)) Demo.session)
              (Demo.peer Demo.handshake_reply)
              (Demo.peer (take 48 Demo.handshake_reply
                          ++ bytes_of_string "-XX9999-zzzzzzzzzzzz"))
              Demo.handshake_reply
              (take 48 Demo.handshake_reply ++ bytes_of_string "-XX9999-zzzzzzzzzzzz")
              [] []) as [Hsame _];
    [reflexivity | vm_compute; lia | vm_compute; reflexivity | vm_compute; reflexivity
    | vm_compute; reflexivity | vm_compute; reflexivity | vm_compute; reflexivity |].
  rewrite Hsame. clear Hsame. vm_compute. reflexivity.
Defined.

(** ** Connecting *)

Section connecting.
Context `{Packages}.

Lemma Connect_dialled (c : Conn) (m : Meta) :
  Connect (inl c) m
  = match HandShake (set_conn (Some c) m) with
    | (Return None, m1) => extHandShake m1
    | (Return (Some e), m1) => (Return (Some e), m1)
    | (Panic msg, m1) => (Panic msg, m1)
    | (OutOfFuel, m1) => (OutOfFuel, m1)
    end.
Proof.
  unfold Connect. rewrite bind_run. unfold modify.
  rewrite bind_run. unfold SetDeadLine. rewrite (on_conn_run _ _ c) by done.
  cbn [fst snd]. rewrite bind_run.
  change (set_conn (Some c) (set_conn (Some c) m)) with (set_conn (Some c) m).
  by destruct (HandShake (set_conn (Some c) m)) as [[[e|]|msg|] m1].
Qed.

Lemma conn_Write_ok (b : list byte) (c : Conn) :
  write_results c = [] →
  conn_Write b c
  = (None, mkConn (incoming c) (closes_with c) (sent c ++ [b]) [] (closed c)).
Proof. intros Hw. unfold conn_Write. by rewrite Hw. Qed.

Lemma Begin_conn (m : Meta) (c : Conn) :
  conn m = Some c →
  (Begin m).1 ≠ OutOfFuel ∧ ∃ c', conn (Begin m).2 = Some c' ∧ closed c' = closed c.
Proof.
  intros Hc. destruct (Begin_outcome m c Hc) as (s & w & -> & _). cbn [fst snd]. split.
  { apply (Begin_loop_fuel _ m c); [done|lia]. }
  assert (∃ c1, conn (Begin_loop (S (length (incoming c))) m).2 = Some c1
                ∧ closed c1 = closed c) as (c1 & Hc1 & Hcl).
  { apply (Begin_loop_inv (λ m0, ∃ c0, conn m0 = Some c0 ∧ closed c0 = closed c)
             (λ _ m', ∃ c1, conn m' = Some c1 ∧ closed c1 = closed c)); [|done|eauto].
    intros m0 o m' (c0 & Hc0 & Hcl0) Ht.
    destruct (Begin_turn_cases _ _ _ _ Hc0 Ht) as (c' & Hc' & _ & _ & _ & Hcl' & _).
    destruct o as [[v|]|msg|]; exists c'; split; congruence. }
  unfold with_writes. rewrite Hc1. cbn. eauto.
Qed.

End connecting.

(** X5. Against a peer whose 68-byte reply passes the three checks and
    whose next frame is an extension handshake with a well-formed
    dictionary, [Connect] returns no error, has written the base handshake
    and then the extension handshake and nothing else, has read exactly
    the reply and the frame, and leaves the announced size, the peer's
    sub-id, the piece count and a table of empty slots in the session. *)
Theorem X5_Connect_success `{Packages} (m : Meta) (c : Conn)
    (res lenb payload rest : list byte) (dict d : gmap string any) (z u : Z) :
  (20 ≤ length (preHeader m))%nat →
  write_results c = [] →
  incoming c = res ++ lenb ++ (Byte.x14 :: Byte.x00 :: payload) ++ rest →
  length res = 68%nat → handshake_verdict (preHeader m) (infoHash m) res = None →
  length lenb = 4%nat → Uint32 lenb = len payload + 2 →
  bencode_Decode payload = Some (dict, None) →
  dict !! "metadata_size" = Some (Int64 z) → 0 ≤ z ≤ maxMetadataSize →
  dict !! "m" = Some (Map d) → d !! "ut_metadata" = Some (Int64 u) →
  ∃ m', Connect (inl c) m = (Return None, m')
    ∧ metadataSize m' = z ∧ utMetadata m' = u
    ∧ pieceCount m' = (z + (perBlock - 1)) / perBlock
    ∧ pieces m' = replicate (Z.to_nat (pieceCount m')) None
    ∧ conn m' = Some (mkConn rest (closes_with c)
                        (sent c ++ [handshake_bytes m; ext_written]) [] (closed c))
    ∧ infoHash m' = infoHash m.
Proof.
  intros Hpre Hw Hin Hres Hverdict Hl Hu Hd Hsize Hrange Hm Hut.
  assert (HandShake (set_conn (Some c) m)
          = (Return None,
             set_conn (Some (mkConn (lenb ++ (Byte.x14 :: Byte.x00 :: payload) ++ rest)
                               (closes_with c) (sent c ++ [handshake_bytes m]) []
                               (closed c))) m)) as Hhs.
  { rewrite (HandShake_write (set_conn (Some c) m) c eq_refl).
    change (handshake_bytes (set_conn (Some c) m)) with (handshake_bytes m).
    rewrite (conn_Write_ok _ c Hw). cbn [snd].
    erewrite HandShake_read_on_reply; [|reflexivity| |done].
    2:{ unfold len. cbn [incoming]. rewrite Hin, length_app. lia. }
    cbn [preHeader infoHash set_conn incoming advance closes_with sent
         write_results closed].
    rewrite Hin.
    rewrite <- Hres, take_app_length, drop_app_length, Hverdict. done. }
  rewrite Connect_dialled, Hhs.
  erewrite (extHandShake_reply _ _ lenb payload rest);
    [|reflexivity|reflexivity|reflexivity|done|done].
  cbn [set_conn conn closes_with sent write_results closed tail].
  match goal with |- context [onExtHandshake payload ?x] => set (m_read := x) end.
  destruct (onExtHandshake_verdict payload dict m_read Hd) as (_ & _ & _ & _ & _ & Hok).
  destruct (Hok z d u Hsize Hrange Hm Hut) as (m' & Hrun & Hz & Hu').
  exists m'. split; [done|].
  destruct (onExtHandshake_accept _ _ _ Hrun)
    as (dict' & d' & z' & u' & Hd' & Hsize' & _ & _ & _ & Hm').
  cbv zeta in Hm'. assert (dict' = dict) as -> by congruence.
  assert (z' = z) as -> by congruence.
  destruct (pieceCount_ceil z (proj1 Hrange)) as (Hc & _ & Hn). cbv zeta in Hc, Hn.
  destruct (onExtHandshake_conn _ _ _ _ Hrun) as [Hconn _].
  split_and!; try done.
  - rewrite Hm'. cbn [pieceCount set_pieces set_params]. exact Hc.
  - rewrite Hm'. done.
  - rewrite Hconn. unfold m_read. cbn [conn]. by rewrite <- app_assoc.
  - rewrite Hm'. done.
Qed.

Lemma X5_Connect_success_witness :
  let m' := (Connect (inl (Demo.peer (Demo.handshake_reply ++ Demo.ext_reply 32868)))
               Demo.session).2 in
  (Connect (inl (Demo.peer (Demo.handshake_reply ++ Demo.ext_reply 32868)))
     Demo.session).1 = Return None
  ∧ metadataSize m' = 32868 ∧ utMetadata m' = 3 ∧ pieceCount m' = 3.
Proof.
  cbv zeta.
  assert (bencode_Decode (Demo.ext_dict 32868)
          = Some (Demo.dict_of (Demo.ext_dict 32868), None)) as Hd
    by (vm_compute; reflexivity).
  destruct (X5_Connect_success Demo.session
              (Demo.peer (Demo.handshake_reply ++ Demo.ext_reply 32868))
              Demo.handshake_reply (PutUint32 (len (Demo.ext_dict 32868) + 2))
              (Demo.ext_dict 32868) [] (Demo.dict_of (Demo.ext_dict 32868))
              {[ "ut_metadata" := Int64 3 ]} 32868 3)
    as (m' & Hrun & Hz & Hu & Hc & _); try (vm_compute; reflexivity); try exact Hd.
  - vm_compute. lia.
  - vm_compute. split; discriminate.
  - rewrite Hrun. cbn [fst snd]. rewrite Hc, Hz, Hu. split_and!; reflexivity.
Defined.

(** X6. When the base handshake fails, [Connect] returns its error and
    stops: the extension handshake is not written, nothing more is read,
    and the session keeps its size and its table. *)
Theorem X6_Connect_stops_after_failed_HandShake `{Packages}
    (c : Conn) (m m1 : Meta) (e : error) :
  HandShake (set_conn (Some c) m) = (Return (Some e), m1) →
  Connect (inl c) m = (Return (Some e), m1)
  ∧ ∃ c1, m1 = set_conn (Some c1) m
      ∧ (sent c1 = sent c ∨ sent c1 = sent c ++ [handshake_bytes m])
      ∧ (length (incoming c) - 68 ≤ length (incoming c1))%nat.
Proof.
  intros Hrun. split; [by rewrite Connect_dialled, Hrun|].
  rewrite (HandShake_write (set_conn (Some c) m) c eq_refl) in Hrun.
  change (handshake_bytes (set_conn (Some c) m)) with (handshake_bytes m) in Hrun.
  set (c1 := (conn_Write (handshake_bytes m) c).2) in *.
  destruct (conn_Write_reads (handshake_bytes m) c) as (E1 & _). fold c1 in E1.
  assert (sent c1 = sent c ∨ sent c1 = sent c ++ [handshake_bytes m]) as Hs.
  { unfold c1. destruct (conn_Write_sent (handshake_bytes m) c) as [[_ ->]|[_ ->]]; auto. }
  cbn [set_conn] in Hrun.
  unfold HandShake_read in Hrun. rewrite bind_run in Hrun. unfold get in Hrun.
  rewrite bind_run, (on_conn_run _ _ c1) in Hrun by done.
  pose proof (ReadFull_effect 68 c1) as (_ & E2 & _ & _ & _ & _). cbv zeta in E2.
  destruct (ReadFull_cases 68 c1) as [[Hn _]|[[Hn E]|[Hn E]]]; [lia| |].
  - rewrite E in Hrun. cbn [fst snd] in Hrun.
    exists (advance (drop (Z.to_nat 68) (incoming c1)) c1).
    assert (m1 = set_conn (Some (advance (drop (Z.to_nat 68) (incoming c1)) c1)) m) as ->.
    { revert Hrun. unfold slice_to, index, slice. go_unfold.
      repeat case_match; intros; simplify_eq; done. }
    split; [done|]. split; [exact Hs|].
    cbn [advance incoming]. rewrite length_drop, E1. lia.
  - rewrite E in Hrun. cbn [fst snd] in Hrun. injection Hrun as _ <-.
    exists (advance [] c1). split; [done|]. split; [exact Hs|].
    cbn [advance incoming length]. unfold len in Hn. rewrite E1 in Hn. lia.
Qed.

Lemma X6_Connect_stops_after_failed_HandShake_witness :
  let c := Demo.peer (replicate 68 Byte.x00 ++ Demo.ext_reply 14) in
  (Connect (inl c) Demo.session).1
  = Return (Some (errors_New "remote peer not supporting bittorrent protocol"))
  ∧ (sent <$> conn (Connect (inl c) Demo.session).2)
    = Some [handshake_bytes Demo.session].
Proof.
  cbv zeta.
  destruct (X6_Connect_stops_after_failed_HandShake
              (Demo.peer (replicate 68 Byte.x00 ++ Demo.ext_reply 14)) Demo.session
              (HandShake (set_conn (Some (Demo.peer (replicate 68 Byte.x00
                                                      ++ Demo.ext_reply 14)))
                            Demo.session)).2
              (errors_New "remote peer not supporting bittorrent protocol"))
    as (Hrun & _).
  { vm_compute. reflexivity. }
  rewrite Hrun. clear Hrun. cbn [fst snd]. split; [reflexivity|]. vm_compute. reflexivity.
Defined.

(** X7. When the dial fails, [Connect] returns the error of the dial with
    no connection in the session, and [Start], which defers
    [m.conn.Close()] before it looks at the error, panics on the nil
    connection instead of returning. *)
Theorem X7_Start_panics_when_dial_fails `{Packages} (e : error) (m : Meta) :
  Connect (inr e) m = (Return (Some e), set_conn None m)
  ∧ Start (inr e) m = (Panic nil_deref, set_conn None m).
Proof. done. Qed.

(** X8. Once [Connect] has returned, with an error or without, the
    connection is closed when [Start] ends, whatever happens in between:
    whether [Begin] returns bytes, returns an error or panics, and
    whether the decoder then returns or panics on the bytes.  [Start]
    returns but for a panic of [Begin] or of the decoder, which it passes
    on after the deferred [Close] has run. *)
Theorem X8_Start_closes_the_connection `{Packages}
    (c : Conn) (m m1 : Meta) (err : option error) :
  Connect (inl c) m = (Return err, m1) →
  (∃ c', conn (Start (inl c) m).2 = Some c' ∧ closed c' = true)
  ∧ ((Start (inl c) m).1 = Return tt
     ∨ ∃ msg, err = None ∧ (Start (inl c) m).1 = Panic msg
         ∧ ((Begin m1).1 = Panic msg
            ∨ ∃ ret, (Begin m1).1 = Return (ret, None)
                ∧ bencode_Decode (default [] ret) = None ∧ msg = makeslice)).
Proof.
  intros Hrun. destruct (Connect_effect _ _ _ _ Hrun) as (_ & c1 & l & Hc1 & _).
  unfold Start. rewrite Hrun, Hc1.
  destruct err as [e|].
  { cbn. rewrite Hc1. cbn. split; eauto. }
  unfold Start_body. rewrite bind_run.
  destruct (Begin_conn m1 c1 Hc1) as (Hfuel & c2 & Hc2 & _).
  destruct (Begin m1) as [o m2]. cbn [fst snd] in *.
  destruct o as [[ret [e|]]|msg|]; [| | |done].
  - cbn. rewrite Hc2. cbn. split; eauto.
  - destruct (bencode_Decode (default [] ret)) as [[dict derr]|] eqn:Hd;
      cbn; rewrite Hc2; cbn; (split; [eauto|]).
    + by left.
    + right. exists makeslice. split_and!; try done. right. eauto.
  - cbn. rewrite Hc2. cbn. split; [eauto|]. right. exists msg. auto.
Qed.

(** The peer serves metadata that passes the checksum and on which the
    decoder panics: [Start] panics, with the connection closed. *)
Lemma X8_Start_closes_the_connection_witness :
  (∃ c', conn (Start (inl Demo.bomb_peer) Demo.bomb_session).2 = Some c'
     ∧ closed c' = true)
  ∧ (Start (inl Demo.bomb_peer) Demo.bomb_session).1 = Panic makeslice.
Proof.
  destruct (X8_Start_closes_the_connection Demo.bomb_peer Demo.bomb_session
              (Connect (inl Demo.bomb_peer) Demo.bomb_session).2 None)
    as [Hclosed _].
  { vm_compute. reflexivity. }
  split; [exact Hclosed|]. vm_compute. reflexivity.
Defined.

(** ** What [Connect] leaves behind *)

Section leftovers.
Context `{Packages}.

Lemma HandShake_state (m : Meta) (c : Conn) :
  conn m = Some c →
  ∃ o, HandShake m
       = (o, set_conn (Some (ReadFull 68 (conn_Write (handshake_bytes m) c).2).2) m)
    ∧ o ≠ OutOfFuel.
Proof.
  intros Hc. rewrite (HandShake_write m c Hc).
  set (c1 := (conn_Write (handshake_bytes m) c).2).
  unfold HandShake_read. rewrite bind_run. unfold get.
  rewrite bind_run, (on_conn_run _ _ c1) by done.
  destruct (ReadFull 68 c1) as [[[n res] err] c2]. cbn [fst snd set_conn conn] in *.
  unfold slice_to, index, slice. go_unfold.
  repeat case_match; simplify_eq; eexists; (split; [reflexivity|done]).
Qed.

Lemma HandShake_closed (m m' : Meta) (c : Conn) (o : outcome (option error)) :
  conn m = Some c → HandShake m = (o, m') →
  ∃ c', m' = set_conn (Some c') m ∧ closed c' = closed c.
Proof.
  intros Hc Hrun. destruct (HandShake_state m c Hc) as (o' & Hrun' & _).
  rewrite Hrun' in Hrun. injection Hrun as _ <-.
  eexists. split; [done|].
  pose proof (ReadFull_effect 68 (conn_Write (handshake_bytes m) c).2) as (_ & _ & _ & -> & _).
  apply conn_Write_reads.
Qed.

Lemma extHandShake_closed (m m' : Meta) (c : Conn) (o : outcome (option error)) :
  conn m = Some c → extHandShake m = (o, m') →
  ∃ c', conn m' = Some c' ∧ closed c' = closed c.
Proof.
  intros Hc. unfold extHandShake. fold ext_message.
  rewrite bind_run, (WriteTo_run _ _ c Hc). cbv zeta. fold ext_written.
  destruct (conn_Write_reads ext_written c) as (_ & _ & E1).
  set (c1 := (conn_Write ext_written c).2) in *.
  destruct (conn_Write ext_written c).1 as [e|];
    cbv beta iota delta [fmap option_fmap option_map].
  { intros [= <- <-]. by exists c1. }
  rewrite bind_run.
  destruct (ReadN_effect (set_conn (Some c1) m) c1 eq_refl)
    as (r & c2 & -> & _ & _ & _ & E2 & _).
  cbn [set_conn conn].
  assert (closed c2 = closed c) as Hcl by congruence.
  destruct r as [data [e|]].
  { intros [= <- <-]. by exists c2. }
  unfold index, slice_from. go_unfold.
  repeat case_match; simplify_eq;
    try (intros [= <- <-]; by exists c2).
  all: intros Hon; apply onExtHandshake_conn in Hon as [Hcm _];
    exists c2; by rewrite Hcm.
Qed.

Lemma Connect_closed (c : Conn) (m m1 : Meta) (o : outcome (option error)) :
  Connect (inl c) m = (o, m1) → ∃ c1, conn m1 = Some c1 ∧ closed c1 = closed c.
Proof.
  rewrite Connect_dialled.
  destruct (HandShake (set_conn (Some c) m)) as [o1 m2] eqn:Hhs.
  destruct (HandShake_closed (set_conn (Some c) m) m2 c o1 eq_refl Hhs) as (c2 & -> & Hcl2).
  destruct o1 as [[e|]|msg|]; try (intros [= <- <-]; by exists c2).
  intros Hext.
  destruct (extHandShake_closed (set_conn (Some c2) (set_conn (Some c) m)) m1 c2 o eq_refl Hext)
    as (c3 & ? & ?).
  exists c3. split; [done|congruence].
Qed.

(** [extHandShake] once its write has gone through and a whole frame has
    come back. *)
Lemma extHandShake_on_frame (m : Meta) (c : Conn) (lenb data rest : list byte) :
  conn m = Some c →
  (conn_Write ext_written c).1 = None →
  incoming c = lenb ++ data ++ rest →
  length lenb = 4%nat → Uint32 lenb = len data →
  extHandShake m
  = (d0 ← index data 0;
     if bool_decide (Z_of_byte d0 ≠ extended)
     then mret (Some (errors_New "data 0 err")) else
     d1 ← index data 1;
     if bool_decide (Z_of_byte d1 ≠ 0)
     then mret (Some (errors_New "data 1 err")) else
     payload ← slice_from data 2;
     onExtHandshake payload)
      (set_conn (Some (mkConn rest (closes_with c) (sent c ++ [ext_written])
                              (tail (write_results c)) (closed c))) m).
Proof.
  intros Hc Hw Hin Hl Hu. unfold extHandShake. fold ext_message.
  rewrite bind_run, (WriteTo_run _ _ c Hc). cbv zeta. fold ext_written.
  rewrite Hw. cbv beta iota delta [fmap option_fmap option_map].
  set (c1 := (conn_Write ext_written c).2).
  assert (c1 = mkConn (incoming c) (closes_with c) (sent c ++ [ext_written])
                      (tail (write_results c)) (closed c)) as Hc1.
  { unfold c1. unfold conn_Write in *. repeat case_match; simplify_eq; done. }
  rewrite bind_run.
  rewrite (ReadN_frame _ c1 lenb data rest); try done.
  2:{ by rewrite Hc1. }
  cbn [default from_option id set_conn conn]. rewrite Hc1. done.
Qed.

End leftovers.

(** X9. The deferred [Close] of [Start] is registered only after [Connect]
    has returned.  When [Connect] panics, as it does on an empty reply
    frame, on one that holds the byte 20 alone, and where the decoder
    panics on the reply, [Start] panics with it and the connection that
    was dialled stays open. *)
Theorem X9_Start_leaves_connection_open_when_Connect_panics `{Packages}
    (c : Conn) (m m1 : Meta) (msg : string) :
  Connect (inl c) m = (Panic msg, m1) →
  Start (inl c) m = (Panic msg, m1)
  ∧ ∃ c1, conn m1 = Some c1 ∧ closed c1 = closed c.
Proof.
  intros Hrun. split; [unfold Start; by rewrite Hrun|].
  by apply (Connect_closed c m m1 (Panic msg)).
Qed.

Lemma X9_Start_leaves_connection_open_when_Connect_panics_witness :
  ∃ m1, Start (inl (Demo.peer (Demo.handshake_reply ++ frame []))) Demo.session
        = (Panic out_of_range, m1)
    ∧ (closed <$> conn m1) = Some false.
Proof.
  destruct (X9_Start_leaves_connection_open_when_Connect_panics
              (Demo.peer (Demo.handshake_reply ++ frame [])) Demo.session
              (Connect (inl (Demo.peer (Demo.handshake_reply ++ frame [])))
                 Demo.session).2 out_of_range)
    as (HS & c1 & Hc1 & Hcl).
  { vm_compute. reflexivity. }
  eexists. split; [exact HS|].
  rewrite Hc1. cbn [fmap option_fmap option_map]. rewrite Hcl. reflexivity.
Defined.

(** X10. The extension handshake is the one write whose failure ends the
    session.  After a base handshake that passes, whether its own write
    went through or not, a failed write of the extension handshake makes
    [Connect] return the wrapped write error at once: nothing is read
    beyond the 68 bytes of the reply and the session keeps its fields. *)
Theorem X10_Connect_reports_failed_extension_write `{Packages}
    (m : Meta) (c : Conn) (r : option error) (e : error) (w : list (option error)) :
  (20 ≤ length (preHeader m))%nat →
  write_results c = r :: Some e :: w →
  68 ≤ len (incoming c) →
  handshake_verdict (preHeader m) (infoHash m) (take 68 (incoming c)) = None →
  Connect (inl c) m
  = (Return (Some (write_failed e)),
     set_conn (Some (mkConn (drop 68 (incoming c)) (closes_with c)
                       (sent c ++ if r is None then [handshake_bytes m] else [])
                       w (closed c))) m).
Proof.
  intros Hpre Hw Hin Hverdict.
  rewrite Connect_dialled.
  rewrite (HandShake_write (set_conn (Some c) m) c eq_refl).
  change (handshake_bytes (set_conn (Some c) m)) with (handshake_bytes m).
  assert ((conn_Write (handshake_bytes m) c).2
          = mkConn (incoming c) (closes_with c)
              (sent c ++ if r is None then [handshake_bytes m] else [])
              (Some e :: w) (closed c)) as ->.
  { unfold conn_Write. rewrite Hw. destruct r; [by rewrite app_nil_r|done]. }
  erewrite HandShake_read_on_reply; [|reflexivity|done|done].
  cbn [preHeader infoHash set_conn incoming advance closes_with sent
       write_results closed].
  rewrite Hverdict.
  unfold extHandShake. fold ext_message.
  rewrite bind_run. erewrite WriteTo_run by reflexivity. cbv zeta.
  unfold conn_Write. cbn [write_results]. done.
Qed.

Lemma X10_Connect_reports_failed_extension_write_witness :
  let c := mkConn (Demo.handshake_reply ++ Demo.ext_reply 14) io_EOF []
             [Some (foreign "broken pipe"); Some (foreign "broken pipe")] false in
  (Connect (inl c) Demo.session).1
  = Return (Some (write_failed (foreign "broken pipe")))
  ∧ (incoming <$> conn (Connect (inl c) Demo.session).2) = Some (Demo.ext_reply 14).
Proof.
  cbv zeta.
  rewrite (X10_Connect_reports_failed_extension_write Demo.session _
             (Some (foreign "broken pipe")) (foreign "broken pipe") []);
    [|vm_compute; lia|reflexivity|vm_compute; discriminate|vm_compute; reflexivity].
  split; [reflexivity|]. vm_compute. reflexivity.
Defined.

(** X11. [extHandShake] takes the very next frame for the reply to its
    handshake.  A frame of two bytes or more that is not an extension
    handshake is not skipped: a first byte other than 20 ends the session
    with "data 0 err", a second byte other than 0 with "data 1 err", and
    in both cases the frame is consumed and the session keeps its size,
    its sub-id and its table. *)
Theorem X11_extHandShake_rejects_other_frames `{Packages}
    (m : Meta) (c : Conn) (lenb rest tl : list byte) (d0 d1 : byte) :
  conn m = Some c →
  (conn_Write ext_written c).1 = None →
  incoming c = lenb ++ (d0 :: d1 :: tl) ++ rest →
  length lenb = 4%nat → Uint32 lenb = len tl + 2 →
  d0 ≠ Byte.x14 ∨ d1 ≠ Byte.x00 →
  extHandShake m
  = (Return (Some (errors_New (if bool_decide (d0 = Byte.x14)
                               then "data 1 err" else "data 0 err"))),
     set_conn (Some (mkConn rest (closes_with c) (sent c ++ [ext_written])
                       (tail (write_results c)) (closed c))) m).
Proof.
  intros Hc Hw Hin Hl Hu Hother.
  rewrite (extHandShake_on_frame m c lenb (d0 :: d1 :: tl) rest); try done.
  2:{ rewrite Hu. unfold len. cbn [length]. lia. }
  rewrite bind_run, (index_run _ _ d0) by done.
  case_bool_decide as E0.
  - rewrite bool_decide_eq_false_2; [done|].
    intros ->. by apply E0.
  - assert (d0 = Byte.x14) as -> by (by apply Z_of_byte_inj).
    rewrite bool_decide_eq_true_2 by done.
    rewrite bind_run, (index_run _ _ d1) by done.
    rewrite bool_decide_eq_true_2; [done|].
    intros E1. destruct Hother as [?|Hd1]; [done|]. apply Hd1.
    by apply Z_of_byte_inj.
Qed.

Lemma X11_extHandShake_rejects_other_frames_witness :
  let m := set_conn (Some (Demo.peer (frame [Byte.x05; Byte.x80] ++ Demo.ext_reply 14)))
             Demo.session in
  (extHandShake m).1 = Return (Some (errors_New "data 0 err"))
  ∧ (incoming <$> conn (extHandShake m).2) = Some (Demo.ext_reply 14).
Proof.
  cbv zeta.
  rewrite (X11_extHandShake_rejects_other_frames _
             (Demo.peer (frame [Byte.x05; Byte.x80] ++ Demo.ext_reply 14))
             (PutUint32 2) (Demo.ext_reply 14) [] Byte.x05 Byte.x80);
    [|reflexivity|reflexivity|vm_compute; reflexivity|reflexivity|reflexivity
     |left; discriminate].
  split; reflexivity.
Defined.

(** X12. On a session without a connection, as [NewMeta] makes it and as
    a failed dial leaves it, every method that talks to the peer panics
    with a nil dereference and leaves the session as it was; the methods
    that only look at bytes and at the table do not. *)
Theorem X12_methods_need_a_connection `{Packages} (m : Meta) (data : list byte) (i s : Z) :
  conn m = None →
  SetDeadLine s m = (Panic nil_deref, m)
  ∧ WriteTo data m = (Panic nil_deref, m)
  ∧ ReadN m = (Panic nil_deref, m)
  ∧ requestPiece i m = (Panic nil_deref, m)
  ∧ HandShake m = (Panic nil_deref, m)
  ∧ extHandShake m = (Panic nil_deref, m)
  ∧ Begin m = (Panic nil_deref, m)
  ∧ (∀ payload, (onExtHandshake payload m).1 ≠ Panic nil_deref)
  ∧ (∀ payload, (readOnePiece payload m).1 ≠ Panic nil_deref).
Proof.
  intros Hc.
  assert (∀ d, WriteTo d m = (Panic nil_deref, m)) as HW.
  { intros d. unfold WriteTo. cbv zeta. by rewrite bind_run, on_conn_nil. }
  split_and!.
  - by apply on_conn_nil.
  - apply HW.
  - unfold ReadN. by rewrite bind_run, on_conn_nil.
  - unfold requestPiece. rewrite bind_run. unfold get.
    by rewrite bind_run, HW.
  - unfold HandShake. rewrite bind_run. unfold get.
    by rewrite bind_run, on_conn_nil.
  - unfold extHandShake. by rewrite bind_run, HW.
  - by apply Begin_nil_conn.
  - intros payload. destruct (onExtHandshake payload m) as [o m'] eqn:E.
    cbn. intros ->. revert E. unfold onExtHandshake.
    destruct (bencode_Decode payload) as [[dict [e'|]]|]; [by intros [=]| |by intros [=]].
    repeat case_match; cbn; go_unfold; by intros [=].
  - intros payload. destruct (readOnePiece payload m) as [o m'] eqn:E.
    cbn. intros ->.
    destruct (readOnePiece_cases _ _ _ _ E) as [[? _]|[_ [[e ?]|[msg Hmsg]]]]; try done.
    revert E. unfold readOnePiece. cbv zeta. unfold slice_to, slice_from, index.
    unfold out_of_range, slice_out_of_range, nil_deref, makeslice.
    go_unfold. repeat case_match; intros E; simplify_eq.
Qed.

Lemma X12_methods_need_a_connection_witness :
  Begin Demo.session = (Panic nil_deref, Demo.session)
  ∧ HandShake Demo.session = (Panic nil_deref, Demo.session).
Proof.
  destruct (X12_methods_need_a_connection Demo.session [] 0 0)
    as (_ & _ & _ & _ & HH & _ & HB & _); [reflexivity|].
  split; [exact HB|exact HH].
Defined.

(** ** The transfer *)

Section transfer.
Context `{Packages}.

Lemma write_all_reads (bs : list (list byte)) (c : Conn) :
  incoming (write_all bs c) = incoming c
  ∧ closes_with (write_all bs c) = closes_with c
  ∧ closed (write_all bs c) = closed c.
Proof.
  revert c. induction bs as [|b bs IH]; intros c; [done|].
  cbn [write_all foldl]. fold (write_all bs (conn_Write b c).2).
  destruct (IH (conn_Write b c).2) as (-> & -> & ->). apply conn_Write_reads.
Qed.

Lemma write_all_sent (bs : list (list byte)) (c : Conn) :
  write_results c = [] →
  sent (write_all bs c) = sent c ++ bs ∧ write_results (write_all bs c) = [].
Proof.
  revert c. induction bs as [|b bs IH]; intros c Hw.
  { cbn. by rewrite app_nil_r. }
  cbn [write_all foldl]. fold (write_all bs (conn_Write b c).2).
  rewrite (conn_Write_ok b c Hw). cbn [snd].
  destruct (IH (mkConn (incoming c) (closes_with c) (sent c ++ [b]) [] (closed c)) eq_refl)
    as [-> ->].
  cbn [sent]. by rewrite <- app_assoc.
Qed.

Lemma write_all_advance (bs : list (list byte)) (rest : list byte) (c : Conn) :
  write_all bs (advance rest c) = advance rest (write_all bs c).
Proof.
  revert c. induction bs as [|b bs IH]; intros c; [done|].
  cbn [write_all foldl]. fold (write_all bs (conn_Write b (advance rest c)).2).
  fold (write_all bs (conn_Write b c).2).
  rewrite <- IH. f_equal.
  unfold conn_Write, advance. cbn [write_results incoming closes_with sent closed].
  by repeat case_match.
Qed.

Lemma requestPiece_writes (i : Z) (m : Meta) (c : Conn) :
  conn m = Some c →
  requestPiece i m
  = (Return tt, set_conn (Some (conn_Write (request_written (utMetadata m) i) c).2) m).
Proof.
  intros Hc. unfold requestPiece. rewrite bind_run. unfold get.
  rewrite bind_run. unfold request_written, request_message.
  erewrite WriteTo_run by exact Hc. reflexivity.
Qed.

Lemma for_range_requests (k : nat) (i : Z) (m : Meta) (c : Conn) :
  conn m = Some c →
  for_range k i requestPiece m
  = (Return tt,
     set_conn (Some (write_all (request_written (utMetadata m) <$> seqZ i (Z.of_nat k)) c))
       m).
Proof.
  revert i m c. induction k as [|k IH]; intros i m c Hc.
  { rewrite seqZ_nil by lia. cbn [fmap list_fmap write_all foldl for_range].
    by rewrite (set_conn_id m (Some c) Hc). }
  cbn [for_range]. rewrite bind_run, (requestPiece_writes i m c Hc).
  set (c1 := (conn_Write (request_written (utMetadata m) i) c).2).
  rewrite (IH (i + 1) (set_conn (Some c1) m) c1 eq_refl).
  rewrite (seqZ_cons i (Z.of_nat (S k))) by lia.
  replace (Z.pred (Z.of_nat (S k))) with (Z.of_nat k) by lia.
  replace (Z.succ i) with (i + 1) by lia.
  done.
Qed.

Lemma Begin_requests (m : Meta) (c : Conn) :
  conn m = Some c →
  Begin m
  = Begin_loop (S (length (incoming c)))
      (set_conn (Some (write_all (request_written (utMetadata m)
                                    <$> seqZ 0 (pieceCount m)) c)) m).
Proof.
  intros Hc. unfold Begin. rewrite bind_run. unfold SetDeadLine.
  rewrite (on_conn_run _ _ c Hc). cbn [fst snd]. rewrite set_conn_id by done.
  rewrite bind_run. unfold get. rewrite bind_run.
  rewrite (for_range_requests _ 0 m c Hc).
  rewrite bind_run. unfold Begin_fuel. cbn [set_conn conn].
  rewrite (proj1 (write_all_reads _ c)).
  destruct (decide (0 ≤ pieceCount m)).
  - by rewrite Z2Nat.id.
  - rewrite Z2Nat.nonpos by lia. by rewrite (seqZ_nil 0 (pieceCount m)) by lia.
Qed.

(** More fuel than the bytes to come makes no difference. *)
Lemma Begin_loop_more_fuel (n : nat) :
  ∀ (m : Meta) (c : Conn) (k : nat),
    conn m = Some c → (length (incoming c) < n)%nat →
    Begin_loop (n + k) m = Begin_loop n m.
Proof.
  induction n as [|n IH]; intros m c k Hc Hn; [lia|].
  cbn [Nat.add Begin_loop]. rewrite !bind_run.
  destruct (Begin_turn m) as [o m'] eqn:Ht.
  destruct (Begin_turn_cases _ _ _ _ Hc Ht) as (c' & Hc' & _ & _ & _ & _ & Hlen & _).
  destruct o as [[v|]|msg|]; try done.
  apply (IH m' c' k Hc'). specialize (Hlen eq_refl). lia.
Qed.

Lemma Begin_loop_any_fuel (n n' : nat) (m : Meta) (c : Conn) :
  conn m = Some c → (length (incoming c) < n)%nat → (length (incoming c) < n')%nat →
  Begin_loop n m = Begin_loop n' m.
Proof.
  intros Hc Hn Hn'.
  rewrite <- (Begin_loop_more_fuel n m c n' Hc Hn).
  rewrite <- (Begin_loop_more_fuel n' m c n Hc Hn').
  by rewrite Nat.add_comm.
Qed.

Lemma Begin_turn_skip (m : Meta) (c : Conn) (lenb data rest : list byte) :
  conn m = Some c →
  incoming c = lenb ++ data ++ rest →
  length lenb = 4%nat → Uint32 lenb = len data →
  skipped data →
  Begin_turn m = (Return None, set_conn (Some (advance rest c)) m).
Proof.
  intros Hc Hin Hl Hu Hskip.
  rewrite (Begin_turn_frame m c lenb data rest Hc Hin Hl Hu). fold (advance rest c).
  unfold Begin_frame.
  destruct data as [|d0 [|d1 tl]]; [done| |]; cbn [skipped] in Hskip.
  - rewrite bind_run, (index_run _ _ d0) by done.
    rewrite bool_decide_eq_true_2; [done|].
    intros E. apply Hskip. by apply Z_of_byte_inj.
  - rewrite bind_run, (index_run _ _ d0) by done.
    case_bool_decide as E0; [done|].
    assert (d0 = Byte.x14) as -> by (by apply Z_of_byte_inj).
    rewrite bind_run, (index_run _ _ d1) by done.
    rewrite bool_decide_eq_true_2; [done|].
    intros E1. destruct Hskip as [?|Hd1]; [done|]. apply Hd1.
    by apply Z_of_byte_inj.
Qed.

Lemma Begin_loop_step (n : nat) (m : Meta) :
  Begin_loop (S n) m
  = match Begin_turn m with
    | (Return (Some v), m') => (Return v, m')
    | (Return None, m') => Begin_loop n m'
    | (Panic msg, m') => (Panic msg, m')
    | (OutOfFuel, m') => (OutOfFuel, m')
    end.
Proof.
  cbn [Begin_loop]. rewrite bind_run. by destruct (Begin_turn m) as [[[v|]|msg|] m'].
Qed.

Lemma Begin_loop_skip (n : nat) (m : Meta) (c : Conn) (lenb data rest : list byte) :
  conn m = Some c →
  incoming c = lenb ++ data ++ rest →
  length lenb = 4%nat → Uint32 lenb = len data →
  skipped data →
  (length (incoming c) < n)%nat →
  Begin_loop n m = Begin_loop (S (length rest)) (set_conn (Some (advance rest c)) m).
Proof.
  intros Hc Hin Hl Hu Hskip Hn.
  destruct n as [|n]; [lia|].
  rewrite (Begin_loop_step n m), (Begin_turn_skip m c lenb data rest) by done.
  apply (Begin_loop_any_fuel _ _ _ (advance rest c)); [done| |cbn; lia].
  cbn [advance incoming]. rewrite Hin, !length_app in Hn. lia.
Qed.

Lemma frame_header (data : list byte) :
  len data < 2 ^ 32 →
  length (PutUint32 (len data)) = 4%nat ∧ Uint32 (PutUint32 (len data)) = len data.
Proof.
  intros Hd. split; [apply PutUint32_length|].
  apply Uint32_PutUint32. unfold len in *. lia.
Qed.

Lemma Begin_loop_only_skipped (ds : list (list byte)) :
  ∀ (n : nat) (m : Meta) (c : Conn),
    conn m = Some c →
    incoming c = concat (frame <$> ds) →
    Forall (λ d, skipped d ∧ len d < 2 ^ 32) ds →
    (length (incoming c) < n)%nat →
    ∃ c', Begin_loop n m = (Return (None, Some (closes_with c)), set_conn (Some c') m)
      ∧ incoming c' = [].
Proof.
  induction ds as [|d ds IH]; intros n m c Hc Hin Hds Hn.
  - destruct n as [|n]; [lia|]. cbn in Hin.
    rewrite Begin_loop_step.
    unfold Begin_turn. rewrite bind_run.
    destruct (ReadN_cases m c Hc)
      as [[_ ->]|[(lenb & d & rest & Hd & Hl & _)|(lenb & part & Hd & Hl & _)]].
    + exists (advance [] c). split; [|done].
      unfold read_error. by rewrite Hin.
    + rewrite Hin in Hd. destruct lenb; simplify_eq/=.
    + rewrite Hin in Hd. destruct lenb; simplify_eq/=.
  - apply Forall_cons in Hds as [[Hskip Hlen] Hds].
    destruct (frame_header d Hlen) as [Hl Hu].
    cbn [fmap list_fmap concat] in Hin. unfold frame at 1 in Hin.
    rewrite <- app_assoc in Hin.
    rewrite (Begin_loop_skip n m c _ d _ Hc Hin Hl Hu Hskip Hn).
    destruct (IH (S (length (concat (frame <$> ds))))
                (set_conn (Some (advance (concat (frame <$> ds)) c)) m)
                (advance (concat (frame <$> ds)) c) eq_refl eq_refl Hds)
      as (c' & -> & Hc'); [cbn; lia|].
    exists c'. split; [done|done].
Qed.

Lemma kept_refl (m : Meta) (c : Conn) : conn m = Some c → kept m m.
Proof.
  intros Hc. exists (pieces m), c. split_and!; [|done|eauto].
  by destruct m; cbn in *; subst.
Qed.

Lemma kept_trans (m1 m2 m3 : Meta) : kept m1 m2 → kept m2 m3 → kept m1 m3.
Proof.
  intros (t & c & -> & Hl & Hk) (t' & c' & -> & Hl' & Hk').
  exists t', c'. cbn [pieces set_pieces set_conn] in *. split_and!; [done|congruence|].
  intros k b Hb. destruct (Hk k b Hb) as [b' Hb']. eauto.
Qed.

Lemma kept_conn (m : Meta) (c : Conn) : kept m (set_conn (Some c) m).
Proof. exists (pieces m), c. split_and!; [done|done|eauto]. Qed.

Lemma kept_store (m : Meta) (c : Conn) (k : nat) (body : list byte) :
  kept m (set_pieces (<[k := Some body]> (pieces m)) (set_conn (Some c) m)).
Proof.
  eexists _, c. split_and!; [done|by rewrite length_insert|].
  intros j b Hb. destruct (decide (j = k)) as [->|Hne].
  - exists body. apply list_lookup_insert_eq. by eapply lookup_lt_Some.
  - exists b. by rewrite list_lookup_insert_ne.
Qed.

Lemma Begin_turn_kept (m m' : Meta) (c : Conn)
    (o : outcome (option (option (list byte) * option error))) :
  conn m = Some c → Begin_turn m = (o, m') → kept m m' ∧ is_Some (conn m').
Proof.
  intros Hc Ht.
  destruct (Begin_turn_cases _ _ _ _ Hc Ht)
    as (c' & Hc' & _ & _ & _ & _ & _ & [[-> _]|(k & body & _ & _ & -> & _)]).
  - split; [apply kept_conn|eauto].
  - split; [apply kept_store|eauto].
Qed.

Lemma Begin_loop_kept (fuel : nat) (m : Meta) (c : Conn) :
  conn m = Some c → kept m (Begin_loop fuel m).2.
Proof.
  intros Hc.
  apply (Begin_loop_inv (λ m0, kept m m0 ∧ is_Some (conn m0)) (λ _ m', kept m m')).
  - intros m0 o m' [Hk [c0 Hc0]] Ht.
    destruct (Begin_turn_kept _ _ _ _ Hc0 Ht) as [Hk' Hs'].
    destruct o as [[v|]|msg|]; try split; try done; by eapply kept_trans.
  - by intros m0 [? _].
  - split; [by eapply kept_refl|eauto].
Qed.

(** ** [Begin] and the announced size *)

Lemma commutes_ret {A} (g : Meta → Meta) (a : A) : commutes_with g (mret a : go A).
Proof. done. Qed.

Lemma commutes_panic {A} (g : Meta → Meta) (msg : string) :
  commutes_with g (panic msg : go A).
Proof. done. Qed.

Lemma commutes_bind {A B} (g : Meta → Meta) (f : go A) (k : A → go B) :
  commutes_with g f → (∀ a, commutes_with g (k a)) → commutes_with g (f ≫= k).
Proof.
  intros Hf Hk m. rewrite !bind_run, Hf.
  destruct (f m) as [[a|msg|] m']; cbn [fst snd]; [apply Hk|done|done].
Qed.

Lemma commutes_get_bind {A} (g : Meta → Meta) (k : Meta → go A) :
  (∀ m0, commutes_with g (k m0)) → (∀ m0 m, k (g m0) m = k m0 m) →
  commutes_with g (get ≫= k).
Proof.
  intros Hk Hg m. rewrite !bind_run. unfold get. rewrite Hg. apply Hk.
Qed.

Lemma commutes_index {A} (g : Meta → Meta) (s : list A) (i : Z) :
  commutes_with g (index s i).
Proof. intros m. unfold index. by repeat case_match. Qed.

Lemma commutes_slice_from {A} (g : Meta → Meta) (s : list A) (n : Z) :
  commutes_with g (slice_from s n).
Proof. intros m. unfold slice_from. by repeat case_match. Qed.

Lemma commutes_slice_to {A} (g : Meta → Meta) (s : list A) (n : Z) :
  commutes_with g (slice_to s n).
Proof. intros m. unfold slice_to. by repeat case_match. Qed.

Lemma commutes_on_conn {A} (z : Z) (f : Conn → A * Conn) :
  commutes_with (set_metadataSize z) (on_conn f).
Proof. intros m. unfold on_conn. cbn [set_metadataSize set_params conn].
  destruct (conn m); [|done]. by destruct (f _). Qed.

Lemma commutes_WriteTo (z : Z) (data : list byte) :
  commutes_with (set_metadataSize z) (WriteTo data).
Proof.
  unfold WriteTo. cbv zeta. apply commutes_bind; [apply commutes_on_conn|].
  intros [e|]; apply commutes_ret.
Qed.

Lemma commutes_ReadN (z : Z) : commutes_with (set_metadataSize z) ReadN.
Proof.
  unfold ReadN. apply commutes_bind; [apply commutes_on_conn|].
  intros [[n l] [e|]]; [apply commutes_ret|].
  apply commutes_bind; [apply commutes_on_conn|].
  intros [[n' d] [e|]]; apply commutes_ret.
Qed.

Lemma commutes_requestPiece (z i : Z) :
  commutes_with (set_metadataSize z) (requestPiece i).
Proof.
  unfold requestPiece. apply commutes_get_bind; [|done].
  intros m0. apply commutes_bind; [apply commutes_WriteTo|].
  intros _. apply commutes_ret.
Qed.

Lemma commutes_for_range (z : Z) (k : nat) (i : Z) :
  commutes_with (set_metadataSize z) (for_range k i requestPiece).
Proof.
  revert i. induction k as [|k IH]; intros i; [apply commutes_ret|].
  cbn [for_range]. apply commutes_bind; [apply commutes_requestPiece|].
  intros _. apply IH.
Qed.

Lemma commutes_readOnePiece (z : Z) (payload : list byte) :
  commutes_with (set_metadataSize z) (readOnePiece payload).
Proof.
  unfold readOnePiece. cbv zeta.
  case_bool_decide; [apply commutes_ret|].
  apply commutes_bind; [apply commutes_slice_to|]. intros head.
  destruct (bencode_Decode head) as [[dict [e|]]|];
    [apply commutes_ret| |apply commutes_panic].
  apply commutes_get_bind; [|done]. intros m0.
  destruct (assert_int64 (dict !! "piece")) as [pieceIndex ok].
  destruct (negb ok || (pieceCount m0 <=? pieceIndex)); [apply commutes_ret|].
  destruct (assert_int64 (dict !! "msg_type")) as [msgType ok'].
  destruct (negb ok' || bool_decide (msgType ≠ 1)); [apply commutes_ret|].
  apply commutes_bind; [apply commutes_slice_from|]. intros tl.
  apply commutes_bind; [apply commutes_index|]. intros _.
  apply commutes_bind; [done|]. intros _. apply commutes_ret.
Qed.

Lemma commutes_Begin_check (z : Z) : commutes_with (set_metadataSize z) Begin_check.
Proof.
  unfold Begin_check. apply commutes_get_bind; [|done]. intros m0.
  destruct (negb (checkDone m0)); [apply commutes_ret|]. cbv zeta.
  destruct (Equal _ _); apply commutes_ret.
Qed.

Lemma commutes_Begin_frame (z : Z) (data : list byte) :
  commutes_with (set_metadataSize z) (Begin_frame data).
Proof.
  unfold Begin_frame.
  apply commutes_bind; [apply commutes_index|]. intros d0.
  case_bool_decide; [apply commutes_ret|].
  apply commutes_bind; [apply commutes_index|]. intros d1.
  case_bool_decide; [apply commutes_ret|].
  apply commutes_bind; [apply commutes_slice_from|]. intros payload.
  apply commutes_bind; [apply commutes_readOnePiece|].
  intros [e|]; [apply commutes_ret|apply commutes_Begin_check].
Qed.

Lemma commutes_Begin_turn (z : Z) : commutes_with (set_metadataSize z) Begin_turn.
Proof.
  unfold Begin_turn. apply commutes_bind; [apply commutes_ReadN|].
  intros [data [e|]]; [apply commutes_ret|apply commutes_Begin_frame].
Qed.

Lemma commutes_Begin_loop (z : Z) (fuel : nat) :
  commutes_with (set_metadataSize z) (Begin_loop fuel).
Proof.
  induction fuel as [|fuel IH]; [done|].
  cbn [Begin_loop]. apply commutes_bind; [apply commutes_Begin_turn|].
  intros [v|]; [apply commutes_ret|apply IH].
Qed.

End transfer.

(** X13. [Begin] first writes one request for each piece, in index order
    from 0 and with nothing in between, and only then starts to read.
    Each request is the frame of the byte 20, the sub-id that the peer
    announced cut down to one byte, and the dictionary with [msg_type] 0
    and the index.  With a table of no slots nothing is written. *)
Theorem X13_Begin_requests_every_piece_first `{Packages} (m : Meta) (c : Conn) :
  conn m = Some c →
  let reqs := request_written (utMetadata m) <$> seqZ 0 (pieceCount m) in
  Begin m = Begin_loop (S (length (incoming c))) (set_conn (Some (write_all reqs c)) m)
  ∧ length reqs = Z.to_nat (pieceCount m)
  ∧ incoming (write_all reqs c) = incoming c
  ∧ (write_results c = [] → sent (write_all reqs c) = sent c ++ reqs)
  ∧ (∀ i, 0 ≤ i < pieceCount m →
       reqs !! Z.to_nat i
       = Some (PutUint32 (len (request_message (utMetadata m) i) mod 2 ^ 32)
               ++ [Byte.x14; byte_of_Z (utMetadata m mod 256)]
               ++ bencode_Encode (Map {[ "msg_type" := Int 0; "piece" := Int i ]}))).
Proof.
  intros Hc reqs. split_and!.
  - by apply Begin_requests.
  - unfold reqs. by rewrite length_fmap, length_seqZ.
  - apply write_all_reads.
  - intros Hw. by apply write_all_sent.
  - intros i Hi. unfold reqs. rewrite list_lookup_fmap, lookup_seqZ_lt by lia.
    cbn [fmap option_fmap option_map]. rewrite Z2Nat.id, Z.add_0_l by lia.
    unfold request_written, request_message, byte_of_Z.
    by rewrite Z.mod_mod.
Qed.

Lemma X13_Begin_requests_every_piece_first_witness :
  let m := Demo.announced 32868 [] in
  pieceCount m = 3
  ∧ ∃ c', conn (Begin m).2 = Some c'
      ∧ drop 2 (sent c') = request_written 3 <$> [0; 1; 2].
Proof.
  cbv zeta.
  assert (conn (Demo.announced 32868 [])
          = Some (mkConn [] io_EOF [handshake_bytes Demo.session; ext_written] [] false))
    as Hc by (vm_compute; reflexivity).
  destruct (X13_Begin_requests_every_piece_first (Demo.announced 32868 []) _ Hc)
    as (Hrun & _ & _ & Hsent & _).
  split; [vm_compute; reflexivity|].
  rewrite Hrun. cbn [incoming length].
  eexists. split; [vm_compute; reflexivity|]. vm_compute. reflexivity.
Defined.

(** X14. The loop of [Begin] passes over every frame of one byte other
    than 20, and every longer frame that does not start with the bytes
    20, 1 (a choke, a bitfield, an extension message of another kind):
    [Begin] on a stream that starts with such a frame does what it does
    on the stream without it. *)
Theorem X14_Begin_skips_other_frames `{Packages}
    (m : Meta) (c : Conn) (lenb data rest : list byte) :
  conn m = Some c →
  incoming c = lenb ++ data ++ rest →
  length lenb = 4%nat → Uint32 lenb = len data →
  skipped data →
  Begin m = Begin (set_conn (Some (advance rest c)) m).
Proof.
  intros Hc Hin Hl Hu Hskip.
  rewrite (Begin_requests m c Hc).
  rewrite (Begin_requests (set_conn (Some (advance rest c)) m) (advance rest c) eq_refl).
  cbn [utMetadata pieceCount set_conn advance incoming].
  set (reqs := request_written (utMetadata m) <$> seqZ 0 (pieceCount m)).
  fold (advance rest c). rewrite write_all_advance.
  change (set_conn (Some (advance rest (write_all reqs c)))
            (set_conn (Some (advance rest c)) m))
    with (set_conn (Some (advance rest (write_all reqs c)))
            (set_conn (Some (write_all reqs c)) m)).
  destruct (write_all_reads reqs c) as (Hr & _).
  apply (Begin_loop_skip _ _ (write_all reqs c) lenb data rest); try done.
  - by rewrite Hr.
  - rewrite Hr. lia.
Qed.

Lemma X14_Begin_skips_other_frames_witness :
  (Begin (Demo.announced 14 (frame [Byte.x01] ++ Demo.piece_reply 0 Demo.metadata))).1
  = Return (Some Demo.metadata, None).
Proof.
  rewrite (X14_Begin_skips_other_frames
             (Demo.announced 14 (frame [Byte.x01] ++ Demo.piece_reply 0 Demo.metadata))
             (mkConn (frame [Byte.x01] ++ Demo.piece_reply 0 Demo.metadata) io_EOF
                [handshake_bytes Demo.session; ext_written] [] false)
             (PutUint32 1) [Byte.x01] (Demo.piece_reply 0 Demo.metadata));
    [|vm_compute; reflexivity|reflexivity|reflexivity|reflexivity|cbn; discriminate].
  vm_compute. reflexivity.
Defined.

(** X15. [Begin] returns metadata only when piece replies complete the
    table.  On a stream of frames that it passes over and that then ends,
    it reads every frame and returns no bytes and the error with which
    the connection closed. *)
Theorem X15_Begin_ends_with_the_stream `{Packages}
    (m : Meta) (c : Conn) (ds : list (list byte)) :
  conn m = Some c →
  incoming c = concat (frame <$> ds) →
  Forall (λ d, skipped d ∧ len d < 2 ^ 32) ds →
  (Begin m).1 = Return (None, Some (closes_with c))
  ∧ ∃ c', conn (Begin m).2 = Some c' ∧ incoming c' = [].
Proof.
  intros Hc Hin Hds. rewrite (Begin_requests m c Hc).
  set (reqs := request_written (utMetadata m) <$> seqZ 0 (pieceCount m)).
  destruct (write_all_reads reqs c) as (Hr & Hcw & _).
  destruct (Begin_loop_only_skipped ds (S (length (incoming c)))
              (set_conn (Some (write_all reqs c)) m) (write_all reqs c) eq_refl)
    as (c' & -> & Hc'); [by rewrite Hr|done|rewrite Hr; lia|].
  cbn [fst snd set_conn conn]. rewrite Hcw. eauto.
Qed.

Lemma X15_Begin_ends_with_the_stream_witness :
  (Begin (Demo.announced 14
            (frame [Byte.x01]
             ++ frame [Byte.x04; Byte.x00; Byte.x00; Byte.x00; Byte.x07]))).1
  = Return (None, Some io_EOF).
Proof.
  destruct (X15_Begin_ends_with_the_stream
              (Demo.announced 14
                 (frame [Byte.x01]
                  ++ frame [Byte.x04; Byte.x00; Byte.x00; Byte.x00; Byte.x07]))
              (mkConn (frame [Byte.x01]
                       ++ frame [Byte.x04; Byte.x00; Byte.x00; Byte.x00; Byte.x07])
                 io_EOF [handshake_bytes Demo.session; ext_written] [] false)
              [[Byte.x01]; [Byte.x04; Byte.x00; Byte.x00; Byte.x00; Byte.x07]])
    as [Hrun _].
  - vm_compute. reflexivity.
  - reflexivity.
  - apply Forall_cons. split; [split; [cbn; discriminate|reflexivity]|].
    apply Forall_cons. split; [split; [left; discriminate|reflexivity]|].
    apply Forall_nil_2.
  - exact Hrun.
Defined.

(** X16. [Begin] changes the connection and the table and nothing else
    of the session.  The table keeps its length and no slot that was
    filled becomes empty, whatever the peer sends and however [Begin]
    ends; the connection is still there and is not closed by [Begin]. *)
Theorem X16_Begin_keeps_what_is_stored `{Packages} (m : Meta) (c : Conn) :
  conn m = Some c →
  ∃ table c',
    (Begin m).2 = set_pieces table (set_conn (Some c') m)
    ∧ length table = length (pieces m)
    ∧ (∀ k b, pieces m !! k = Some (Some b) → ∃ b', table !! k = Some (Some b'))
    ∧ closed c' = closed c.
Proof.
  intros Hc. destruct (Begin_conn m c Hc) as (_ & c2 & Hc2 & Hcl).
  revert Hc2. rewrite (Begin_requests m c Hc).
  set (reqs := request_written (utMetadata m) <$> seqZ 0 (pieceCount m)).
  destruct (Begin_loop_kept (S (length (incoming c)))
              (set_conn (Some (write_all reqs c)) m) (write_all reqs c) eq_refl)
    as (table & c' & -> & Hlen & Hkeep).
  cbn [conn set_pieces set_conn]. intros [= ->].
  exists table, c2. split_and!; done.
Qed.

Lemma X16_Begin_keeps_what_is_stored_witness :
  let m := Demo.announced 32868 (Demo.piece_reply 1 (bytes_of_string "second")) in
  ∃ b, pieces (Begin m).2 !! 1%nat = Some (Some b)
    ∧ length (pieces (Begin m).2) = 3%nat.
Proof.
  cbv zeta.
  destruct (X16_Begin_keeps_what_is_stored
              (Demo.announced 32868 (Demo.piece_reply 1 (bytes_of_string "second")))
              (mkConn (Demo.piece_reply 1 (bytes_of_string "second")) io_EOF
                 [handshake_bytes Demo.session; ext_written] [] false))
    as (table & c' & Hrun & Hlen & _).
  { vm_compute. reflexivity. }
  exists (bytes_of_string "second"). split; [vm_compute; reflexivity|].
  rewrite Hrun. cbn [pieces set_pieces]. rewrite Hlen. vm_compute. reflexivity.
Defined.

(** X17. [Begin] never looks at [metadataSize].  Once the table is
    allocated the announced size plays no part in the transfer: the
    requests, the replies accepted, the result and the bytes returned are
    those of the session with any other size, and the size itself is left
    as it was.  Only the number of slots and the checksum decide. *)
Theorem X17_Begin_never_reads_metadataSize `{Packages} (z : Z) (m : Meta) :
  Begin (set_metadataSize z m) = ((Begin m).1, set_metadataSize z (Begin m).2).
Proof.
  revert m. change (commutes_with (set_metadataSize z) Begin). unfold Begin.
  apply commutes_bind; [apply commutes_on_conn|]. intros _.
  apply commutes_get_bind; [|done]. intros m0.
  apply commutes_bind; [apply commutes_for_range|]. intros _.
  apply commutes_get_bind; [|done]. intros m1.
  apply commutes_Begin_loop.
Qed.

(** ** Replies that are turned down *)

Section turned_down.
Context `{Packages}.

Lemma Begin_turn_piece (m : Meta) (c : Conn) (lenb payload rest : list byte) :
  conn m = Some c →
  incoming c = lenb ++ (Byte.x14 :: Byte.x01 :: payload) ++ rest →
  length lenb = 4%nat → Uint32 lenb = len payload + 2 →
  Begin_turn m
  = match readOnePiece payload (set_conn (Some (advance rest c)) m) with
    | (Return (Some e), m') => (Return (Some (None, Some e)), m')
    | (Return None, m') => Begin_check m'
    | (Panic msg, m') => (Panic msg, m')
    | (OutOfFuel, m') => (OutOfFuel, m')
    end.
Proof.
  intros Hc Hin Hl Hu.
  rewrite (Begin_turn_frame m c lenb (Byte.x14 :: Byte.x01 :: payload) rest Hc Hin Hl).
  2:{ rewrite Hu. unfold len. cbn [length]. lia. }
  fold (advance rest c). unfold Begin_frame.
  rewrite bind_run, (index_run _ _ Byte.x14) by done.
  rewrite bool_decide_eq_false_2 by (intros Hne; by apply Hne).
  rewrite bind_run, (index_run _ _ Byte.x01) by done.
  rewrite bool_decide_eq_false_2 by (intros Hne; by apply Hne).
  rewrite bind_run, slice_from_run by (unfold len; cbn [length]; lia).
  change (drop (Z.to_nat 2) (Byte.x14 :: Byte.x01 :: payload)) with payload.
  rewrite bind_run.
  by destruct (readOnePiece payload _) as [[[e|]|msg|] m'].
Qed.

End turned_down.

(** X18. [Begin] does not go on after a piece reply that [readOnePiece]
    turns down.  It returns the error of that reply with no bytes, or
    panics where [readOnePiece] panics; the frames that follow are left
    unread and the table is as it was. *)
Theorem X18_Begin_stops_at_a_rejected_reply `{Packages}
    (m : Meta) (c : Conn) (lenb payload rest : list byte) :
  conn m = Some c →
  incoming c = lenb ++ (Byte.x14 :: Byte.x01 :: payload) ++ rest →
  length lenb = 4%nat → Uint32 lenb = len payload + 2 →
  let reqs := request_written (utMetadata m) <$> seqZ 0 (pieceCount m) in
  let m' := set_conn (Some (advance rest (write_all reqs c))) m in
  (∀ e, (readOnePiece payload m).1 = Return (Some e) →
        Begin m = (Return (None, Some e), m'))
  ∧ (∀ msg, (readOnePiece payload m).1 = Panic msg → Begin m = (Panic msg, m')).
Proof.
  intros Hc Hin Hl Hu reqs m'.
  rewrite (Begin_requests m c Hc). fold reqs.
  destruct (write_all_reads reqs c) as (Hr & _).
  rewrite Begin_loop_step.
  rewrite (Begin_turn_piece (set_conn (Some (write_all reqs c)) m) (write_all reqs c)
             lenb payload rest eq_refl);
    [|by rewrite Hr|done|done].
  change (set_conn (Some (advance rest (write_all reqs c)))
            (set_conn (Some (write_all reqs c)) m)) with m'.
  unfold m'. rewrite (conn_blind_readOnePiece payload _ m).
  destruct (readOnePiece payload m) as [o m1] eqn:Hrun. cbn [fst snd].
  destruct (readOnePiece_cases _ _ _ _ Hrun) as [[-> _]|[-> _]].
  { split; intros ?; [intros [=]|intros [=]]. }
  split.
  - by intros e ->.
  - by intros msg ->.
Qed.

Lemma X18_Begin_stops_at_a_rejected_reply_witness :
  let reject := frame ([Byte.x14; Byte.x01] ++ Demo.piece_dict 2 0) in
  ∃ m', Begin (Demo.announced 14 (reject ++ Demo.piece_reply 0 Demo.metadata))
        = (Return (None, Some (errors_New "piece type error")), m')
    ∧ (incoming <$> conn m') = Some (Demo.piece_reply 0 Demo.metadata).
Proof.
  cbv zeta.
  destruct (X18_Begin_stops_at_a_rejected_reply
              (Demo.announced 14
                 (frame ([Byte.x14; Byte.x01] ++ Demo.piece_dict 2 0)
                  ++ Demo.piece_reply 0 Demo.metadata))
              (mkConn (frame ([Byte.x14; Byte.x01] ++ Demo.piece_dict 2 0)
                       ++ Demo.piece_reply 0 Demo.metadata) io_EOF
                 [handshake_bytes Demo.session; ext_written] [] false)
              (PutUint32 (len (Demo.piece_dict 2 0) + 2)) (Demo.piece_dict 2 0)
              (Demo.piece_reply 0 Demo.metadata))
    as [Herr _].
  - vm_compute. reflexivity.
  - reflexivity.
  - reflexivity.
  - vm_compute. reflexivity.
  - eexists. split; [apply Herr; vm_compute; reflexivity|].
    cbn [conn set_conn fmap option_fmap option_map advance incoming]. reflexivity.
Defined.

(** X19. [readOnePiece] never panics on a slice bound: the first "ee"
    lies inside the payload, and a payload without one is answered with
    the error "ee == 1".  On a table of [pieceCount] slots it panics in
    two ways only, and leaves the session as it was: when the decoder
    panics on the part of the payload up to the first "ee", and when the
    dictionary has [msg_type] 1 and a negative [piece]. *)
Theorem X19_readOnePiece_panics_in_two_ways `{Packages} (payload : list byte) (m : Meta) :
  len (pieces m) = pieceCount m →
  let i := Index payload (bytes_of_string "ee") in
  let head := take (Z.to_nat (i + 2)) payload in
  (i = -1 → readOnePiece payload m = (Return (Some (errors_New "ee == 1")), m))
  ∧ (i ≠ -1 → bencode_Decode head = None →
       readOnePiece payload m = (Panic makeslice, m))
  ∧ (∀ msg, (readOnePiece payload m).1 = Panic msg →
       i ≠ -1 ∧ (readOnePiece payload m).2 = m
       ∧ ((bencode_Decode head = None ∧ msg = makeslice)
          ∨ ∃ dict k, bencode_Decode head = Some (dict, None)
              ∧ dict !! "piece" = Some (Int64 k) ∧ k < 0
              ∧ dict !! "msg_type" = Some (Int64 1)
              ∧ msg = out_of_range)).
Proof.
  intros Hlen. cbv zeta.
  destruct (Index_bound payload (bytes_of_string "ee")) as [Hi|[H0 Hl]].
  - rewrite Hi. split_and!; try done.
    + intros _. unfold readOnePiece. cbv zeta. rewrite Hi.
      by rewrite bool_decide_eq_true_2.
    + intros msg. unfold readOnePiece. cbv zeta. rewrite Hi.
      by rewrite bool_decide_eq_true_2.
  - change (len (bytes_of_string "ee")) with 2 in Hl.
    split_and!; [lia| |].
    + intros _ Hd. unfold readOnePiece. cbv zeta.
      rewrite bool_decide_eq_false_2 by lia.
      rewrite bind_run, slice_to_run by lia. by rewrite Hd.
    + intros msg Hp. split; [lia|].
      destruct (readOnePiece payload m) as [o m'] eqn:Hrun. cbn [fst snd] in *. subst o.
      destruct (readOnePiece_cases _ _ _ _ Hrun) as [[? _]|[-> _]]; [done|].
      split; [done|].
      revert Hrun. unfold readOnePiece. cbv zeta.
      rewrite bool_decide_eq_false_2 by lia.
      rewrite bind_run, slice_to_run by lia.
      destruct (bencode_Decode _) as [[dict [e|]]|] eqn:Hd;
        [by intros [=]| |intros [= <-]; by left].
      intros Hrun. right. revert Hrun. cbv beta iota. rewrite bind_run. unfold get.
      destruct (assert_int64 (dict !! "piece")) as [k ok] eqn:Hpiece.
      destruct (negb ok || _) eqn:Hk; [by intros [=]|].
      destruct (assert_int64 (dict !! "msg_type")) as [t ok'] eqn:Hm.
      destruct (negb ok' || _) eqn:Hty; [by intros [=]|].
      apply orb_false_elim in Hk as [Hok Hk]. apply orb_false_elim in Hty as [Hok' Hty].
      destruct ok; [|done]. destruct ok'; [|done].
      apply bool_decide_eq_false in Hty. apply dec_stable in Hty. subst t.
      apply Z.leb_gt in Hk.
      rewrite bind_run, slice_from_run by lia.
      rewrite bind_run. unfold index.
      destruct (k <? 0) eqn:Hneg.
      * intros [= <-]. exists dict, k. apply Z.ltb_lt in Hneg.
        unfold assert_int64 in Hpiece, Hm.
        repeat case_match; simplify_eq; done.
      * apply Z.ltb_ge in Hneg.
        destruct (lookup_lt_is_Some_2 (pieces m) (Z.to_nat k)) as [x ->];
          [unfold len in Hlen; lia|].
        by intros [=].
Qed.

Lemma X19_readOnePiece_panics_in_two_ways_witness :
  let m := (onExtHandshake (Demo.ext_dict 14) Demo.session).2 in
  readOnePiece (bytes_of_string "d9223372036854775807:ee") m = (Panic makeslice, m).
Proof.
  cbv zeta.
  destruct (X19_readOnePiece_panics_in_two_ways
              (bytes_of_string "d9223372036854775807:ee")
              (onExtHandshake (Demo.ext_dict 14) Demo.session).2) as (_ & Hcrash & _).
  { vm_compute. reflexivity. }
  apply Hcrash; [vm_compute; discriminate|vm_compute; reflexivity].
Defined.
